(** * ncm2mp3: the container decryption engine of [ncm2mp3.py]

    A shallow embedding of [decrypt_ncm] (src/ncm2mp3.py) together with the
    library primitives it calls (struct.unpack, AES-128 in ECB mode, ARC4,
    base64.b64decode, Crypto.Util.Padding.unpad, str/bytes codecs and
    json.loads), and the properties of the decoder stated over it.

    Buffers are [list byte]; Python integers that are lengths or offsets
    are [N]; exceptions are values of [py_exception]; the cipher objects
    the function creates and uses are recorded in a log so that statements
    about which cipher operations ran can be made.  What the function
    prints is left out; so is reading the file: the decoder is a function
    of the file's content and of the [debug] flag.

    The functions around the decoder ([is_ncm_file], [get_ncm_files],
    [write_temp_audio], [add_metadata], [convert_ncm_to_mp3] and [main])
    are embedded as trees of calls to the file system, the terminal and
    mutagen; the statements about them hold for every way of answering
    these calls. *)

From Stdlib Require Import List NArith ZArith Bool Lia String Ascii.
From Stdlib Require Import Init.Byte Strings.Byte.
Import ListNotations.

Local Open Scope N_scope.
Local Open Scope list_scope.

(* ===================================================================== *)
(** ** Python [bytes] *)
(* ===================================================================== *)

Module PyBytes.

Definition bytes := list byte.

(** [len(b)] *)
Definition len (b : bytes) : N := N.of_nat (List.length b).

(** [b[n:]] for [n >= 0] (a slice never raises; it is clipped). *)
Fixpoint drop (n : N) (b : bytes) : bytes :=
  match b with
  | [] => []
  | x :: t => if n =? 0 then b else drop (N.pred n) t
  end.

(** [b[:n]] for [n >= 0]. *)
Fixpoint take (n : N) (b : bytes) : bytes :=
  match b with
  | [] => []
  | x :: t => if n =? 0 then [] else x :: take (N.pred n) t
  end.

(** [b[lo:hi]] for [0 <= lo], [0 <= hi]; empty when [hi <= lo]. *)
Definition slice (b : bytes) (lo hi : N) : bytes := take (hi - lo) (drop lo b).

Fixpoint bytes_eqb (a b : bytes) : bool :=
  match a, b with
  | [], [] => true
  | x :: a', y :: b' => Byte.eqb x y && bytes_eqb a' b'
  | _, _ => false
  end.

(** [b.startswith(p)] *)
Fixpoint startswith (b p : bytes) : bool :=
  match p, b with
  | [], _ => true
  | y :: p', x :: b' => Byte.eqb x y && startswith b' p'
  | _ :: _, [] => false
  end.

(** [b.find(sub)]: lowest index where [sub] occurs, [None] for Python's -1. *)
Fixpoint find_from (i : N) (b sub : bytes) : option N :=
  if startswith b sub then Some i
  else match b with
       | [] => None
       | _ :: t => find_from (N.succ i) t sub
       end.

Definition find (b sub : bytes) : option N := find_from 0 b sub.

(** [sub in b] *)
Definition contains (sub b : bytes) : bool :=
  match find b sub with Some _ => true | None => false end.

(** [b.lstrip(b'\x00')] *)
Fixpoint lstrip0 (b : bytes) : bytes :=
  match b with
  | x00 :: t => lstrip0 t
  | _ => b
  end.

(** [b.rstrip(b'\x00')] *)
Definition rstrip0 (b : bytes) : bytes := rev (lstrip0 (rev b)).

(** [b.strip(b'\x00')] *)
Definition strip0 (b : bytes) : bytes := rstrip0 (lstrip0 b).

(** [bytes([v]) * n] *)
Definition replicate (n : N) (v : byte) : bytes := repeat v (N.to_nat n).

(** [b.ljust(width, fill)] *)
Definition ljust (b : bytes) (width : N) (fill : byte) : bytes :=
  b ++ replicate (width - len b) fill.

(** The byte whose value is [n] (callers keep [n] below 256, as
    [bytes([n])] requires). *)
Definition byte_of_N (n : N) : byte :=
  match Byte.of_N (n mod 256) with Some b => b | None => x00 end.

(** [a ^ b] on two byte values. *)
Definition xor_byte (a b : byte) : byte :=
  byte_of_N (N.lxor (Byte.to_N a) (Byte.to_N b)).

(** A bytes literal. *)
Definition b_ (s : string) : bytes := list_byte_of_string s.

End PyBytes.
Import PyBytes.

(* ===================================================================== *)
(** ** Constants for NCM decryption (ncm2mp3.py, lines 26-30) *)
(* ===================================================================== *)

Definition MAGIC_HEADER : bytes := b_ "CTENFDAM".
Definition AES_KEY : bytes := b_ "hzHRAmso5kInbaxW".
Definition META_XOR_KEY : byte := x63.
Definition KEY_XOR_KEY : byte := x64.
Definition HEADER : bytes := b_ "neteasecloudmusic".

(** [bytes([b ^ k for b in data])] *)
Definition xor_mask (k : byte) (data : bytes) : bytes :=
  map (fun b => xor_byte b k) data.

(* ===================================================================== *)
(** ** Python exceptions *)
(* ===================================================================== *)

(** The exception classes that can be raised inside [decrypt_ncm]; all of
    them derive from [Exception].  A [ValueError] carries its message, since
    the function tells its own failures apart only by message. *)
Inductive py_exception : Type :=
| ValueError (msg : string)
| struct_error (msg : string)
| binascii_Error (msg : string)
| UnicodeDecodeError
| UnicodeEncodeError
| JSONDecodeError (msg : string)
| RecursionError.

Definition result (A : Type) : Type := (py_exception + A)%type.

(* ===================================================================== *)
(** ** struct.unpack('<I', ...) *)
(* ===================================================================== *)

Module Struct.

(** [struct.unpack('<I', buf)[0]]: the buffer must hold exactly four
    bytes; the value is little-endian. *)
Definition unpack_u32_le (buf : bytes) : result N :=
  match buf with
  | [b0; b1; b2; b3] =>
      inr (Byte.to_N b0 + 256 * (Byte.to_N b1 + 256 * (Byte.to_N b2 + 256 * Byte.to_N b3)))
  | _ => inl (struct_error "unpack requires a buffer of 4 bytes")
  end.

(** [struct.pack('<I', n)], used to build sample containers. *)
Definition pack_u32_le (n : N) : bytes :=
  [byte_of_N n; byte_of_N (n / 256); byte_of_N (n / 65536); byte_of_N (n / 16777216)].

End Struct.

(* ===================================================================== *)
(** ** Crypto.Cipher.AES (AES-128, FIPS 197) in ECB mode *)
(* ===================================================================== *)

Module AES.

Definition block_size : N := 16.

(** Multiplication by x in GF(2^8) modulo x^8 + x^4 + x^3 + x + 1. *)
Definition xtime (a : N) : N :=
  let s := N.land (N.shiftl a 1) 255 in
  if N.testbit a 7 then N.lxor s 27 else s.

Fixpoint gmul_aux (k : nat) (a b acc : N) : N :=
  match k with
  | O => acc
  | S k' => gmul_aux k' (xtime a) (N.shiftr b 1)
              (if N.odd b then N.lxor acc a else acc)
  end.

Definition gmul (a b : N) : N := gmul_aux 8 a b 0.

Fixpoint gpow (a : N) (k : nat) : N :=
  match k with
  | O => 1
  | S k' => gmul a (gpow a k')
  end.

Definition rotl8 (b : N) (k : N) : N :=
  N.land (N.lor (N.shiftl b k) (N.shiftr b (8 - k))) 255.

Definition sbox_calc (a : N) : N :=
  let b := gpow a 254 in
  N.lxor (N.lxor (N.lxor (N.lxor (N.lxor b (rotl8 b 1)) (rotl8 b 2)) (rotl8 b 3)) (rotl8 b 4)) 99.

Definition all_values : list N := map N.of_nat (seq 0 256).

Definition sbox_table : list N := Eval vm_compute in map sbox_calc all_values.

Fixpoint index_of (y : N) (t : list N) : N :=
  match t with
  | [] => 0
  | x :: t' => if x =? y then 0 else N.succ (index_of y t')
  end.

Definition inv_sbox_table : list N :=
  Eval vm_compute in map (fun y => index_of y sbox_table) all_values.

Definition sub_byte (x : N) : N := nth (N.to_nat x) sbox_table 0.
Definition inv_sub_byte (x : N) : N := nth (N.to_nat x) inv_sbox_table 0.

Definition state := list N.

Definition xor_state (a b : state) : state :=
  map (fun p => N.lxor (fst p) (snd p)) (combine a b).

Definition sub_bytes (s : state) : state := map sub_byte s.
Definition inv_sub_bytes (s : state) : state := map inv_sub_byte s.

(** The state is stored column by column: entry [r + 4c] is row [r],
    column [c]. *)
Definition shift_rows (s : state) : state :=
  map (fun i : nat => nth (Nat.modulo (i + 4 * Nat.modulo i 4) 16) s 0) (seq 0 16).

Definition inv_shift_rows (s : state) : state :=
  map (fun i : nat => nth (Nat.modulo (i + 12 * Nat.modulo i 4) 16) s 0) (seq 0 16).

Fixpoint mix_columns (s : state) : state :=
  match s with
  | a0 :: a1 :: a2 :: a3 :: rest =>
      N.lxor (N.lxor (gmul 2 a0) (gmul 3 a1)) (N.lxor a2 a3)
      :: N.lxor (N.lxor a0 (gmul 2 a1)) (N.lxor (gmul 3 a2) a3)
      :: N.lxor (N.lxor a0 a1) (N.lxor (gmul 2 a2) (gmul 3 a3))
      :: N.lxor (N.lxor (gmul 3 a0) a1) (N.lxor a2 (gmul 2 a3))
      :: mix_columns rest
  | _ => []
  end.

Fixpoint inv_mix_columns (s : state) : state :=
  match s with
  | a0 :: a1 :: a2 :: a3 :: rest =>
      N.lxor (N.lxor (gmul 14 a0) (gmul 11 a1)) (N.lxor (gmul 13 a2) (gmul 9 a3))
      :: N.lxor (N.lxor (gmul 9 a0) (gmul 14 a1)) (N.lxor (gmul 11 a2) (gmul 13 a3))
      :: N.lxor (N.lxor (gmul 13 a0) (gmul 9 a1)) (N.lxor (gmul 14 a2) (gmul 11 a3))
      :: N.lxor (N.lxor (gmul 11 a0) (gmul 13 a1)) (N.lxor (gmul 9 a2) (gmul 14 a3))
      :: inv_mix_columns rest
  | _ => []
  end.

(** Key expansion: the next round key from the previous one. *)
Definition next_round_key (rk : state) (rcon : N) : state :=
  match rk with
  | [k0; k1; k2; k3; k4; k5; k6; k7; k8; k9; k10; k11; k12; k13; k14; k15] =>
      let w0 := xor_state [k0; k1; k2; k3]
                  [N.lxor (sub_byte k13) rcon; sub_byte k14; sub_byte k15; sub_byte k12] in
      let w1 := xor_state [k4; k5; k6; k7] w0 in
      let w2 := xor_state [k8; k9; k10; k11] w1 in
      let w3 := xor_state [k12; k13; k14; k15] w2 in
      w0 ++ w1 ++ w2 ++ w3
  | _ => rk
  end.

Fixpoint expand_from (rounds : nat) (rk : state) (rcon : N) : list state :=
  match rounds with
  | O => [rk]
  | S r => rk :: expand_from r (next_round_key rk rcon) (xtime rcon)
  end.

(** The eleven round keys of a 16-byte key. *)
Definition expand_key (key : state) : list state := expand_from 10 key 1.

Definition encrypt_round (s rk : state) : state :=
  xor_state (mix_columns (shift_rows (sub_bytes s))) rk.

Definition final_round (s rk : state) : state :=
  xor_state (shift_rows (sub_bytes s)) rk.

Definition encrypt_block (rks : list state) (blk : state) : state :=
  match rks with
  | rk0 :: rest =>
      let middle := removelast rest in
      let rk_last := last rest [] in
      final_round (fold_left encrypt_round middle (xor_state blk rk0)) rk_last
  | [] => blk
  end.

Definition decrypt_round (s rk : state) : state :=
  inv_mix_columns (xor_state (inv_sub_bytes (inv_shift_rows s)) rk).

Definition decrypt_block (rks : list state) (blk : state) : state :=
  match rev rks with
  | rk_last :: rest =>
      let middle := removelast rest in
      let rk0 := last rest [] in
      xor_state (inv_sub_bytes (inv_shift_rows
                   (fold_left decrypt_round middle (xor_state blk rk_last)))) rk0
  | [] => blk
  end.

(** A cipher object created by [AES.new(key, AES.MODE_ECB)]. *)
Record cipher : Type := { round_keys : list state }.

(** [AES.new(key, AES.MODE_ECB)] for a 16-byte key (the only key this
    program uses); any other length is rejected here. *)
Definition new (key : bytes) : result cipher :=
  if len key =? 16
  then inr {| round_keys := expand_key (map Byte.to_N key) |}
  else inl (ValueError "Incorrect AES key length").

Fixpoint map_blocks (f : state -> state) (nblocks : nat) (data : bytes) : bytes :=
  match nblocks with
  | O => []
  | S n => map byte_of_N (f (map Byte.to_N (take 16 data)))
           ++ map_blocks f n (drop 16 data)
  end.

(** [cipher.decrypt(data)] in ECB mode: data that is not a whole number of
    blocks is refused, every block is decrypted on its own. *)
Definition decrypt (c : cipher) (data : bytes) : result bytes :=
  if negb (len data mod block_size =? 0)
  then inl (ValueError "Data must be aligned to block boundary in ECB mode")
  else inr (map_blocks (decrypt_block (round_keys c)) (N.to_nat (len data / 16)) data).

(** [cipher.encrypt(data)] in ECB mode; not called by the decoder, used to
    build sample containers. *)
Definition encrypt (c : cipher) (data : bytes) : result bytes :=
  if negb (len data mod block_size =? 0)
  then inl (ValueError "Data must be aligned to block boundary in ECB mode")
  else inr (map_blocks (encrypt_block (round_keys c)) (N.to_nat (len data / 16)) data).

End AES.


(* ===================================================================== *)
(** ** Crypto.Cipher.ARC4 *)
(* ===================================================================== *)

Module ARC4.

(** [ARC4.key_size] is [range(1, 257)]. *)
Definition key_size_ok (n : N) : bool := (1 <=? n) && (n <=? 256).

Definition get (S : list N) (i : N) : N := nth (N.to_nat i) S 0.

Fixpoint set_nth (S : list N) (i : nat) (v : N) : list N :=
  match S, i with
  | [], _ => []
  | _ :: t, O => v :: t
  | x :: t, Datatypes.S i' => x :: set_nth t i' v
  end.

Definition swap (S : list N) (i j : N) : list N :=
  let a := get S i in
  let b := get S j in
  set_nth (set_nth S (N.to_nat i) b) (N.to_nat j) a.

(** One step of the key schedule. *)
Definition ksa_step (key : bytes) (st : list N * N) (i : N) : list N * N :=
  let (S, j) := st in
  let k := Byte.to_N (nth (N.to_nat (i mod len key)) key x00) in
  let j' := (j + get S i + k) mod 256 in
  (swap S i j', j').

(** The numbers 0 to 255 in order. *)
Definition identity : list N := map N.of_nat (seq 0 256).

Definition ksa (key : bytes) : list N :=
  fst (fold_left (ksa_step key) identity (identity, 0)).

(** A cipher object: the permutation and the two indices of the
    keystream generator. *)
Record cipher : Type := { perm : list N; idx_i : N; idx_j : N }.

(** [ARC4.new(key)]; the library's message also gives the length. *)
Definition new (key : bytes) : result cipher :=
  if key_size_ok (len key)
  then inr {| perm := ksa key; idx_i := 0; idx_j := 0 |}
  else inl (ValueError "Incorrect ARC4 key length").

(** The keystream generator, XORed over the data byte by byte. *)
Fixpoint crypt (S : list N) (i j : N) (data : bytes) : bytes :=
  match data with
  | [] => []
  | b :: rest =>
      let i' := (i + 1) mod 256 in
      let j' := (j + get S i') mod 256 in
      let S' := swap S i' j' in
      let k := get S' ((get S' i' + get S' j') mod 256) in
      xor_byte b (byte_of_N k) :: crypt S' i' j' rest
  end.

(** [cipher.decrypt(data)] on a cipher object; [encrypt] is the same
    transform. *)
Definition decrypt (c : cipher) (data : bytes) : bytes :=
  crypt (perm c) (idx_i c) (idx_j c) data.

Definition encrypt (c : cipher) (data : bytes) : bytes := decrypt c data.

End ARC4.

(* ===================================================================== *)
(** ** Crypto.Util.Padding.unpad (style pkcs7) *)
(* ===================================================================== *)

Module Padding.

(** [padded_data[-n:]] and [padded_data[:-n]] for [1 <= n <= len]. *)
Definition last_n (n : N) (b : bytes) : bytes := drop (len b - n) b.
Definition drop_last_n (n : N) (b : bytes) : bytes := take (len b - n) b.

Definition unpad (padded_data : bytes) (block_size : N) : result bytes :=
  let pdata_len := len padded_data in
  if pdata_len =? 0 then inl (ValueError "Zero-length input cannot be unpadded")
  else if negb (pdata_len mod block_size =? 0)
  then inl (ValueError "Input data is not padded")
  else
    let padding_len := Byte.to_N (List.last padded_data x00) in
    if (padding_len <? 1) || (N.min block_size pdata_len <? padding_len)
    then inl (ValueError "Padding is incorrect.")
    else if negb (bytes_eqb (last_n padding_len padded_data)
                            (replicate padding_len (byte_of_N padding_len)))
    then inl (ValueError "PKCS#7 padding is incorrect.")
    else inr (drop_last_n padding_len padded_data).

(** [Crypto.Util.Padding.pad] (style pkcs7); not called by the decoder,
    used to build sample containers. *)
Definition pad (data : bytes) (block_size : N) : bytes :=
  let padding_len := block_size - len data mod block_size in
  data ++ replicate padding_len (byte_of_N padding_len).

End Padding.

(* ===================================================================== *)
(** ** base64.b64decode (validate=False), i.e. binascii.a2b_base64 *)
(* ===================================================================== *)

Module Base64.

(** The value of a character of the standard alphabet. *)
Definition a2b (c : byte) : option N :=
  let n := Byte.to_N c in
  if (65 <=? n) && (n <=? 90) then Some (n - 65)
  else if (97 <=? n) && (n <=? 122) then Some (n - 71)
  else if (48 <=? n) && (n <=? 57) then Some (n + 4)
  else if n =? 43 then Some 62
  else if n =? 47 then Some 63
  else None.

(** The decoding loop of [a2b_base64] in its default, non-strict mode:
    characters outside the alphabet are skipped, a pad sequence that
    completes a quad ends the decoding, and input that stops inside a quad
    is an error (the library's first message also gives the number of
    data characters). *)
Fixpoint decode_loop (quad_pos leftchar pads : N) (out_rev : bytes)
                     (data : bytes) : result bytes :=
  match data with
  | [] =>
      if quad_pos =? 0 then inr (rev out_rev)
      else if quad_pos =? 1
      then inl (binascii_Error "Invalid base64-encoded string: number of data characters cannot be 1 more than a multiple of 4")
      else inl (binascii_Error "Incorrect padding")
  | c :: rest =>
      if Byte.eqb c "="%byte then
        if (2 <=? quad_pos) && (4 <=? quad_pos + (pads + 1))
        then inr (rev out_rev)
        else decode_loop quad_pos leftchar
                         (if 2 <=? quad_pos then pads + 1 else pads) out_rev rest
      else
        match a2b c with
        | None => decode_loop quad_pos leftchar pads out_rev rest
        | Some v =>
            if quad_pos =? 0 then decode_loop 1 v 0 out_rev rest
            else if quad_pos =? 1 then
              decode_loop 2 (N.land v 15) 0
                (byte_of_N (N.lor (N.shiftl leftchar 2) (N.shiftr v 4)) :: out_rev) rest
            else if quad_pos =? 2 then
              decode_loop 3 (N.land v 3) 0
                (byte_of_N (N.lor (N.shiftl leftchar 4) (N.shiftr v 2)) :: out_rev) rest
            else
              decode_loop 0 0 0
                (byte_of_N (N.lor (N.shiftl leftchar 6) v) :: out_rev) rest
        end
  end.

Definition b64decode (s : bytes) : result bytes := decode_loop 0 0 0 [] s.

(** [base64.b64encode]; not called by the decoder, used to build sample
    containers. *)
Definition b2a (n : N) : byte :=
  byte_of_N (if n <? 26 then n + 65
             else if n <? 52 then n + 71
             else if n <? 62 then n - 4
             else if n =? 62 then 43 else 47).

Fixpoint b64encode (data : bytes) : bytes :=
  match data with
  | [] => []
  | [a] =>
      let x := Byte.to_N a in
      [b2a (N.shiftr x 2); b2a (N.land (N.shiftl x 4) 63); "="%byte; "="%byte]
  | [a; b] =>
      let x := Byte.to_N a in
      let y := Byte.to_N b in
      [b2a (N.shiftr x 2); b2a (N.land (N.lor (N.shiftl x 4) (N.shiftr y 4)) 63);
       b2a (N.land (N.shiftl y 2) 63); "="%byte]
  | a :: b :: c :: rest =>
      let x := Byte.to_N a in
      let y := Byte.to_N b in
      let z := Byte.to_N c in
      b2a (N.shiftr x 2)
      :: b2a (N.land (N.lor (N.shiftl x 4) (N.shiftr y 4)) 63)
      :: b2a (N.land (N.lor (N.shiftl y 2) (N.shiftr z 6)) 63)
      :: b2a (N.land z 63)
      :: b64encode rest
  end.

End Base64.

(* ===================================================================== *)
(** ** Python [str] and the codecs used by the decoder *)
(* ===================================================================== *)

Module PyStr.

(** A [str] is its sequence of code points. *)
Definition str := list N.

Definition of_string (s : string) : str := map Byte.to_N (list_byte_of_string s).

Definition is_cont (n : N) : bool := (128 <=? n) && (n <=? 191).

(** For a lead byte of a multi-byte sequence: the number of continuation
    bytes, the range allowed for the first of them, and the payload bits
    of the lead byte. *)
Definition lead_byte (n : N) : option (N * N * N * N) :=
  if (194 <=? n) && (n <=? 223) then Some (1, 128, 191, n - 192)
  else if n =? 224 then Some (2, 160, 191, 0)
  else if n =? 237 then Some (2, 128, 159, 13)
  else if (225 <=? n) && (n <=? 239) then Some (2, 128, 191, n - 224)
  else if n =? 240 then Some (3, 144, 191, 0)
  else if (241 <=? n) && (n <=? 243) then Some (3, 128, 191, n - 240)
  else if n =? 244 then Some (3, 128, 143, 4)
  else None.

(** What the decoder does with an undecodable run: [errors='strict']
    raises, [errors='ignore'] drops the run and goes on. *)
Definition on_error (ignore : bool) (continue : result str) : result str :=
  if ignore then continue else inl UnicodeDecodeError.

Definition emit (cp : N) (continue : result str) : result str :=
  match continue with
  | inr s => inr (cp :: s)
  | inl e => inl e
  end.

(** [b.decode('utf-8', errors=...)].  An invalid lead byte is a run of one
    byte; an invalid continuation byte ends the run before it; a sequence
    cut off by the end of the data is a run up to the end. *)
Fixpoint decode_utf8 (ignore : bool) (b : bytes) : result str :=
  match b with
  | [] => inr []
  | b0 :: r0 =>
      let n0 := Byte.to_N b0 in
      if n0 <? 128 then emit n0 (decode_utf8 ignore r0)
      else
        match lead_byte n0 with
        | None => on_error ignore (decode_utf8 ignore r0)
        | Some (k, lo, hi, bits) =>
            match r0 with
            | [] => on_error ignore (inr [])
            | b1 :: r1 =>
                let n1 := Byte.to_N b1 in
                if negb ((lo <=? n1) && (n1 <=? hi))
                then on_error ignore (decode_utf8 ignore r0)
                else
                  let c1 := bits * 64 + (n1 - 128) in
                  if k =? 1 then emit c1 (decode_utf8 ignore r1)
                  else
                    match r1 with
                    | [] => on_error ignore (inr [])
                    | b2 :: r2 =>
                        let n2 := Byte.to_N b2 in
                        if negb (is_cont n2)
                        then on_error ignore (decode_utf8 ignore r1)
                        else
                          let c2 := c1 * 64 + (n2 - 128) in
                          if k =? 2 then emit c2 (decode_utf8 ignore r2)
                          else
                            match r2 with
                            | [] => on_error ignore (inr [])
                            | b3 :: r3 =>
                                let n3 := Byte.to_N b3 in
                                if negb (is_cont n3)
                                then on_error ignore (decode_utf8 ignore r2)
                                else emit (c2 * 64 + (n3 - 128))
                                          (decode_utf8 ignore r3)
                            end
                    end
            end
        end
  end.

Definition is_surrogate (cp : N) : bool := (55296 <=? cp) && (cp <=? 57343).

(** [s.encode('utf-8')]; a lone surrogate cannot be encoded. *)
Fixpoint encode_utf8 (s : str) : result bytes :=
  match s with
  | [] => inr []
  | cp :: t =>
      if is_surrogate cp then inl UnicodeEncodeError
      else
        let enc :=
          if cp <? 128 then [byte_of_N cp]
          else if cp <? 2048 then
            [byte_of_N (192 + cp / 64); byte_of_N (128 + cp mod 64)]
          else if cp <? 65536 then
            [byte_of_N (224 + cp / 4096); byte_of_N (128 + (cp / 64) mod 64);
             byte_of_N (128 + cp mod 64)]
          else
            [byte_of_N (240 + cp / 262144); byte_of_N (128 + (cp / 4096) mod 64);
             byte_of_N (128 + (cp / 64) mod 64); byte_of_N (128 + cp mod 64)] in
        match encode_utf8 t with
        | inr b => inr (enc ++ b)
        | inl e => inl e
        end
  end.

(** [b.decode('latin-1', errors='ignore')]: every byte is a character. *)
Definition decode_latin1 (b : bytes) : str := map Byte.to_N b.

Fixpoint startswith (s p : str) : bool :=
  match p, s with
  | [], _ => true
  | y :: p', x :: s' => (x =? y) && startswith s' p'
  | _ :: _, [] => false
  end.

(** [s.find(sub)] *)
Fixpoint find_from (i : N) (s sub : str) : option N :=
  if startswith s sub then Some i
  else match s with
       | [] => None
       | _ :: t => find_from (N.succ i) t sub
       end.

Definition find (s sub : str) : option N := find_from 0 s sub.

(** [s.rfind(c)] for a single character [c]. *)
Fixpoint rfind_from (i : N) (s : str) (c : N) (found : option N) : option N :=
  match s with
  | [] => found
  | x :: t => rfind_from (N.succ i) t c (if x =? c then Some i else found)
  end.

Definition rfind (s : str) (c : N) : option N := rfind_from 0 s c None.

(** [s[:n]] *)
Fixpoint take (n : N) (s : str) : str :=
  match s with
  | [] => []
  | x :: t => if n =? 0 then [] else x :: take (N.pred n) t
  end.

End PyStr.

(* ===================================================================== *)
(** ** json.loads *)
(* ===================================================================== *)

Module Json.

Import PyStr.

(** The Python value [json.loads] builds.  A number with a fraction or an
    exponent becomes a [float]; it is kept as the text that was matched.
    An integer is an [int] of any size (the interpreter's limit on the
    number of digits is not modelled).  An object becomes a [dict]: its
    keys in order of first insertion. *)
#[warnings="-register-all"]
Inductive value : Type :=
| Null
| Bool (b : bool)
| Int (z : Z)
| Float (lexeme : str)
| Str (s : str)
| Arr (items : list value)
| Obj (members : list (str * value)).

Definition error {A : Type} (msg : string) : result A := inl (JSONDecodeError msg).

Definition is_ws (c : N) : bool := (c =? 32) || (c =? 9) || (c =? 10) || (c =? 13).

Fixpoint skip_ws (s : str) : str :=
  match s with
  | c :: t => if is_ws c then skip_ws t else s
  | [] => []
  end.

Definition is_digit (c : N) : bool := (48 <=? c) && (c <=? 57).

Definition hex_digit (c : N) : option N :=
  if is_digit c then Some (c - 48)
  else if (97 <=? c) && (c <=? 102) then Some (c - 87)
  else if (65 <=? c) && (c <=? 70) then Some (c - 55)
  else None.

Definition hex4 (a b c d : N) : option N :=
  match hex_digit a, hex_digit b, hex_digit c, hex_digit d with
  | Some x, Some y, Some z, Some w => Some (((x * 16 + y) * 16 + z) * 16 + w)
  | _, _, _, _ => None
  end.

(** The character an escape letter stands for. *)
Definition backslash (e : N) : option N :=
  if e =? 34 then Some 34
  else if e =? 92 then Some 92
  else if e =? 47 then Some 47
  else if e =? 98 then Some 8
  else if e =? 102 then Some 12
  else if e =? 110 then Some 10
  else if e =? 114 then Some 13
  else if e =? 116 then Some 9
  else None.

Definition is_high_surrogate (u : N) : bool := (55296 <=? u) && (u <=? 56319).
Definition is_low_surrogate (u : N) : bool := (56320 <=? u) && (u <=? 57343).

(** [scanstring(s, end, strict=True)]: the text after an opening quote, up
    to the closing quote.  Returns the string and what follows it. *)
Fixpoint scanstring (s : str) (acc_rev : str) : result (str * str) :=
  match s with
  | [] => error "Unterminated string starting at"
  | c :: t =>
      if c =? 34 then inr (rev acc_rev, t)
      else if c =? 92 then
        match t with
        | [] => error "Unterminated string starting at"
        | e :: t1 =>
            if e =? 117 then
              match t1 with
              | h1 :: h2 :: h3 :: h4 :: t2 =>
                  match hex4 h1 h2 h3 h4 with
                  | None => error "Invalid \uXXXX escape"
                  | Some u =>
                      match t2 with
                      | 92 :: 117 :: l1 :: l2 :: l3 :: l4 :: t3 =>
                          match hex4 l1 l2 l3 l4 with
                          | Some u2 =>
                              if is_high_surrogate u && is_low_surrogate u2
                              then scanstring t3
                                     (65536 + (u - 55296) * 1024 + (u2 - 56320) :: acc_rev)
                              else scanstring t2 (u :: acc_rev)
                          | None => scanstring t2 (u :: acc_rev)
                          end
                      | _ => scanstring t2 (u :: acc_rev)
                      end
                  end
              | _ => error "Invalid \uXXXX escape"
              end
            else
              match backslash e with
              | Some ch => scanstring t1 (ch :: acc_rev)
              | None => error "Invalid \escape"
              end
        end
      else if c <? 32 then error "Invalid control character at"
      else scanstring t (c :: acc_rev)
  end.

Fixpoint span_digits (s : str) : str * str :=
  match s with
  | c :: t => if is_digit c then let (d, r) := span_digits t in (c :: d, r)
              else ([], s)
  | [] => ([], [])
  end.

Definition digits_value (d : str) : N :=
  fold_left (fun acc c => acc * 10 + (c - 48)) d 0.

(** The integer part of a number: [0] or a non-zero digit and more digits. *)
Definition match_integer (s : str) : option (str * str) :=
  match s with
  | c :: t =>
      if c =? 48 then Some ([c], t)
      else if is_digit c then let (d, r) := span_digits t in Some (c :: d, r)
      else None
  | [] => None
  end.

(** An optional fraction: a dot followed by at least one digit. *)
Definition match_frac (s : str) : str * str :=
  match s with
  | 46 :: t =>
      match span_digits t with
      | ([], _) => ([], s)
      | (d, r) => (46 :: d, r)
      end
  | _ => ([], s)
  end.

(** An optional exponent: [e] or [E], an optional sign, at least one digit. *)
Definition match_exp (s : str) : str * str :=
  match s with
  | e :: t =>
      if (e =? 101) || (e =? 69) then
        let (sign, t') :=
          match t with
          | c :: t'' => if (c =? 43) || (c =? 45) then ([c], t'') else ([], t)
          | [] => ([], t)
          end in
        match span_digits t' with
        | ([], _) => ([], s)
        | (d, r) => (e :: sign ++ d, r)
        end
      else ([], s)
  | [] => ([], s)
  end.

(** A number at the start of [s], if there is one. *)
Definition match_number (s : str) : option (value * str) :=
  let (neg, s1) :=
    match s with
    | 45 :: t => (true, t)
    | _ => (false, s)
    end in
  match match_integer s1 with
  | None => None
  | Some (int_part, s2) =>
      let (frac, s3) := match_frac s2 in
      let (exp, s4) := match_exp s3 in
      match frac ++ exp with
      | [] => Some (Int (if neg then Z.opp (Z.of_N (digits_value int_part))
                        else Z.of_N (digits_value int_part)), s4)
      | _ => Some (Float ((if neg then [45] else []) ++ int_part ++ frac ++ exp), s4)
      end
  end.

(** [s[idx:idx+n] == lit], giving what follows. *)
Fixpoint literal (lit s : str) : option str :=
  match lit, s with
  | [], _ => Some s
  | y :: lit', x :: s' => if x =? y then literal lit' s' else None
  | _ :: _, [] => None
  end.

(** [d[key] = v] on a dict kept in insertion order. *)
Fixpoint dict_set (d : list (str * value)) (key : str) (v : value) : list (str * value) :=
  match d with
  | [] => [(key, v)]
  | (k, w) :: d' =>
      if startswith k key && startswith key k then (k, v) :: d'
      else (k, w) :: dict_set d' key v
  end.

(** [dict(pairs)] *)
Definition dict_of_pairs (pairs : list (str * value)) : list (str * value) :=
  fold_left (fun d kv => dict_set d (fst kv) (snd kv)) pairs [].

(** The scanner.  It recurses once per nested value, per array item and
    per object member; [depth] bounds that recursion, and running out of
    it is reported as [RecursionError]. *)
Fixpoint scan_once (depth : nat) (s : str) : result (value * str) :=
  match depth with
  | O => inl RecursionError
  | S d =>
      match s with
      | [] => error "Expecting value"
      | c :: t =>
          if c =? 34 then
            match scanstring t [] with
            | inr (k, r) => inr (Str k, r)
            | inl e => inl e
            end
          else if c =? 123 then
            (* JSONObject *)
            let t' := skip_ws t in
            match t' with
            | 125 :: r => inr (Obj [], r)
            | 34 :: r => object_members d r []
            | _ => error "Expecting property name enclosed in double quotes"
            end
          else if c =? 91 then
            (* JSONArray *)
            let t' := skip_ws t in
            match t' with
            | 93 :: r => inr (Arr [], r)
            | _ => array_items d t' []
            end
          else
            match literal (of_string "null") s with
            | Some r => inr (Null, r)
            | None =>
            match literal (of_string "true") s with
            | Some r => inr (Bool true, r)
            | None =>
            match literal (of_string "false") s with
            | Some r => inr (Bool false, r)
            | None =>
            match match_number s with
            | Some vr => inr vr
            | None =>
            match literal (of_string "NaN") s with
            | Some r => inr (Float (of_string "NaN"), r)
            | None =>
            match literal (of_string "Infinity") s with
            | Some r => inr (Float (of_string "Infinity"), r)
            | None =>
            match literal (of_string "-Infinity") s with
            | Some r => inr (Float (of_string "-Infinity"), r)
            | None => error "Expecting value"
            end end end end end end end
      end
  end

(** The loop of JSONObject; [s] starts just after the opening quote of a
    key. *)
with object_members (depth : nat) (s : str) (pairs_rev : list (str * value))
  : result (value * str) :=
  match depth with
  | O => inl RecursionError
  | S d =>
      match scanstring s [] with
      | inl e => inl e
      | inr (key, s1) =>
          match skip_ws s1 with
          | 58 :: s2 =>
              match scan_once d (skip_ws s2) with
              | inl e => inl e
              | inr (v, s3) =>
                  let pairs_rev' := (key, v) :: pairs_rev in
                  match skip_ws s3 with
                  | 125 :: r => inr (Obj (dict_of_pairs (rev pairs_rev')), r)
                  | 44 :: s4 =>
                      match skip_ws s4 with
                      | 34 :: s5 => object_members d s5 pairs_rev'
                      | _ => error "Expecting property name enclosed in double quotes"
                      end
                  | _ => error "Expecting ',' delimiter"
                  end
              end
          | _ => error "Expecting ':' delimiter"
          end
      end
  end

(** The loop of JSONArray; [s] starts at an item. *)
with array_items (depth : nat) (s : str) (items_rev : list value)
  : result (value * str) :=
  match depth with
  | O => inl RecursionError
  | S d =>
      match scan_once d s with
      | inl e => inl e
      | inr (v, s1) =>
          match skip_ws s1 with
          | 93 :: r => inr (Arr (rev (v :: items_rev)), r)
          | 44 :: s2 => array_items d (skip_ws s2) (v :: items_rev)
          | _ => error "Expecting ',' delimiter"
          end
      end
  end.

(** [json.loads(s)] for a [str]: one value, surrounded by optional
    whitespace, and nothing else.  The depth given to the scanner, twice
    the length of the text and one more, is never used up; the recursion
    limit of the interpreter itself is not modelled. *)
Definition loads (s : str) : result value :=
  match s with
  | 65279 :: _ => error "Unexpected UTF-8 BOM (decode using utf-8-sig)"
  | _ =>
      match scan_once (S (2 * List.length s)) (skip_ws s) with
      | inl e => inl e
      | inr (v, rest) =>
          match skip_ws rest with
          | [] => inr v
          | _ => error "Extra data"
          end
      end
  end.

(** [key in meta] and [meta[key]] for a parsed object. *)
Fixpoint lookup (key : str) (d : list (str * value)) : option value :=
  match d with
  | [] => None
  | (k, v) :: d' =>
      if startswith k key && startswith key k then Some v else lookup key d'
  end.

End Json.

(* ===================================================================== *)
(** ** Effects: exceptions and the log of cipher operations *)
(* ===================================================================== *)

(** A call on one of the two cipher modules, with its argument. *)
Inductive cipher_op : Type :=
| AES_new (key : bytes)
| AES_decrypt (data : bytes)
| ARC4_new (key : bytes)
| ARC4_decrypt (data : bytes).

(** A computation that may raise and that records the cipher operations
    it performs, in order (also those performed before a raise). *)
Definition M (A : Type) : Type := (list cipher_op * result A)%type.

Definition ret {A : Type} (a : A) : M A := ([], inr a).

Definition raise {A : Type} (e : py_exception) : M A := ([], inl e).

Definition lift {A : Type} (r : result A) : M A := ([], r).

Definition bind {A B : Type} (m : M A) (f : A -> M B) : M B :=
  match m with
  | (ops, inl e) => (ops, inl e)
  | (ops, inr a) => let (ops', r) := f a in (ops ++ ops', r)
  end.

(** [try: m  except Exception as e: h e] *)
Definition try_except {A : Type} (m : M A) (h : py_exception -> M A) : M A :=
  match m with
  | (ops, inl e) => let (ops', r) := h e in (ops ++ ops', r)
  | (ops, inr a) => (ops, inr a)
  end.

(** The keys of the RC4 ciphers created in a log. *)
Fixpoint rc4_keys (ops : list cipher_op) : list bytes :=
  match ops with
  | [] => []
  | ARC4_new key :: rest => key :: rc4_keys rest
  | _ :: rest => rc4_keys rest
  end.

Notation "x <- m ;; k" := (bind m (fun x => k))
  (at level 61, m at next level, right associativity).

Definition aes_new (key : bytes) : M AES.cipher :=
  (AES_new key :: nil, AES.new key).

Definition aes_decrypt (c : AES.cipher) (data : bytes) : M bytes :=
  (AES_decrypt data :: nil, AES.decrypt c data).

Definition arc4_new (key : bytes) : M ARC4.cipher :=
  (ARC4_new key :: nil, ARC4.new key).

Definition arc4_decrypt (c : ARC4.cipher) (data : bytes) : M bytes :=
  (ARC4_decrypt data :: nil, inr (ARC4.decrypt c data)).

(* ===================================================================== *)
(** ** decrypt_ncm (ncm2mp3.py, lines 93-335) *)
(* ===================================================================== *)

(** [range(n)] *)
Definition range (n : Z) : list N := map N.of_nat (seq 0 (Z.to_nat n)).

(** [struct.unpack('<I', data[lo:hi])[0]] *)
Definition read_u32 (data : bytes) (lo hi : N) : M N :=
  lift (Struct.unpack_u32_le (slice data lo hi)).

(** *** Key box: padding strategies (lines 116-145) *)

(** Standard PKCS#7 padding (line 119): only data that is not already
    aligned is padded. *)
Definition pad_pkcs7 (data : bytes) : bytes :=
  if negb (len data mod 16 =? 0)
  then data ++ replicate (16 - len data mod 16) (byte_of_N (16 - len data mod 16))
  else data.

(** Null padding (line 121). *)
Definition pad_null (data : bytes) : bytes :=
  ljust data (((len data + 15) / 16) * 16) x00.

(** No padding (line 123). *)
Definition pad_none (data : bytes) : bytes := data.

Definition padding_strategies : list (bytes -> bytes) :=
  [pad_pkcs7; pad_null; pad_none].

(** Line 137: does this decryption look like a key? *)
Definition produced_valid_key (temp_key : bytes) : bool :=
  contains HEADER temp_key || (16 <=? len (strip0 temp_key)).

(** The [for] loop of lines 127-145 over the strategies still to try;
    [Some temp_key] when it leaves through [break]. *)
Fixpoint try_padding_strategies (strategies : list (bytes -> bytes))
                                (encrypted_key : bytes) : M (option bytes) :=
  match strategies with
  | [] => ret None
  | pad_func :: rest =>
      attempt <-
        try_except
          (let padded_key := pad_func encrypted_key in
           if negb (len padded_key mod 16 =? 0) then ret None
           else
             cipher <- aes_new AES_KEY ;;
             temp_key <- aes_decrypt cipher padded_key ;;
             if produced_valid_key temp_key then ret (Some temp_key)
             else ret None)
          (fun _ => ret None) ;;
      match attempt with
      | Some temp_key => ret (Some temp_key)
      | None => try_padding_strategies rest encrypted_key
      end
  end.

(** Lines 126-154: the loop, then the fallback to standard padding when
    the loop accepted nothing. *)
Definition decrypt_key (encrypted_key : bytes) : M bytes :=
  decrypted_key <- try_padding_strategies padding_strategies encrypted_key ;;
  match decrypted_key with
  | Some k => ret k
  | None =>
      let padding_length := 16 - len encrypted_key mod 16 in
      let encrypted_key :=
        if negb (padding_length =? 16)
        then encrypted_key ++ replicate padding_length (byte_of_N padding_length)
        else encrypted_key in
      cipher <- aes_new AES_KEY ;;
      aes_decrypt cipher encrypted_key
  end.

(** *** Key box: locating the header (lines 156-223) *)

(** [HEADER.decode('utf-8')] *)
Definition HEADER_text : PyStr.str := PyStr.of_string "neteasecloudmusic".

(** The state of the search: the current [key] and [header_found]. *)
Definition search_state : Type := (bytes * bool)%type.

(** Lines 165-170: the first offset at which the header occurs. *)
Fixpoint search_offsets (offsets : list N) (key : bytes) : search_state :=
  match offsets with
  | [] => (key, false)
  | i :: rest =>
      if bytes_eqb (slice key i (i + len HEADER)) HEADER
      then (drop (i + len HEADER) key, true)
      else search_offsets rest key
  end.

(** Lines 172-180: the header in the latin-1 reading of the key. *)
Definition search_string (st : search_state) : search_state :=
  let (key, header_found) := st in
  if negb header_found then
    let key_str := PyStr.decode_latin1 key in
    match PyStr.find key_str HEADER_text with
    | Some header_pos => (drop (header_pos + len HEADER) key, true)
    | None => (key, header_found)
    end
  else st.

(** Lines 193-200: the header after 0 to 7 null bytes. *)
Fixpoint search_padded (paddings : list N) (key : bytes) : search_state :=
  match paddings with
  | [] => (key, false)
  | padding :: rest =>
      let padded_header := replicate padding x00 ++ HEADER in
      if contains padded_header key then
        match find key padded_header with
        | Some pos => (drop (pos + len padded_header) key, true)
        | None => (key, true)
        end
      else search_padded rest key
  end.

(** Lines 182-200: the null-terminated header, else the padded header. *)
Definition search_alternative (st : search_state) : search_state :=
  let (key, header_found) := st in
  if negb header_found then
    let null_terminated_header := HEADER ++ [x00] in
    if contains null_terminated_header key then
      match find key null_terminated_header with
      | Some pos => (drop (pos + len null_terminated_header) key, true)
      | None => (key, true)
      end
    else search_padded [0; 1; 2; 3; 4; 5; 6; 7] key
  else st.

Definition invalid_key_header : py_exception :=
  ValueError "Invalid key header. Expected 'neteasecloudmusic' at start of decrypted key.".

(** Lines 202-216: the last resort. *)
Definition search_last_resort (st : search_state) : M search_state :=
  let (key, header_found) := st in
  if negb header_found then
    let key := lstrip0 key in
    if 16 <=? len key then ret (key, true)
    else raise invalid_key_header
  else ret st.

(** Lines 163-216, the body of [if not key.startswith(HEADER)]: the
    searches in their order, each one run only while [header_found] is
    still false. *)
Definition search_header (key : bytes) : M bytes :=
  let st := search_offsets (range (Z.of_N (len key) - Z.of_N (len HEADER) + 1)) key in
  let st := search_string st in
  let st := search_alternative st in
  st <- search_last_resort st ;;
  ret (fst st).

(** Lines 156-223: from the decrypted key box to the RC4 key. *)
Definition extract_key (decrypted_key : bytes) : M bytes :=
  let key := decrypted_key in
  let key := lstrip0 key in
  key <- (if negb (startswith key HEADER) then search_header key else ret key) ;;
  let key := rstrip0 key in
  if len key =? 0 then raise (ValueError "Decrypted key is empty")
  else ret key.

(** Lines 113-223: from the key box as stored to the RC4 key. *)
Definition key_unlock (encrypted_key : bytes) : M bytes :=
  (* Decrypt key with XOR and AES *)
  let encrypted_key := xor_mask KEY_XOR_KEY encrypted_key in
  decrypted_key <- decrypt_key encrypted_key ;;
  extract_key decrypted_key.

(** *** Metadata box (lines 233-284) *)

(** Lines 240-248 *)
Definition b64decode_meta (encrypted_meta : bytes) : M bytes :=
  try_except
    (lift (Base64.b64decode encrypted_meta))
    (fun _ =>
       let padding_needed := len encrypted_meta mod 4 in
       let encrypted_meta :=
         if negb (padding_needed =? 0)
         then encrypted_meta ++ replicate (4 - padding_needed) "="%byte
         else encrypted_meta in
       lift (Base64.b64decode encrypted_meta)).

(** Lines 254-262 *)
Definition aes_decrypt_meta (encrypted_meta : bytes) : M bytes :=
  let padding_length := 16 - len encrypted_meta mod 16 in
  let encrypted_meta :=
    if negb (padding_length =? 16)
    then encrypted_meta ++ replicate padding_length (byte_of_N padding_length)
    else encrypted_meta in
  cipher <- aes_new AES_KEY ;;
  aes_decrypt cipher encrypted_meta.

(** Lines 269-282: [unpad], and on its [ValueError] the cut at the last
    closing brace. *)
Definition remove_padding (meta : bytes) : M bytes :=
  match Padding.unpad meta AES.block_size with
  | inr meta => ret meta
  | inl (ValueError msg) =>
      meta_str <- lift (PyStr.decode_utf8 true meta) ;;
      match PyStr.rfind meta_str 125 with
      | Some json_end =>
          let meta_str := PyStr.take (json_end + 1) meta_str in
          lift (PyStr.encode_utf8 meta_str)
      | None => raise (ValueError msg)
      end
  | inl e => raise e
  end.

(** Line 284: [json.loads(meta.decode('utf-8'))] *)
Definition parse_meta (meta : bytes) : M Json.value :=
  text <- lift (PyStr.decode_utf8 false meta) ;;
  lift (Json.loads text).

(** Lines 233-282: the metadata plaintext. *)
Definition meta_plaintext (encrypted_meta : bytes) : M bytes :=
  let encrypted_meta := xor_mask META_XOR_KEY encrypted_meta in
  encrypted_meta <- b64decode_meta encrypted_meta ;;
  meta <- aes_decrypt_meta encrypted_meta ;;
  remove_padding meta.

Definition decrypt_meta (encrypted_meta : bytes) : M Json.value :=
  meta <- meta_plaintext encrypted_meta ;;
  parse_meta meta.

(** *** Audio (lines 296-330) *)

(** Lines 311-326, which run only with [debug]: they look at the start of
    the decrypted audio and may replace it by its tail. *)
Definition debug_inspect (decrypted_audio : bytes) : bytes :=
  if startswith decrypted_audio (b_ "ID3") then decrypted_audio
  else if startswith decrypted_audio (b_ "fLaC") then decrypted_audio
  else if bytes_eqb (take 4 decrypted_audio) [xff; xfb]
          || bytes_eqb (take 3 decrypted_audio) [xff; xf3]
          || bytes_eqb (take 3 decrypted_audio) [xff; xf2]
  then decrypted_audio
  else
    match find decrypted_audio [xff; xe3] with
    | Some mp3_header_pos =>
        if mp3_header_pos <? 1024 then drop mp3_header_pos decrypted_audio
        else decrypted_audio
    | None => decrypted_audio
    end.

Definition decrypt_audio (key audio_data : bytes) (debug : bool) : M bytes :=
  cipher <- arc4_new key ;;
  decrypted_audio <- arc4_decrypt cipher audio_data ;;
  ret (if debug then debug_inspect decrypted_audio else decrypted_audio).

(** *** The whole function *)

(** The body of the outer [try] (lines 96-332), on the bytes read from the
    file. *)
Definition decrypt_ncm_body (data : bytes) (debug : bool) : M (bytes * Json.value) :=
  (* Check magic header *)
  if negb (startswith data MAGIC_HEADER)
  then raise (ValueError "Not a valid NCM file")
  else
    let offset := len MAGIC_HEADER in
    (* Read key length *)
    key_len <- read_u32 data offset (offset + 4) ;;
    let offset := offset + 4 in
    (* Read encrypted key *)
    let encrypted_key := slice data offset (offset + key_len) in
    let offset := offset + key_len in
    key <- key_unlock encrypted_key ;;
    (* Read metadata length *)
    meta_len <- read_u32 data offset (offset + 4) ;;
    let offset := offset + 4 in
    (* Read encrypted metadata *)
    let encrypted_meta := slice data offset (offset + meta_len) in
    let offset := offset + meta_len in
    meta <- decrypt_meta encrypted_meta ;;
    (* Skip CRC32 *)
    let offset := offset + 4 in
    (* Skip album cover *)
    image_size <- read_u32 data (offset + 5) (offset + 9) ;;
    let offset := offset + 9 + image_size in
    (* Decrypt audio data with RC4 *)
    let audio_data := drop offset data in
    decrypted_audio <- decrypt_audio key audio_data debug ;;
    ret (decrypted_audio, meta).

(** What [decrypt_ncm] raises: line 335 turns every exception of the body
    into [Exception(f"Failed to decrypt NCM file: {str(e)}")]; the
    exception it was made from is kept here in place of the text. *)
Inductive decrypt_error : Type :=
| Failed_to_decrypt_NCM_file (e : py_exception).

(** [decrypt_ncm(ncm_file_path, debug)], on the content of the file: the
    cipher operations performed, and the outcome. *)
Definition decrypt_ncm (data : bytes) (debug : bool)
  : list cipher_op * (decrypt_error + bytes * Json.value) :=
  match decrypt_ncm_body data debug with
  | (ops, inr r) => (ops, inr r)
  | (ops, inl e) => (ops, inl (Failed_to_decrypt_NCM_file e))
  end.

(* ===================================================================== *)
(** ** Sample containers *)
(* ===================================================================== *)

(** An encoder for the container layout the decoder reads, used to build
    the concrete inputs of the examples.  The program itself has no
    encoder. *)
Module Sample.

Definition the_cipher : AES.cipher :=
  {| AES.round_keys := AES.expand_key (map Byte.to_N AES_KEY) |}.

Definition ecb_encrypt (plain : bytes) : bytes :=
  match AES.encrypt the_cipher plain with
  | inr c => c
  | inl _ => []
  end.

(** A key box: [plain] ECB-encrypted (it must be block aligned), then
    XOR-masked with the key mask. *)
Definition key_box (plain : bytes) : bytes :=
  xor_mask KEY_XOR_KEY (ecb_encrypt plain).

(** A metadata box: [plain] padded, ECB-encrypted, base64-encoded, then
    XOR-masked with the metadata mask. *)
Definition meta_box (plain : bytes) : bytes :=
  xor_mask META_XOR_KEY (Base64.b64encode (ecb_encrypt (Padding.pad plain 16))).

Definition rc4 (key data : bytes) : bytes :=
  match ARC4.new key with
  | inr c => ARC4.encrypt c data
  | inl _ => []
  end.

(** JSON text written with ['] in place of the double quote. *)
Definition json_text (s : string) : bytes :=
  map (fun b => if Byte.eqb b "'"%byte then byte_of_N 34 else b) (b_ s).

(** The container with the given boxes, a declared cover length, and the
    bytes that follow the cover length field. *)
Definition container (kbox mbox : bytes) (image_size : N) (tail : bytes) : bytes :=
  MAGIC_HEADER
  ++ Struct.pack_u32_le (len kbox) ++ kbox
  ++ Struct.pack_u32_le (len mbox) ++ mbox
  ++ [x00; x00; x00; x00]
  ++ [x00; x00; x00; x00; x00]
  ++ Struct.pack_u32_le image_size
  ++ tail.

End Sample.

(* ===================================================================== *)
(** ** Key Unlock as the specification words it (section 4.2) *)
(* ===================================================================== *)

(** These definitions follow the sentences of the specification, not the
    code; they are what the code is compared with. *)
Module KeyUnlockSpec.

(** Step 2: the bytes missing to the next 16-byte boundary. *)
Definition pad_length (data : bytes) : N := (16 - len data mod 16) mod 16.

(** (a) standard block-cipher padding: the pad length as byte value,
    repeated up to the boundary. *)
Definition standard_padding (data : bytes) : bytes :=
  data ++ replicate (pad_length data) (byte_of_N (pad_length data)).

(** (b) zero-padding to the boundary. *)
Definition zero_padding (data : bytes) : bytes :=
  data ++ replicate (pad_length data) x00.

(** (c) no padding. *)
Definition no_padding (data : bytes) : bytes := data.

(** The candidates, in the order in which they are tried. *)
Definition candidates (data : bytes) : list bytes :=
  [standard_padding data; zero_padding data; no_padding data].

(** The ECB decryption of a candidate, valid only for aligned data. *)
Definition ecb_decrypt (candidate : bytes) : option bytes :=
  match AES.decrypt Sample.the_cipher candidate with
  | inr plain => Some plain
  | inl _ => None
  end.

(** Acceptance as the sentence has it: the output contains the marker or,
    after stripping leading zero bytes, has length at least 16. *)
Definition accepted_leading (plain : bytes) : bool :=
  contains HEADER plain || (16 <=? len (lstrip0 plain)).

(** Acceptance with zero bytes stripped at both ends. *)
Definition accepted_both_ends (plain : bytes) : bool :=
  contains HEADER plain || (16 <=? len (strip0 plain)).

(** The decryption of the first candidate that is accepted. *)
Fixpoint first_accepted (accepted : bytes -> bool) (cands : list bytes)
  : option bytes :=
  match cands with
  | [] => None
  | c :: rest =>
      match ecb_decrypt c with
      | Some plain =>
          if accepted plain then Some plain else first_accepted accepted rest
      | None => first_accepted accepted rest
      end
  end.

(** The candidates that get decrypted on the way, in order. *)
Fixpoint attempted (accepted : bytes -> bool) (cands : list bytes) : list bytes :=
  match cands with
  | [] => []
  | c :: rest =>
      match ecb_decrypt c with
      | Some plain =>
          c :: (if accepted plain then [] else attempted accepted rest)
      | None => attempted accepted rest
      end
  end.

(** Step 3, the fallback searches on a plaintext that does not begin with
    the marker.  Each gives the key when it finds the marker. *)

(** (i) the marker at any offset of the plaintext. *)
Definition marker_at_any_offset (plain : bytes) : option bytes :=
  match find plain HEADER with
  | Some i => Some (drop (i + len HEADER) plain)
  | None => None
  end.

(** (ii) the marker's text in the plaintext read as one character per
    byte. *)
Definition marker_in_text (plain : bytes) : option bytes :=
  match PyStr.find (PyStr.decode_latin1 plain) HEADER_text with
  | Some i => Some (drop (i + len HEADER) plain)
  | None => None
  end.

(** (iii) the marker followed by one zero terminator byte. *)
Definition marker_zero_terminated (plain : bytes) : option bytes :=
  match find plain (HEADER ++ [x00]) with
  | Some i => Some (drop (i + len (HEADER ++ [x00])) plain)
  | None => None
  end.

(** (iv) the marker preceded by [k] zero bytes, for the first [k] among
    those given for which it occurs. *)
Fixpoint marker_zero_padded (ks : list N) (plain : bytes) : option bytes :=
  match ks with
  | [] => None
  | k :: rest =>
      match find plain (replicate k x00 ++ HEADER) with
      | Some i => Some (drop (i + len (replicate k x00 ++ HEADER)) plain)
      | None => marker_zero_padded rest plain
      end
  end.

(** (v) the whole plaintext, if it has at least 16 bytes. *)
Definition verbatim (plain : bytes) : option bytes :=
  if 16 <=? len plain then Some plain else None.

(** The first of a list of searches that succeeds. *)
Fixpoint first_success (searches : list (bytes -> option bytes)) (plain : bytes)
  : option bytes :=
  match searches with
  | [] => None
  | s :: rest =>
      match s plain with
      | Some key => Some key
      | None => first_success rest plain
      end
  end.

Definition fallback_searches : list (bytes -> option bytes) :=
  [marker_at_any_offset; marker_in_text; marker_zero_terminated;
   marker_zero_padded [0; 1; 2; 3; 4; 5; 6; 7]; verbatim].


End KeyUnlockSpec.

(* ===================================================================== *)
(** ** The failure kinds of the specification (section 7) *)
(* ===================================================================== *)

Module ErrorTaxonomy.

Inductive DecodeError : Type :=
| NotAContainer
| TruncatedInput
| InvalidKeyHeader
| EmptyKey
| MetadataDecodeError
| MetadataParseError
| StreamCipherError.

Definition is_one_of (msg : string) (msgs : list string) : bool :=
  existsb (String.eqb msg) msgs.

(** The kind an exception of the decoder's body stands for: the magic
    check, a length field that cannot be read, the two key checks, the
    base64 and padding steps of the metadata, its text and JSON steps, and
    the RC4 key check.  Any other exception has no kind. *)
Definition kind_of (e : py_exception) : option DecodeError :=
  match e with
  | ValueError msg =>
      if String.eqb msg "Not a valid NCM file" then Some NotAContainer
      else if String.eqb msg
                "Invalid key header. Expected 'neteasecloudmusic' at start of decrypted key."
      then Some InvalidKeyHeader
      else if String.eqb msg "Decrypted key is empty" then Some EmptyKey
      else if is_one_of msg ["Zero-length input cannot be unpadded"%string;
                             "Input data is not padded"%string;
                             "Padding is incorrect."%string;
                             "PKCS#7 padding is incorrect."%string]
      then Some MetadataDecodeError
      else if String.eqb msg "Incorrect ARC4 key length" then Some StreamCipherError
      else None
  | struct_error _ => Some TruncatedInput
  | binascii_Error _ => Some MetadataDecodeError
  | UnicodeDecodeError => Some MetadataParseError
  | JSONDecodeError _ => Some MetadataParseError
  | RecursionError => Some MetadataParseError
  | UnicodeEncodeError => None
  end.

Definition parse_failure (e : py_exception) : Prop :=
  kind_of e = Some MetadataParseError.


End ErrorTaxonomy.

(* ===================================================================== *)
(** ** Testable properties as the specification words them (section 8) *)
(* ===================================================================== *)

Module TestableProperties.

(** In a run of the decoder on [data] that succeeds, re-encrypting the
    returned audio with a fresh RC4 cipher made from the key the run used
    gives back the audio region of the container: the bytes after the
    cover image, where the layout of section 6 puts them. *)
Definition audio_round_trips (data : bytes) (debug : bool) : Prop :=
  forall ops audio meta,
    decrypt_ncm data debug = (ops, inr (audio, meta)) ->
    exists key cipher N1 N2 N3,
      Struct.unpack_u32_le (slice data 8 12) = inr N1 /\
      Struct.unpack_u32_le (slice data (12 + N1) (16 + N1)) = inr N2 /\
      Struct.unpack_u32_le (slice data (25 + N1 + N2) (29 + N1 + N2)) = inr N3 /\
      In (ARC4_new key) ops /\
      ARC4.new key = inr cipher /\
      ARC4.encrypt cipher audio = drop (29 + N1 + N2 + N3) data.

End TestableProperties.

(* ===================================================================== *)
(** ** Concrete inputs *)
(* ===================================================================== *)

Module Inputs.

(** XOR-unmasked key bytes, 15 of them: with the byte 0x01 appended they
    decrypt to "Abcdefghijklmno" followed by one zero byte. *)
Definition unaligned_key : bytes :=
  map byte_of_N [122; 159; 219; 33; 62; 77; 234; 74; 199; 145; 108; 196; 1; 166; 226].

(** The synthetic key box of the specification: the marker followed by
    "ABCDEFGHIJKLMNOP", padded to a multiple of 16 bytes (with the pad
    length as pad byte, or with zero bytes), ECB-encrypted under the fixed
    key, then XOR-masked with the key mask. *)
Definition synthetic_key_box : bytes :=
  Sample.key_box (Padding.pad (HEADER ++ b_ "ABCDEFGHIJKLMNOP") 16).

Definition synthetic_key_box_zero_padded : bytes :=
  Sample.key_box (HEADER ++ b_ "ABCDEFGHIJKLMNOP" ++ replicate 15 x00).

(** A key box in which three bytes precede the marker; the decoder takes
    "ABCDEFGHIJKLMNOP" as key from it. *)
Definition shifted_key_box : bytes :=
  Sample.key_box (b_ "xxx" ++ HEADER ++ b_ "ABCDEFGHIJKLMNOP" ++ replicate 12 x00).


(** A metadata box with the fields of the specification's example. *)
Definition plain_meta_box : bytes :=
  Sample.meta_box (Sample.json_text "{'musicName':'T','artist':[{'name':'A'}],'album':'B'}").

(** A container with the synthetic key box. *)
Definition synthetic_container : bytes :=
  Sample.container synthetic_key_box plain_meta_box 0
    (Sample.rc4 (b_ "ABCDEFGHIJKLMNOP") (b_ "ID3 audio")).

(** A container that declares a cover image of 40 bytes and ends 3 bytes
    after the cover length field. *)
Definition short_cover_container : bytes :=
  Sample.container shifted_key_box plain_meta_box 40 (b_ "img").


(** A container whose audio has the bytes ff e3 at offset 2 and none of
    the prefixes the debug code knows. *)
Definition debug_container : bytes :=
  Sample.container shifted_key_box plain_meta_box 0
    (Sample.rc4 (b_ "ABCDEFGHIJKLMNOP") (b_ "xx" ++ [xff; xe3] ++ b_ "frame")).

End Inputs.

(* ===================================================================== *)
(** ** Cipher calls as the libraries want them *)
(* ===================================================================== *)

(** What can be said of every cipher call the decoder makes: the block
    cipher is created with the fixed key and is given whole blocks; the
    stream cipher is created with a key that is not empty and does not
    end with a zero byte. *)
Definition expected_call (op : cipher_op) : Prop :=
  match op with
  | AES_new key => key = AES_KEY
  | AES_decrypt data => len data mod 16 = 0
  | ARC4_new key => key <> [] /\ rstrip0 key = key
  | ARC4_decrypt _ => True
  end.

(* ===================================================================== *)
(** ** More concrete inputs *)
(* ===================================================================== *)

Module MoreInputs.

(** A container up to the end of its metadata box. *)
Definition head (kbox mbox : bytes) : bytes :=
  MAGIC_HEADER
  ++ Struct.pack_u32_le (len kbox) ++ kbox
  ++ Struct.pack_u32_le (len mbox) ++ mbox.

(** A key box whose plaintext is the marker followed by 255 letters. *)
Definition long_key_box : bytes :=
  Sample.key_box (HEADER ++ replicate 255 "A"%byte).

Definition long_key_container : bytes :=
  Sample.container long_key_box Inputs.plain_meta_box 0 (b_ "audio").

End MoreInputs.

(* ===================================================================== *)
(** ** Python [str] operations of the command-line layer *)
(* ===================================================================== *)

Module Text.

Import PyStr.

Definition s_ (s : string) : str := of_string s.

(** [a == b] *)
Fixpoint eqb (a b : str) : bool :=
  match a, b with
  | [], [] => true
  | x :: a', y :: b' => (x =? y) && eqb a' b'
  | _, _ => false
  end.

(** [s[n:]] *)
Fixpoint drop (n : N) (s : str) : str :=
  match s with
  | [] => []
  | x :: t => if n =? 0 then s else drop (N.pred n) t
  end.

(** [s.endswith(suffix)] *)
Definition endswith (s suffix : str) : bool :=
  startswith (rev s) (rev suffix).

(** [s.rstrip(c)] for a single character [c]. *)
Fixpoint lstrip_char (s : str) (c : N) : str :=
  match s with
  | x :: t => if x =? c then lstrip_char t c else s
  | [] => []
  end.

Definition rstrip_char (s : str) (c : N) : str := rev (lstrip_char (rev s) c).

(** [sep.join(items)] for strings. *)
Fixpoint join (sep : str) (items : list str) : str :=
  match items with
  | [] => []
  | [x] => x
  | x :: rest => x ++ sep ++ join sep rest
  end.

End Text.

(* ===================================================================== *)
(** ** os.path (posixpath.py, genericpath.py) *)
(* ===================================================================== *)

(** The functions of [os.path] that compute on the text of a path, as
    [posixpath] defines them; on Windows [os.path] is another module. *)
Module Posixpath.

Import PyStr Text.

Definition sep : N := 47.
Definition extsep : N := 46.

(** [p.rfind(c)], which is -1 when [c] does not occur. *)
Definition rfind_index (p : str) (c : N) : Z :=
  match rfind p c with
  | Some i => Z.of_N i
  | None => (-1)%Z
  end.

Definition basename (p : str) : str :=
  let i := (rfind_index p sep + 1)%Z in
  drop (Z.to_N i) p.

Definition dirname (p : str) : str :=
  let i := (rfind_index p sep + 1)%Z in
  let head := take (Z.to_N i) p in
  if negb (eqb head []) && negb (eqb head (repeat sep (List.length head)))
  then rstrip_char head sep
  else head.

(** The loop of [genericpath._splitext] that skips leading dots: the
    indices from [sepIndex + 1] up to [dotIndex], in order. *)
Fixpoint skip_leading_dots (p : str) (dotIndex : N) (filenameIndices : list N)
  : str * str :=
  match filenameIndices with
  | [] => (p, [])
  | filenameIndex :: rest =>
      if negb (eqb (take 1 (drop filenameIndex p)) [extsep])
      then (take dotIndex p, drop dotIndex p)
      else skip_leading_dots p dotIndex rest
  end.

Definition splitext (p : str) : str * str :=
  let sepIndex := rfind_index p sep in
  let dotIndex := rfind_index p extsep in
  if (sepIndex <? dotIndex)%Z
  then
    let filenameIndex := Z.to_N (sepIndex + 1) in
    skip_leading_dots p (Z.to_N dotIndex)
      (map (fun k => filenameIndex + N.of_nat k)
           (seq 0 (N.to_nat (Z.to_N dotIndex - filenameIndex))))
  else (p, []).

(** [os.path.join(a, b)] *)
Definition join (a b : str) : str :=
  if startswith b [sep] then b
  else if eqb a [] || endswith a [sep] then a ++ b
  else a ++ [sep] ++ b.

End Posixpath.

(* ===================================================================== *)
(** ** The command-line layer: calls, exceptions, programs *)
(* ===================================================================== *)

(** The functions around [decrypt_ncm] talk to the file system, to the
    terminal and to mutagen.  They are embedded as trees of calls: a tree
    either returns, or makes a call and continues with the answer.  A run
    of a tree is one choice of answers; a statement about every run holds
    whatever the file system, the user and the libraries do.

    Assumed of the libraries: [os.path.isfile], [os.path.isdir] and
    [os.path.exists] return a boolean and do not raise (genericpath.py
    catches [OSError] and [ValueError]); [os.walk] is taken as the list of
    the triples it yields; [print] returns; every other call may raise
    any exception.  What [decrypt_ncm] prints is not recorded. *)
Module IO.

Import PyStr.

(** An exception raised by a call: what matters of it to the handlers of
    this program is its class. *)
Inductive exception_class : Type :=
| Not_an_Exception        (* KeyboardInterrupt, SystemExit, GeneratorExit *)
| Mutagen_id3_error       (* mutagen.id3.error, an Exception *)
| Other_Exception.        (* OSError, EOFError, ... *)

Inductive external : Type :=
| Raised (cls : exception_class) (text : str).

(** The exceptions that reach the handlers of the command-line layer. *)
Inductive exn : Type :=
| External (x : external)
| Library (e : py_exception)          (* raised by base64.b64decode *)
| Failed_to_decrypt (e : decrypt_error)
| Failed_to_read (e : exn)            (* line 335, for an error of the file *)
| TypeError (msg : string)
| KeyError (key : str)
| SystemExit (code : Z).

(** [isinstance(e, Exception)]: line 335 makes an [Exception] of whatever
    [Exception] the body of [decrypt_ncm] raised. *)
Definition isinstance_Exception (e : exn) : bool :=
  match e with
  | External (Raised Not_an_Exception _) => false
  | External (Raised _ _) => true
  | Library _ => true
  | Failed_to_decrypt _ => true
  | Failed_to_read _ => true
  | TypeError _ => true
  | KeyError _ => true
  | SystemExit _ => false
  end.

Definition isinstance_mutagen_id3_error (e : exn) : bool :=
  match e with
  | External (Raised Mutagen_id3_error _) => true
  | _ => false
  end.

(** What is printed, or shown as a prompt. *)
Inductive message : Type :=
| Banner
| Overwrite_prompt (mp3_file_path : str)
| Skipping_file
| Processing (file_name : str)
| Decrypting_NCM_file
| Done
| Adding_metadata
| Error_processing (ncm_file_path : str) (e : exn)
| Warning_failed_to_add_metadata (e : exn)
| No_NCM_files_found (input : str)
| Failed_to_create_output_directory (e : exn)
| Found_files (count : N)
| File_of (i count : N)
| Bar
| Conversion_complete
| Success (success_count : N)
| Errors (error_count : N)
| Total (count : N).

Inductive file_mode : Type := rb | wb.

(** The ID3 frames [add_metadata] builds, all with [encoding=3]; [TDRC]
    takes [str(meta['year'])], kept here as the value [str] is applied
    to; [APIC] has mime 'image/jpeg', type 3 and desc 'Cover'. *)
Inductive frame : Type :=
| TIT2 (text : Json.value)
| TPE1 (text : str)
| TALB (text : Json.value)
| TCON (text : Json.value)
| TDRC (str_of : Json.value)
| APIC (data : bytes).

(** A file object is named by the path it was opened on; the [MP3] object
    by the path it was loaded from. *)
Inductive call : Type :=
| os_path_isfile (p : str)
| os_path_isdir (p : str)
| os_path_exists (p : str)
| os_walk (top : str)
| open_ (p : str) (mode : file_mode)
| file_read (p : str) (size : option N)
| file_write (p : str) (data : bytes)
| file_close (p : str)
| NamedTemporaryFile (suffix : str)
| os_remove (p : str)
| os_makedirs (p : str)
| input (prompt : message)
| print (text : message)
| MP3 (p : str)
| add_tags (p : str)
| tags_add (p : str) (f : frame)
| save (p : str).

Definition answer (c : call) : Type :=
  match c with
  | os_path_isfile _ | os_path_isdir _ | os_path_exists _ => bool
  | os_walk _ => list (str * list str * list str)
  | file_read _ _ => external + bytes
  | NamedTemporaryFile _ => external + str
  | input _ => external + str
  | print _ => unit
  | open_ _ _ | file_write _ _ | file_close _ | os_remove _ | os_makedirs _
  | MP3 _ | add_tags _ | tags_add _ _ | save _ => external + unit
  end.

Inductive prog (A : Type) : Type :=
| Ret (a : A)
| Call (c : call) (k : answer c -> prog A).

Arguments Ret {A} a.
Arguments Call {A} c k.

Fixpoint bind {A B : Type} (t : prog A) (f : A -> prog B) : prog B :=
  match t with
  | Ret a => f a
  | Call c k => Call c (fun x => bind (k x) f)
  end.

Definition call_ (c : call) : prog (answer c) := Call c Ret.

(** One call and its answer. *)
Inductive event : Type :=
| Ev (c : call) (x : answer c).

(** [runs t tr a]: the tree [t] can make the calls of [tr], get the
    answers of [tr] and then return [a]. *)
Fixpoint runs {A : Type} (t : prog A) (tr : list event) (a : A) : Prop :=
  match t with
  | Ret a' => tr = [] /\ a = a'
  | Call c k => exists x tr', tr = Ev c x :: tr' /\ runs (k x) tr' a
  end.

(** The run in which the calls are answered by [os]; the answers may
    depend on the calls made before. *)
Fixpoint run {A : Type} (os : list event -> forall c, answer c) (past : list event)
    (t : prog A) : list event * A :=
  match t with
  | Ret a => ([], a)
  | Call c k =>
      let x := os past c in
      let (tr, a) := run os (past ++ [Ev c x]) (k x) in
      (Ev c x :: tr, a)
  end.

Definition call_of (e : event) : call :=
  match e with Ev c _ => c end.

(** *** Properties of every run *)

(** [returns P t]: whatever the answers, [t] returns a value in [P]. *)
Fixpoint returns {A : Type} (P : A -> Prop) (t : prog A) : Prop :=
  match t with
  | Ret a => P a
  | Call c k => forall x, returns P (k x)
  end.

(** [calls Q t]: whatever the answers, [t] makes calls in [Q] only. *)
Fixpoint calls {A : Type} (Q : call -> Prop) (t : prog A) : Prop :=
  match t with
  | Ret _ => True
  | Call c k => Q c /\ forall x, calls Q (k x)
  end.

(** [always Q past t]: whatever the answers, every call [t] makes is
    in [Q] of the calls and answers before it, [past] being those before
    [t] began. *)
Fixpoint always {A : Type} (Q : list event -> call -> Prop) (past : list event)
    (t : prog A) : Prop :=
  match t with
  | Ret _ => True
  | Call c k => Q past c /\ forall x, always Q (past ++ [Ev c x]) (k x)
  end.

(** *** Statements that may raise *)

Definition IO (A : Type) : Type := prog (exn + A).

Definition ret {A : Type} (a : A) : IO A := Ret (inr a).

Definition raise {A : Type} (e : exn) : IO A := Ret (inl e).

Definition bindE {A B : Type} (m : IO A) (f : A -> IO B) : IO B :=
  bind m (fun r => match r with inl e => Ret (inl e) | inr a => f a end).

(** A call that does not raise. *)
Definition quiet_call (c : call) : IO (answer c) := bind (call_ c) ret.

Definition lift {A : Type} (t : prog A) : IO A := bind t ret.

Definition of_answer {A : Type} (r : external + A) : IO A :=
  match r with
  | inl x => raise (External x)
  | inr a => ret a
  end.

(** An exception other than [SystemExit]. *)
Definition not_exit (e : exn) : Prop :=
  forall code, e <> SystemExit code.

Definition no_exit {A : Type} (r : exn + A) : Prop :=
  match r with
  | inl e => not_exit e
  | inr _ => True
  end.

(** [try: m  except Exception as e: h e] *)
Definition try_except_Exception {A : Type} (m : IO A) (h : exn -> IO A) : IO A :=
  bind m (fun r =>
    match r with
    | inl e => if isinstance_Exception e then h e else Ret (inl e)
    | inr a => Ret (inr a)
    end).

(** [try: m  except: h], which catches everything. *)
Definition try_except_all {A : Type} (m : IO A) (h : prog A) : prog A :=
  bind m (fun r => match r with inl _ => h | inr a => Ret a end).

(** [try: m  finally: f]: [f] runs whatever [m] did; what [f] raises
    replaces the outcome of [m], also when [m] ended in a [return]. *)
Definition try_finally {A : Type} (m : IO A) (f : IO unit) : IO A :=
  bind m (fun r =>
    bind f (fun done =>
      match done with
      | inl e => Ret (inl e)
      | inr _ => Ret r
      end)).

(** [if not quiet: m] *)
Definition unless (quiet : bool) (m : IO unit) : IO unit :=
  if quiet then ret tt else m.

Fixpoint for_ {A S : Type} (items : list A) (body : A -> S -> prog S) (s : S) : prog S :=
  match items with
  | [] => Ret s
  | x :: rest => bind (body x s) (for_ rest body)
  end.

Fixpoint forE {A S : Type} (items : list A) (body : A -> S -> IO S) (s : S) : IO S :=
  match items with
  | [] => ret s
  | x :: rest => bindE (body x s) (forE rest body)
  end.

(** [enumerate(items, start)] *)
Fixpoint enumerate {A : Type} (items : list A) (start : N) : list (N * A) :=
  match items with
  | [] => []
  | x :: rest => (start, x) :: enumerate rest (N.succ start)
  end.

End IO.

Declare Scope io_scope.
Delimit Scope io_scope with io.

Notation "x <~ m ;; k" := (IO.bindE m (fun x => k))
  (at level 61, m at next level, right associativity) : io_scope.
Notation "' pat <~ m ;; k" := (IO.bindE m (fun pat => k))
  (at level 61, pat pattern, m at next level, right associativity) : io_scope.

(* ===================================================================== *)
(** ** Python values at run time: [in], subscripts, iteration *)
(* ===================================================================== *)

(** What the metadata is after [json.loads] is any JSON value; the
    operators [add_metadata] applies to it are defined for every value,
    and raise for some.  The texts of the exceptions are those of
    CPython 3.11. *)
Module PyValue.

Import PyStr Text IO.

Definition type_name (v : Json.value) : string :=
  match v with
  | Json.Null => "NoneType"
  | Json.Bool _ => "bool"
  | Json.Int _ => "int"
  | Json.Float _ => "float"
  | Json.Str _ => "str"
  | Json.Arr _ => "list"
  | Json.Obj _ => "dict"
  end.

Definition is_str (v : Json.value) (s : str) : bool :=
  match v with
  | Json.Str t => eqb t s
  | _ => false
  end.

Definition is_some {A : Type} (o : option A) : bool :=
  match o with Some _ => true | None => false end.

(** [key in v] for a string [key]. *)
Definition contains (key : str) (v : Json.value) : exn + bool :=
  match v with
  | Json.Obj d => inr (is_some (Json.lookup key d))
  | Json.Arr items => inr (existsb (fun x => is_str x key) items)
  | Json.Str s => inr (is_some (PyStr.find s key))
  | _ => inl (TypeError ("argument of type '" ++ type_name v ++ "' is not iterable"))
  end.

(** [v[key]] for a string [key]. *)
Definition getitem (v : Json.value) (key : str) : exn + Json.value :=
  match v with
  | Json.Obj d =>
      match Json.lookup key d with
      | Some x => inr x
      | None => inl (KeyError key)
      end
  | Json.Arr _ => inl (TypeError "list indices must be integers or slices, not str")
  | Json.Str _ => inl (TypeError "string indices must be integers, not 'str'")
  | _ => inl (TypeError ("'" ++ type_name v ++ "' object is not subscriptable"))
  end.

(** The values [for x in v] goes through. *)
Definition iterate (v : Json.value) : exn + list Json.value :=
  match v with
  | Json.Arr items => inr items
  | Json.Obj d => inr (map (fun kv => Json.Str (fst kv)) d)
  | Json.Str s => inr (map (fun c => Json.Str [c]) s)
  | _ => inl (TypeError ("'" ++ type_name v ++ "' object is not iterable"))
  end.

(** [[x[key] for x in items]] *)
Fixpoint getitem_each (items : list Json.value) (key : str) : exn + list Json.value :=
  match items with
  | [] => inr []
  | x :: rest =>
      match getitem x key with
      | inl e => inl e
      | inr v =>
          match getitem_each rest key with
          | inl e => inl e
          | inr vs => inr (v :: vs)
          end
      end
  end.

(** [str(n)] for an index [n]. *)
Fixpoint decimal (fuel : nat) (n : N) (acc : string) : string :=
  match fuel with
  | O => acc
  | S fuel' =>
      let acc' := String (ascii_of_N (48 + n mod 10)) acc in
      if n / 10 =? 0 then acc' else decimal fuel' (n / 10) acc'
  end.

Definition str_of_index (n : N) : string := decimal (S (N.size_nat n)) n "".

(** The strings of a list all of whose items are strings; [str.join]
    raises for the first item that is none, [i] being its index. *)
Fixpoint join_items (i : N) (items : list Json.value) : exn + list str :=
  match items with
  | [] => inr []
  | Json.Str s :: rest =>
      match join_items (N.succ i) rest with
      | inr ss => inr (s :: ss)
      | inl e => inl e
      end
  | v :: _ =>
      inl (TypeError ("sequence item " ++ str_of_index i ++ ": expected str instance, "
                      ++ type_name v ++ " found"))
  end.

(** [', '.join(items)] *)
Definition join_comma (items : list Json.value) : exn + str :=
  match join_items 0 items with
  | inr ss => inr (join (s_ ", ") ss)
  | inl e => inl e
  end.

(** [base64.b64decode(v)]: a string is first encoded as ASCII. *)
Definition b64decode (v : Json.value) : exn + bytes :=
  match v with
  | Json.Str s =>
      if forallb (fun c => c <? 128) s
      then match Base64.b64decode (map byte_of_N s) with
           | inr data => inr data
           | inl e => inl (Library e)
           end
      else inl (Library (ValueError "string argument should contain only ASCII characters"))
  | _ => inl (TypeError ("argument should be a bytes-like object or ASCII string, not '"
                         ++ type_name v ++ "'"))
  end.

End PyValue.

(* ===================================================================== *)
(** ** The functions of the command-line layer (lines 65-91, 337-518) *)
(* ===================================================================== *)

Section CommandLine.

Import PyStr Text IO.
Local Open Scope io_scope.

(** [str.lower], which the program applies to a path and to the answer
    of the user. *)
Variable lower : str -> str.

(** [with open(p, mode) as f: body]: the file is closed when the body is
    left, however it is left. *)
Definition with_open {A : Type} (p : str) (mode : file_mode) (body : IO A) : IO A :=
  _ <~ bind (call_ (open_ p mode)) of_answer ;;
  try_finally body (bind (call_ (file_close p)) of_answer).

(** Lines 65-75. *)
Definition is_ncm_file (file_path : str) : prog bool :=
  bind (call_ (os_path_isfile file_path)) (fun isfile =>
  if negb isfile || negb (endswith (lower file_path) (s_ ".ncm"))
  then Ret false
  else
    try_except_all
      (with_open file_path rb
         (header <~ bind (call_ (file_read file_path (Some (len MAGIC_HEADER)))) of_answer ;;
          ret (bytes_eqb header MAGIC_HEADER)))
      (Ret false)).

(** Lines 84-89: the loop over the files of one directory. *)
Definition collect_ncm_files (root : str) (files : list str) (ncm_files : list str)
  : prog (list str) :=
  for_ files
    (fun file ncm_files =>
       let file_path := Posixpath.join root file in
       bind (is_ncm_file file_path) (fun ok =>
       Ret (if ok then ncm_files ++ [file_path] else ncm_files)))
    ncm_files.

(** Lines 77-91. *)
Definition get_ncm_files (input_path : str) : prog (list str) :=
  let ncm_files := [] in
  bind (call_ (os_path_isfile input_path)) (fun isfile =>
  if isfile
  then
    bind (is_ncm_file input_path) (fun ok =>
    Ret (if ok then ncm_files ++ [input_path] else ncm_files))
  else
    bind (call_ (os_path_isdir input_path)) (fun isdir =>
    if isdir
    then
      bind (call_ (os_walk input_path)) (fun walk =>
      for_ walk
        (fun '(root, _, files) ncm_files => collect_ncm_files root files ncm_files)
        ncm_files)
    else Ret ncm_files)).

(** [decrypt_ncm(ncm_file_path, debug)] with the reading of the file,
    lines 95-97 and 334-335: an [Exception] of [open], [read] or of the
    closing of the file is turned into the exception of line 335 as one of
    the decoder is. *)
Definition decrypt_ncm_file (ncm_file_path : str) (debug : bool)
  : IO (bytes * Json.value) :=
  bind (with_open ncm_file_path rb
          (bind (call_ (file_read ncm_file_path None)) of_answer))
    (fun r =>
       match r with
       | inr data =>
           match snd (decrypt_ncm data debug) with
           | inr result => ret result
           | inl e => raise (Failed_to_decrypt e)
           end
       | inl e =>
           if isinstance_Exception e then raise (Failed_to_read e) else raise e
       end).

(** Lines 337-343. *)
Definition write_temp_audio (audio_data : bytes) : IO str :=
  temp_file <~ bind (call_ (NamedTemporaryFile (s_ ".mp3"))) of_answer ;;
  _ <~ bind (call_ (file_write temp_file audio_data)) of_answer ;;
  _ <~ bind (call_ (file_close temp_file)) of_answer ;;
  ret temp_file.

(** [if key in meta: audio.tags.add(make(meta[key]))], lines 356-357,
    363-364, 366-367 and 369-370. *)
Definition add_text_frame (mp3_file_path : str) (meta : Json.value) (key : str)
    (make : Json.value -> frame) : IO unit :=
  present <~ Ret (PyValue.contains key meta) ;;
  if present : bool
  then
    text <~ Ret (PyValue.getitem meta key) ;;
    bind (call_ (tags_add mp3_file_path (make text))) of_answer
  else ret tt.

(** Lines 359-361. *)
Definition add_artists (mp3_file_path : str) (meta : Json.value) : IO unit :=
  present <~ Ret (PyValue.contains (s_ "artist") meta) ;;
  if present : bool
  then
    artist_list <~ Ret (PyValue.getitem meta (s_ "artist")) ;;
    items <~ Ret (PyValue.iterate artist_list) ;;
    artists <~ Ret (PyValue.getitem_each items (s_ "name")) ;;
    text <~ Ret (PyValue.join_comma artists) ;;
    bind (call_ (tags_add mp3_file_path (TPE1 text))) of_answer
  else ret tt.

(** Lines 373-384. *)
Definition add_cover (mp3_file_path : str) (meta : Json.value) : IO unit :=
  present <~ Ret (PyValue.contains (s_ "albumPic") meta) ;;
  if present : bool
  then
    lift
      (try_except_all
         (albumPic <~ Ret (PyValue.getitem meta (s_ "albumPic")) ;;
          cover_data <~ Ret (PyValue.b64decode albumPic) ;;
          bind (call_ (tags_add mp3_file_path (APIC cover_data))) of_answer)
         (Ret tt))
  else ret tt.

(** Lines 345-392. *)
Definition add_metadata (mp3_file_path : str) (meta : Json.value) : IO bool :=
  try_except_Exception
    (_ <~ bind (call_ (MP3 mp3_file_path)) of_answer ;;
     (* Add ID3 tags if not present *)
     _ <~ bind (bind (call_ (add_tags mp3_file_path)) of_answer)
            (fun r =>
               match r with
               | inl e => if isinstance_mutagen_id3_error e then ret tt else raise e
               | inr _ => ret tt
               end) ;;
     (* Set basic metadata *)
     _ <~ add_text_frame mp3_file_path meta (s_ "musicName") TIT2 ;;
     _ <~ add_artists mp3_file_path meta ;;
     _ <~ add_text_frame mp3_file_path meta (s_ "album") TALB ;;
     _ <~ add_text_frame mp3_file_path meta (s_ "genre") TCON ;;
     _ <~ add_text_frame mp3_file_path meta (s_ "year") TDRC ;;
     (* Add album cover if available *)
     _ <~ add_cover mp3_file_path meta ;;
     _ <~ bind (call_ (save mp3_file_path)) of_answer ;;
     ret true)
    (fun e =>
       _ <~ quiet_call (print (Warning_failed_to_add_metadata e)) ;;
       ret false).

(** The value of [os.path.exists(p) and os.remove(p)] of line 452:
    [False] when the file is not there, and what [os.remove] returns,
    which is [None], when it is. *)
Inductive exists_and_remove : Type :=
| is_False
| is_None.

(** [os.remove(v)] for such a value: [os.remove] takes a path, which is
    a [str], a [bytes] or an [os.PathLike], and raises [TypeError] for
    anything else, before it touches the file system. *)
Definition os_remove_value (v : exists_and_remove) : IO unit :=
  match v with
  | is_False =>
      raise (TypeError "remove: path should be string, bytes or os.PathLike, not bool")
  | is_None =>
      raise (TypeError "remove: path should be string, bytes or os.PathLike, not NoneType")
  end.

(** Line 452. *)
Definition clean_up (temp_file_path : str) : IO unit :=
  there <~ quiet_call (os_path_exists temp_file_path) ;;
  v <~ (if there : bool
        then _ <~ bind (call_ (os_remove temp_file_path)) of_answer ;; ret is_None
        else ret is_False) ;;
  os_remove_value v.

(** Lines 398-404. *)
Definition mp3_path (ncm_file_path : str) (output_dir : option str) : str :=
  let output_dir :=
    match output_dir with
    | None => Posixpath.dirname ncm_file_path
    | Some d => d
    end in
  let file_name := Posixpath.basename ncm_file_path in
  let mp3_file_name := fst (Posixpath.splitext file_name) ++ s_ ".mp3" in
  Posixpath.join output_dir mp3_file_name.

(** Lines 419-451: what is done once the output may be written. *)
Definition convert_file (ncm_file_path mp3_file_path : str) (quiet debug : bool)
  : IO bool :=
  _ <~ unless quiet (quiet_call (print (Processing (Posixpath.basename ncm_file_path)))) ;;
  (* Decrypt NCM file *)
  _ <~ unless quiet (quiet_call (print Decrypting_NCM_file)) ;;
  '(decrypted_audio, meta) <~ decrypt_ncm_file ncm_file_path debug ;;
  _ <~ unless quiet (quiet_call (print Done)) ;;
  (* Write decrypted audio to temporary file *)
  temp_file_path <~ write_temp_audio decrypted_audio ;;
  try_finally
    ((* Add metadata and save to final location *)
     _ <~ unless quiet (quiet_call (print Adding_metadata)) ;;
     (* Copy temporary file to final location *)
     _ <~ with_open temp_file_path rb
            (with_open mp3_file_path wb
               (data <~ bind (call_ (file_read temp_file_path None)) of_answer ;;
                bind (call_ (file_write mp3_file_path data)) of_answer)) ;;
     (* Add metadata *)
     _ <~ add_metadata mp3_file_path meta ;;
     _ <~ unless quiet (quiet_call (print Done)) ;;
     ret true)
    ((* Clean up temporary file *)
     clean_up temp_file_path).

(** Lines 394-457. *)
Definition convert_ncm_to_mp3 (ncm_file_path : str) (output_dir : option str)
    (force_overwrite quiet debug : bool) : IO bool :=
  try_except_Exception
    ((* Get output file path *)
     let mp3_file_path := mp3_path ncm_file_path output_dir in
     (* Check if output file exists *)
     there <~ quiet_call (os_path_exists mp3_file_path) ;;
     if (there : bool) && negb force_overwrite
     then
       response <~ (if negb quiet
                    then bind (call_ (input (Overwrite_prompt mp3_file_path))) of_answer
                    else ret (s_ "n")) ;;
       if negb (eqb (lower response) (s_ "y"))
       then
         _ <~ unless quiet (quiet_call (print Skipping_file)) ;;
         ret false
       else convert_file ncm_file_path mp3_file_path quiet debug
     else convert_file ncm_file_path mp3_file_path quiet debug)
    (fun e =>
       _ <~ unless quiet (quiet_call (print (Error_processing ncm_file_path e))) ;;
       ret false).

(** The result of [parser.parse_args()]. *)
Record arguments : Type := {
  args_input : str;
  args_output : option str;
  args_quiet : bool;
  args_force : bool;
  args_debug : bool
}.

(** [if args.output]: an output directory was given and is not ''. *)
Definition given (output : option str) : option str :=
  match output with
  | Some [] => None
  | other => other
  end.

(** Lines 502-510. *)
Definition process_files (args : arguments) (ncm_files : list str) : IO (N * N) :=
  forE (enumerate ncm_files 1)
    (fun '(i, ncm_file) '(success_count, error_count) =>
       _ <~ unless (args_quiet args)
              (quiet_call (print (File_of i (N.of_nat (List.length ncm_files))))) ;;
       converted <~ convert_ncm_to_mp3 ncm_file (args_output args) (args_force args)
                      (args_quiet args) (args_debug args) ;;
       if converted : bool
       then ret (success_count + 1, error_count)
       else ret (success_count, error_count + 1))
    (0, 0).

(** Lines 473-518: [main] from the parsed arguments on.  It ends in
    [sys.exit], which raises [SystemExit]. *)
Definition main (args : arguments) : IO unit :=
  (* Print banner if not quiet *)
  _ <~ unless (args_quiet args) (quiet_call (print Banner)) ;;
  (* Get NCM files *)
  ncm_files <~ lift (get_ncm_files (args_input args)) ;;
  match ncm_files with
  | [] =>
      _ <~ quiet_call (print (No_NCM_files_found (args_input args))) ;;
      raise (SystemExit 1)
  | _ :: _ =>
      (* Create output directory if specified *)
      _ <~ match given (args_output args) with
           | Some output =>
               there <~ quiet_call (os_path_exists output) ;;
               if there : bool then ret tt
               else
                 try_except_Exception
                   (bind (call_ (os_makedirs output)) of_answer)
                   (fun e =>
                      _ <~ quiet_call (print (Failed_to_create_output_directory e)) ;;
                      raise (SystemExit 1))
           | None => ret tt
           end ;;
      (* Process files *)
      let count := N.of_nat (List.length ncm_files) in
      _ <~ unless (args_quiet args) (quiet_call (print (Found_files count))) ;;
      '(success_count, error_count) <~ process_files args ncm_files ;;
      (* Summary *)
      _ <~ unless (args_quiet args)
             (_ <~ quiet_call (print Bar) ;;
              _ <~ quiet_call (print Conversion_complete) ;;
              _ <~ quiet_call (print (Success success_count)) ;;
              _ <~ quiet_call (print (Errors error_count)) ;;
              _ <~ quiet_call (print (Total count)) ;;
              quiet_call (print Bar)) ;;
      raise (SystemExit (if error_count =? 0 then 0 else 1))
  end.

End CommandLine.

(* ===================================================================== *)
(** ** A file system to run the command-line layer in *)
(* ===================================================================== *)

(** One way of answering the calls: a file system that holds the files
    [files] and the directory tree [tree], in which every call succeeds,
    with a user who types [reply].  It is used to run the trees on
    concrete inputs. *)
Module World.

Import PyStr Text IO.

Record world : Type := {
  files : list (str * bytes);
  tree : list (str * list str * list str);
  reply : str
}.

(** [str.lower] on the letters A to Z. *)
Definition ascii_lower (s : str) : str :=
  map (fun c => if (65 <=? c) && (c <=? 90) then c + 32 else c) s.

Fixpoint content (fs : list (str * bytes)) (p : str) : option bytes :=
  match fs with
  | [] => None
  | (q, data) :: rest => if eqb q p then Some data else content rest p
  end.

Fixpoint remove (fs : list (str * bytes)) (p : str) : list (str * bytes) :=
  match fs with
  | [] => []
  | (q, data) :: rest => if eqb q p then remove rest p else (q, data) :: remove rest p
  end.

Definition temp_name (suffix : str) : str := s_ "/tmp/tmp0" ++ suffix.

(** The files after a call. *)
Definition after (fs : list (str * bytes)) (e : event) : list (str * bytes) :=
  match e with
  | Ev (open_ p wb) _ => (p, []) :: remove fs p
  | Ev (NamedTemporaryFile suffix) _ => (temp_name suffix, []) :: remove fs (temp_name suffix)
  | Ev (file_write p data) _ =>
      match content fs p with
      | Some old => (p, old ++ data) :: remove fs p
      | None => (p, data) :: fs
      end
  | Ev (os_remove p) _ => remove fs p
  | _ => fs
  end.

Definition answers (w : world) (past : list event) (c : call) : answer c :=
  let fs := fold_left after past (files w) in
  match c return answer c with
  | os_path_isfile p => PyValue.is_some (content fs p)
  | os_path_isdir p => existsb (fun entry => eqb (fst (fst entry)) p) (tree w)
  | os_path_exists p =>
      PyValue.is_some (content fs p)
      || existsb (fun entry => eqb (fst (fst entry)) p) (tree w)
  | os_walk _ => tree w
  | open_ _ _ => inr tt
  | file_read p size =>
      match content fs p, size with
      | Some data, Some n => inr (PyBytes.take n data)
      | Some data, None => inr data
      | None, _ => inr []
      end
  | file_write _ _ => inr tt
  | file_close _ => inr tt
  | NamedTemporaryFile suffix => inr (temp_name suffix)
  | os_remove _ => inr tt
  | os_makedirs _ => inr tt
  | input _ => inr (reply w)
  | print _ => tt
  | MP3 _ => inr tt
  | add_tags _ => inr tt
  | tags_add _ _ => inr tt
  | save _ => inr tt
  end.

(** A container that decodes to the audio "ID3 audio". *)
Definition song : bytes :=
  Sample.container Inputs.shifted_key_box Inputs.plain_meta_box 0
    (Sample.rc4 (b_ "ABCDEFGHIJKLMNOP") (b_ "ID3 audio")).

(** A directory with one container and one other file. *)
Definition one_song : world := {|
  files := [(s_ "music/song.ncm", song); (s_ "music/notes.txt", b_ "notes")];
  tree := [(s_ "music", [], [s_ "song.ncm"; s_ "notes.txt"])];
  reply := s_ "n"
|}.

(** The same after a conversion: the output is there. *)
Definition converted_song : world := {|
  files := [(s_ "music/song.ncm", song); (s_ "music/song.mp3", b_ "ID3 audio")];
  tree := [(s_ "music", [], [s_ "song.ncm"; s_ "song.mp3"])];
  reply := s_ "n"
|}.

(** [ncm2mp3.py music] and [ncm2mp3.py -q music]. *)
Definition plain_arguments : arguments := {|
  args_input := s_ "music";
  args_output := None;
  args_quiet := false;
  args_force := false;
  args_debug := false
|}.

Definition quiet_arguments : arguments := {|
  args_input := s_ "music";
  args_output := None;
  args_quiet := true;
  args_force := false;
  args_debug := false
|}.

(** Metadata as the service writes it: every artist is a pair of a name
    and a number. *)
Definition paired_artists : list (str * Json.value) :=
  [(s_ "musicName", Json.Str (s_ "T"));
   (s_ "artist", Json.Arr [Json.Arr [Json.Str (s_ "A"); Json.Int 1]])].

(** The run of a tree in a world. *)
Definition run_in {A : Type} (w : world) (t : prog A) : list event * A :=
  run (answers w) [] t.

Definition song_path : str := s_ "music/song.ncm".

(** [convert_ncm_to_mp3('music/song.ncm', quiet=True)] *)
Definition quiet_conversion : IO bool :=
  convert_ncm_to_mp3 ascii_lower song_path None false true false.

End World.

(* ===================================================================== *)
(** ** What a conversion may do to the file system *)
(* ===================================================================== *)

Section ConversionMay.

Import PyStr Text IO.

Variables (ncm_file_path mp3_file_path : str) (debug : bool).

(** Among the calls of [past], the input was read and its content
    decodes to [audio]. *)
Definition decoded (past : list event) (audio : bytes) : Prop :=
  exists content meta,
    In (Ev (file_read ncm_file_path None) (inr content)) past /\
    snd (decrypt_ncm content debug) = inr (audio, meta).

(** Among the calls of [past], [p] was made as a temporary file, [audio]
    was written to it and it was closed. *)
Definition temporary (past : list event) (p : str) (audio : bytes) : Prop :=
  In (Ev (NamedTemporaryFile (s_ ".mp3")) (inr p)) past /\
  In (Ev (file_write p audio) (inr tt)) past /\
  In (Ev (file_close p) (inr tt)) past.

(** The calls that change the file system, and when [convert_ncm_to_mp3]
    may make them. *)
Definition conversion_may (past : list event) (c : call) : Prop :=
  match c with
  | NamedTemporaryFile _ => exists audio, decoded past audio
  | open_ p wb => p = mp3_file_path /\ exists audio, decoded past audio
  | file_write p data =>
      (In (Ev (NamedTemporaryFile (s_ ".mp3")) (inr p)) past /\ decoded past data) \/
      (p = mp3_file_path /\
       exists temp_file_path audio,
         temporary past temp_file_path audio /\
         In (Ev (file_read temp_file_path None) (inr data)) past)
  | os_remove p => exists audio, temporary past p audio
  | os_makedirs _ => False
  | _ => True
  end.

End ConversionMay.

(** The calls that change nothing. *)
Definition harmless (c : IO.call) : Prop :=
  match c with
  | IO.NamedTemporaryFile _ | IO.open_ _ IO.wb | IO.file_write _ _
  | IO.os_remove _ | IO.os_makedirs _ => False
  | _ => True
  end.


(** The calls that talk to the user. *)
Definition talks (c : IO.call) : Prop :=
  match c with
  | IO.input _ | IO.print _ => True
  | _ => False
  end.

(** The calls of the search for containers: tests of paths, the walk
    through a directory, and the reading of the first bytes of a file. *)
Definition scanning (c : IO.call) : Prop :=
  match c with
  | IO.os_path_isfile _ | IO.os_path_isdir _ | IO.os_walk _ => True
  | IO.open_ _ IO.rb => True
  | IO.file_read _ (Some size) => size = len MAGIC_HEADER
  | IO.file_close _ => True
  | _ => False
  end.

(** What a test of a path answered. *)
Definition test_answer (e : IO.event) : option bool :=
  match e with
  | IO.Ev c x =>
      match c return IO.answer c -> option bool with
      | IO.os_path_isfile _ | IO.os_path_isdir _ | IO.os_path_exists _ => fun b => Some b
      | _ => fun _ => None
      end x
  end.

(** What a call that read a file returned. *)
Definition read_answer (e : IO.event) : option bytes :=
  match e with
  | IO.Ev c x =>
      match c return IO.answer c -> option bytes with
      | IO.file_read _ _ =>
          fun r => match r with inr data => Some data | inl _ => None end
      | _ => fun _ => None
      end x
  end.

(** The run of [is_ncm_file] that ends in [True]. *)
Definition accepting_run (file_path : PyStr.str) : list IO.event :=
  [IO.Ev (IO.os_path_isfile file_path) true;
   IO.Ev (IO.open_ file_path IO.rb) (inr tt);
   IO.Ev (IO.file_read file_path (Some (len MAGIC_HEADER))) (inr MAGIC_HEADER);
   IO.Ev (IO.file_close file_path) (inr tt)].

(** The calls a conversion makes: it asks about and tags no file but its
    output, opens no other file for writing, and prints no summary. *)
Definition conversion_calls (mp3_file_path : PyStr.str) (c : IO.call) : Prop :=
  match c with
  | IO.os_path_exists _ => True
  | IO.input (IO.Overwrite_prompt p) => p = mp3_file_path
  | IO.print (IO.Skipping_file | IO.Processing _ | IO.Decrypting_NCM_file | IO.Done
             | IO.Adding_metadata | IO.Error_processing _ _
             | IO.Warning_failed_to_add_metadata _) => True
  | IO.open_ _ IO.rb => True
  | IO.open_ p IO.wb => p = mp3_file_path
  | IO.file_read _ None => True
  | IO.file_write _ _ | IO.file_close _ => True
  | IO.NamedTemporaryFile _ => True
  | IO.os_remove _ => True
  | IO.MP3 p | IO.add_tags p | IO.tags_add p _ | IO.save p => p = mp3_file_path
  | _ => False
  end.

(** A line of the summary that gives a count of successes other than 0. *)
Definition reports_success (c : IO.call) : Prop :=
  match c with
  | IO.print (IO.Success n) => n <> 0
  | _ => False
  end.

(** A path the search returned: its name ends in .ncm, whatever the
    case of the letters, and the run has the accepting run of
    [is_ncm_file] on it. *)
Definition accepted (lower : PyStr.str -> PyStr.str) (tr : list IO.event) (q : PyStr.str)
  : Prop :=
  Text.endswith (lower q) (Text.s_ ".ncm") = true /\
  exists pre post, tr = pre ++ accepting_run q ++ post.

(** The path of a call that read the magic constant from a file. *)
Definition read_magic (e : IO.event) : option PyStr.str :=
  match e with
  | IO.Ev c x =>
      match c return IO.answer c -> option PyStr.str with
      | IO.file_read p (Some _) =>
          fun r =>
            match r with
            | inr header => if bytes_eqb header MAGIC_HEADER then Some p else None
            | inl _ => None
            end
      | _ => fun _ => None
      end x
  end.

(** A call that closed a file without error. *)
Definition closed (e : IO.event) : bool :=
  match e with
  | IO.Ev c x =>
      match c return IO.answer c -> bool with
      | IO.file_close _ => fun r => match r with inr _ => true | inl _ => false end
      | _ => fun _ => false
      end x
  end.

(** The paths, in the order of the run, of the files from which the magic
    constant was read and which were closed without error right after. *)
Fixpoint accepted_paths (tr : list IO.event) : list PyStr.str :=
  match tr with
  | [] => []
  | e :: rest =>
      match read_magic e, rest with
      | Some p, e' :: _ =>
          if closed e' then p :: accepted_paths rest else accepted_paths rest
      | _, _ => accepted_paths rest
      end
  end.

(* ===================================================================== *)
(** * Properties *)
(* ===================================================================== *)

(** ** Bytes and lengths *)

Section ByteFacts.

Lemma to_N_lt_256 (b : byte) : Byte.to_N b < 256.
Proof. pose proof (Byte.to_N_bounded b). lia. Qed.

Lemma to_N_byte_of_N (n : N) : n < 256 -> Byte.to_N (byte_of_N n) = n.
Proof.
  intros Hn. unfold byte_of_N. rewrite N.mod_small by exact Hn.
  destruct (Byte.of_N n) as [b|] eqn:E.
  - now apply Byte.to_of_N.
  - apply Byte.of_N_None_iff in E. lia.
Qed.

Lemma byte_of_N_to_N (b : byte) : byte_of_N (Byte.to_N b) = b.
Proof.
  unfold byte_of_N. rewrite N.mod_small by apply to_N_lt_256.
  now rewrite Byte.of_to_N.
Qed.

Lemma lxor_lt_256 (a b : N) : a < 256 -> b < 256 -> N.lxor a b < 256.
Proof.
  intros Ha Hb.
  destruct (N.eq_dec (N.lxor a b) 0) as [E|E]; [rewrite E; lia|].
  change 256 with (2 ^ 8). apply N.log2_lt_pow2; [lia|].
  eapply N.le_lt_trans; [apply N.log2_lxor|].
  assert (La : a = 0 \/ N.log2 a < 8).
  { destruct (N.eq_dec a 0); [now left|right].
    apply N.log2_lt_pow2; [lia|exact Ha]. }
  assert (Lb : b = 0 \/ N.log2 b < 8).
  { destruct (N.eq_dec b 0); [now left|right].
    apply N.log2_lt_pow2; [lia|exact Hb]. }
  destruct La as [->|La], Lb as [->|Lb]; cbn [N.log2]; lia.
Qed.

Lemma to_N_xor_byte (a b : byte) :
  Byte.to_N (xor_byte a b) = N.lxor (Byte.to_N a) (Byte.to_N b).
Proof.
  unfold xor_byte. apply to_N_byte_of_N.
  apply lxor_lt_256; apply to_N_lt_256.
Qed.

(** XOR with the same byte twice gives the byte back. *)
Lemma xor_byte_twice (a k : byte) : xor_byte (xor_byte a k) k = a.
Proof.
  unfold xor_byte at 1. rewrite to_N_xor_byte.
  rewrite N.lxor_assoc, N.lxor_nilpotent, N.lxor_0_r.
  apply byte_of_N_to_N.
Qed.

Lemma xor_mask_twice (k : byte) (x : bytes) : xor_mask k (xor_mask k x) = x.
Proof.
  unfold xor_mask. induction x as [|b x IH]; cbn [map].
  - reflexivity.
  - now rewrite xor_byte_twice, IH.
Qed.

Lemma len_nil : len [] = 0.
Proof. reflexivity. Qed.

Lemma len_cons (b : byte) (l : bytes) : len (b :: l) = N.succ (len l).
Proof. unfold len. cbn [List.length]. lia. Qed.

Lemma len_app (a b : bytes) : len (a ++ b) = len a + len b.
Proof. unfold len. rewrite length_app. lia. Qed.

Lemma len_replicate (n : N) (v : byte) : len (replicate n v) = n.
Proof. unfold len, replicate. rewrite repeat_length. lia. Qed.

Lemma len_0_nil (b : bytes) : len b = 0 -> b = [].
Proof. destruct b; [reflexivity|]. rewrite len_cons. lia. Qed.

Lemma drop_0 (b : bytes) : drop 0 b = b.
Proof. destruct b; reflexivity. Qed.

Lemma drop_succ (n : N) (x : byte) (b : bytes) : drop (N.succ n) (x :: b) = drop n b.
Proof.
  cbn [drop]. destruct (N.eqb_spec (N.succ n) 0); [lia|].
  now rewrite N.pred_succ.
Qed.

(** A slice that starts at or after the end is empty. *)
Lemma drop_beyond (n : N) (b : bytes) : len b <= n -> drop n b = [].
Proof.
  revert n. induction b as [|x b IH]; intros n H; [reflexivity|].
  rewrite len_cons in H. cbn [drop].
  destruct (N.eqb_spec n 0); [lia|].
  apply IH. lia.
Qed.

Lemma take_nil (n : N) : take n [] = [].
Proof. reflexivity. Qed.

Lemma slice_beyond (b : bytes) (lo hi : N) : len b <= lo -> slice b lo hi = [].
Proof. intros H. unfold slice. now rewrite drop_beyond. Qed.

Lemma drop_app_len (a b : bytes) : drop (len a) (a ++ b) = b.
Proof.
  induction a as [|x a IH]; cbn [app].
  - rewrite len_nil. apply drop_0.
  - rewrite len_cons, drop_succ. exact IH.
Qed.

Lemma drop_drop (n m : N) (b : bytes) : drop n (drop m b) = drop (m + n) b.
Proof.
  revert n m. induction b as [|x b IH]; intros n m; [reflexivity|].
  cbn [drop]. destruct (N.eqb_spec m 0) as [->|Hm].
  - now rewrite N.add_0_l.
  - destruct (N.eqb_spec (m + n) 0); [lia|].
    rewrite IH. f_equal. lia.
Qed.

Lemma len_drop (n : N) (b : bytes) : len (drop n b) = len b - n.
Proof.
  revert n. induction b as [|x b IH]; intros n; [reflexivity|].
  cbn [drop]. destruct (N.eqb_spec n 0) as [->|Hn].
  - lia.
  - rewrite IH, len_cons. lia.
Qed.

Lemma bytes_eqb_eq (a b : bytes) : bytes_eqb a b = true <-> a = b.
Proof.
  revert b. induction a as [|x a IH]; intros [|y b]; cbn [bytes_eqb];
    try (split; [discriminate|discriminate]); [tauto|].
  rewrite andb_true_iff, IH. split.
  - intros [H ->]. apply Byte.byte_dec_bl in H. now subst.
  - intros H. injection H as -> ->. split; [now apply Byte.byte_dec_lb|reflexivity].
Qed.

Lemma startswith_app (p b : bytes) : startswith (p ++ b) p = true.
Proof.
  induction p as [|x p IH]; [destruct b; reflexivity|].
  cbn [app startswith]. rewrite IH, andb_true_r. now apply Byte.byte_dec_lb.
Qed.

Lemma startswith_prefix (b p : bytes) :
  startswith b p = true -> b = p ++ drop (len p) b.
Proof.
  revert b. induction p as [|y p IH]; intros b H.
  - now rewrite len_nil, drop_0.
  - destruct b as [|x b]; [discriminate|].
    cbn [startswith] in H. apply andb_true_iff in H as [Hxy H].
    apply Byte.byte_dec_bl in Hxy. subst y.
    rewrite len_cons, drop_succ. cbn [app]. f_equal. now apply IH.
Qed.

Lemma startswith_take (b p : bytes) :
  startswith b p = bytes_eqb (take (len p) b) p.
Proof.
  revert b. induction p as [|y p IH]; intros b.
  - rewrite len_nil. destruct b; reflexivity.
  - destruct b as [|x b]; [reflexivity|].
    rewrite len_cons. cbn [startswith take].
    destruct (N.eqb_spec (N.succ (len p)) 0); [lia|].
    rewrite N.pred_succ. cbn [bytes_eqb]. now rewrite IH.
Qed.

Lemma startswith_short (b p : bytes) : len b < len p -> startswith b p = false.
Proof.
  revert b. induction p as [|y p IH]; intros b H.
  - rewrite len_nil in H. lia.
  - destruct b as [|x b]; [reflexivity|].
    rewrite !len_cons in H. cbn [startswith].
    rewrite IH by lia. apply andb_false_r.
Qed.

End ByteFacts.

(** ** Known answers of the library models *)

Section KnownAnswers.

(** FIPS 197, appendix C.1: AES-128 of 00112233..ff under 000102..0f. *)
Example aes128_fips197_c1 :
  let key := map byte_of_N [0; 1; 2; 3; 4; 5; 6; 7; 8; 9; 10; 11; 12; 13; 14; 15] in
  let plain := map byte_of_N [0; 17; 34; 51; 68; 85; 102; 119; 136; 153; 170; 187;
                              204; 221; 238; 255] in
  let ciphertext := map byte_of_N [105; 196; 224; 216; 106; 123; 4; 48; 216; 205;
                                   183; 128; 112; 180; 197; 90] in
  match AES.new key with
  | inr c => AES.encrypt c plain = inr ciphertext /\ AES.decrypt c ciphertext = inr plain
  | inl _ => False
  end.
Proof. vm_compute. split; reflexivity. Qed.

(** FIPS 197, appendix B. *)
Example aes128_fips197_b :
  let key := map byte_of_N [43; 126; 21; 22; 40; 174; 210; 166; 171; 247; 21; 136;
                            9; 207; 79; 60] in
  let plain := map byte_of_N [50; 67; 246; 168; 136; 90; 48; 141; 49; 49; 152; 162;
                              224; 55; 7; 52] in
  let ciphertext := map byte_of_N [57; 37; 132; 29; 2; 220; 9; 251; 220; 17; 133;
                                   151; 25; 106; 11; 50] in
  match AES.new key with
  | inr c => AES.encrypt c plain = inr ciphertext /\ AES.decrypt c ciphertext = inr plain
  | inl _ => False
  end.
Proof. vm_compute. split; reflexivity. Qed.

(** RC4 of "Plaintext" under "Key", and of "pedia" under "Wiki". *)
Example arc4_known_answers :
  map Byte.to_N (Sample.rc4 (b_ "Key") (b_ "Plaintext"))
  = [187; 243; 22; 232; 217; 64; 175; 10; 211] /\
  map Byte.to_N (Sample.rc4 (b_ "Wiki") (b_ "pedia")) = [16; 33; 191; 4; 32].
Proof. vm_compute. split; reflexivity. Qed.

Example b64decode_known_answers :
  Base64.b64decode (b_ "aGVsbG8gd29ybGQhIQ==") = inr (b_ "hello world!!") /\
  Base64.b64decode (b_ "aGVsbG8gd29ybGQhIQ") = inl (binascii_Error "Incorrect padding") /\
  Base64.b64decode (b_ "aGV=sbG8gd29ybGQhIQ==") = inr (b_ "he") /\
  Base64.b64decode (b_ "aG==V$$sbG8=") = inr (b_ "h") /\
  Base64.b64encode (b_ "hello world!!") = b_ "aGVsbG8gd29ybGQhIQ==".
Proof. vm_compute. repeat split. Qed.

Example unpad_known_answers :
  Padding.unpad (Padding.pad (b_ "abc") 16) 16 = inr (b_ "abc") /\
  Padding.unpad (b_ "0123456789abcdef") 16 = inl (ValueError "Padding is incorrect.") /\
  Padding.unpad [] 16 = inl (ValueError "Zero-length input cannot be unpadded").
Proof. vm_compute. repeat split. Qed.

Example decode_utf8_known_answers :
  PyStr.decode_utf8 false (map byte_of_N [65; 228; 184; 173; 66]) = inr [65; 20013; 66] /\
  PyStr.decode_utf8 false (map byte_of_N [65; 228; 184; 66]) = inl UnicodeDecodeError /\
  PyStr.decode_utf8 true (map byte_of_N [65; 228; 184; 66]) = inr [65; 66] /\
  PyStr.decode_utf8 true (map byte_of_N [255; 65; 192; 128; 237; 160; 128; 66])
  = inr [65; 66].
Proof. vm_compute. repeat split. Qed.

Example loads_known_answers :
  Json.loads (map Byte.to_N (Sample.json_text "{'musicName':'T','artist':[{'name':'A'}],'album':'B'}"))
  = inr (Json.Obj [(PyStr.of_string "musicName", Json.Str (PyStr.of_string "T"));
                   (PyStr.of_string "artist",
                    Json.Arr [Json.Obj [(PyStr.of_string "name",
                                         Json.Str (PyStr.of_string "A"))]]);
                   (PyStr.of_string "album", Json.Str (PyStr.of_string "B"))]) /\
  Json.loads (PyStr.of_string "[1,]") = inl (JSONDecodeError "Expecting value") /\
  Json.loads (PyStr.of_string " [1, -2, 2.5e3, true, null] ")
  = inr (Json.Arr [Json.Int 1; Json.Int (-2); Json.Float (PyStr.of_string "2.5e3");
                   Json.Bool true; Json.Null]) /\
  Json.loads (PyStr.of_string "01") = inl (JSONDecodeError "Extra data").
Proof. vm_compute. repeat split. Qed.

(** [HEADER.decode('utf-8')] is [HEADER_text]. *)
Example header_text : PyStr.decode_utf8 false HEADER = inr HEADER_text.
Proof. reflexivity. Qed.

End KnownAnswers.

(** ** The effect layer *)

Section MonadFacts.

Context {A B : Type}.

Lemma bind_ok (m : M A) (f : A -> M B) (ops : list cipher_op) (a : A) :
  m = (ops, inr a) -> bind m f = (ops ++ fst (f a), snd (f a)).
Proof. intros ->. unfold bind. now destruct (f a). Qed.

Lemma bind_raise (m : M A) (f : A -> M B) (ops : list cipher_op) (e : py_exception) :
  m = (ops, inl e) -> bind m f = (ops, inl e).
Proof. now intros ->. Qed.

(** A bind that raises does so in its first or in its second part. *)
Lemma bind_raise_inv (m : M A) (f : A -> M B) (ops : list cipher_op) (e : py_exception) :
  bind m f = (ops, inl e) ->
  m = (ops, inl e) \/
  exists ops1 a ops2, m = (ops1, inr a) /\ f a = (ops2, inl e) /\ ops = ops1 ++ ops2.
Proof.
  destruct m as [ops1 [e1|a]]; cbn [bind].
  - intros H. injection H as -> ->. now left.
  - destruct (f a) as [ops2 r] eqn:E. intros H. injection H as <- ->.
    right. now exists ops1, a, ops2.
Qed.

(** A bind that returns went through both parts. *)
Lemma bind_ok_inv (m : M A) (f : A -> M B) (ops : list cipher_op) (b : B) :
  bind m f = (ops, inr b) ->
  exists ops1 a ops2, m = (ops1, inr a) /\ f a = (ops2, inr b) /\ ops = ops1 ++ ops2.
Proof.
  destruct m as [ops1 [e1|a]]; cbn [bind].
  - discriminate.
  - destruct (f a) as [ops2 r] eqn:E. intros H. injection H as <- ->.
    now exists ops1, a, ops2.
Qed.

End MonadFacts.

(** ** The block cipher of the key box and of the metadata box *)

Section CipherFacts.

Lemma aes_new_key : aes_new AES_KEY = ([AES_new AES_KEY], inr Sample.the_cipher).
Proof. reflexivity. Qed.

(** ECB decryption accepts exactly the block-aligned data. *)
Lemma aes_decrypt_aligned (c : AES.cipher) (data : bytes) :
  len data mod 16 = 0 ->
  AES.decrypt c data
  = inr (AES.map_blocks (AES.decrypt_block (AES.round_keys c))
                        (N.to_nat (len data / 16)) data).
Proof.
  intros H. unfold AES.decrypt, AES.block_size. rewrite H. reflexivity.
Qed.

Lemma aes_decrypt_unaligned (c : AES.cipher) (data : bytes) :
  len data mod 16 <> 0 ->
  AES.decrypt c data
  = inl (ValueError "Data must be aligned to block boundary in ECB mode").
Proof.
  intros H. unfold AES.decrypt, AES.block_size.
  destruct (N.eqb_spec (len data mod 16) 0); [contradiction|reflexivity].
Qed.

Lemma round_up_16 (n : N) : (n + (16 - n mod 16)) mod 16 = 0.
Proof.
  pose proof (N.div_mod n 16 ltac:(lia)) as D.
  pose proof (N.mod_lt n 16 ltac:(lia)) as L.
  replace (n + (16 - n mod 16)) with ((n / 16 + 1) * 16) by lia.
  apply N.Div0.mod_mul.
Qed.

Lemma len_pad_pkcs7 (data : bytes) : len (pad_pkcs7 data) mod 16 = 0.
Proof.
  unfold pad_pkcs7. destruct (N.eqb_spec (len data mod 16) 0) as [E|E]; cbn [negb].
  - exact E.
  - rewrite len_app, len_replicate. apply round_up_16.
Qed.

Lemma len_pad_null (data : bytes) : len (pad_null data) mod 16 = 0.
Proof.
  unfold pad_null, ljust. rewrite len_app, len_replicate.
  pose proof (N.div_mod (len data) 16 ltac:(lia)) as D.
  pose proof (N.mod_lt (len data) 16 ltac:(lia)) as L.
  pose proof (N.div_mod (len data + 15) 16 ltac:(lia)) as D'.
  pose proof (N.mod_lt (len data + 15) 16 ltac:(lia)) as L'.
  replace (len data + ((len data + 15) / 16 * 16 - len data))
    with ((len data + 15) / 16 * 16) by lia.
  apply N.Div0.mod_mul.
Qed.

(** The padding written out in the fallback (lines 149-151) is the first
    strategy's padding. *)
Lemma fallback_padding (encrypted_key : bytes) :
  (if negb (16 - len encrypted_key mod 16 =? 16)
   then encrypted_key
        ++ replicate (16 - len encrypted_key mod 16)
                     (byte_of_N (16 - len encrypted_key mod 16))
   else encrypted_key)
  = pad_pkcs7 encrypted_key.
Proof.
  unfold pad_pkcs7.
  pose proof (N.mod_lt (len encrypted_key) 16 ltac:(lia)) as L.
  destruct (N.eqb_spec (16 - len encrypted_key mod 16) 16),
           (N.eqb_spec (len encrypted_key mod 16) 0); cbn [negb]; try reflexivity; lia.
Qed.

End CipherFacts.

(** ** Key box: the decryption stage *)

Section KeyDecryption.

(** One pass of the loop body never lets an exception out. *)
Lemma try_padding_strategies_returns (strategies : list (bytes -> bytes))
                                     (encrypted_key : bytes) :
  exists ops r, try_padding_strategies strategies encrypted_key = (ops, inr r).
Proof.
  induction strategies as [|pad_func rest IH]; cbn [try_padding_strategies].
  - now exists [], None.
  - match goal with |- context [try_except ?m ?h] => destruct m as [ops1 [e|attempt]] end;
      cbn [try_except ret bind].
    + destruct IH as (ops & r & ->). rewrite app_nil_r. eauto.
    + destruct attempt as [k|]; cbn [ret].
      * eauto.
      * destruct IH as (ops & r & ->). eauto.
Qed.

(** The fallback of lines 147-154 by itself. *)
Lemma fallback_decrypts (encrypted_key : bytes) :
  exists plain,
    AES.decrypt Sample.the_cipher (pad_pkcs7 encrypted_key) = inr plain /\
    bind (aes_new AES_KEY)
         (fun cipher => aes_decrypt cipher (pad_pkcs7 encrypted_key))
    = ([AES_new AES_KEY; AES_decrypt (pad_pkcs7 encrypted_key)], inr plain).
Proof.
  rewrite (aes_decrypt_aligned _ _ (len_pad_pkcs7 encrypted_key)).
  eexists. split; [reflexivity|].
  rewrite aes_new_key. cbn [bind]. unfold aes_decrypt.
  rewrite (aes_decrypt_aligned _ _ (len_pad_pkcs7 encrypted_key)). reflexivity.
Qed.

Lemma decrypt_key_returns (encrypted_key : bytes) :
  exists ops k, decrypt_key encrypted_key = (ops, inr k).
Proof.
  unfold decrypt_key.
  destruct (try_padding_strategies_returns padding_strategies encrypted_key)
    as (ops & r & E).
  rewrite E. cbn [bind]. destruct r as [k|].
  - cbn [ret]. eauto.
  - rewrite fallback_padding.
    destruct (fallback_decrypts encrypted_key) as (plain & _ & ->). eauto.
Qed.

Lemma search_last_resort_raises (st : search_state) (ops : list cipher_op)
                                (e : py_exception) :
  search_last_resort st = (ops, inl e) -> ops = [] /\ e = invalid_key_header.
Proof.
  destruct st as [key [|]]; cbn [search_last_resort negb ret]; [discriminate|].
  destruct (16 <=? len (lstrip0 key)); [discriminate|].
  unfold raise. intros H. injection H as <- <-. now split.
Qed.

Lemma search_header_raises (key : bytes) (ops : list cipher_op) (e : py_exception) :
  search_header key = (ops, inl e) -> ops = [] /\ e = invalid_key_header.
Proof.
  unfold search_header. intros H.
  apply bind_raise_inv in H as [H|(ops1 & a & ops2 & _ & H & _)].
  - now apply search_last_resort_raises in H.
  - discriminate.
Qed.

(** The two ways in which the key extraction of lines 156-223 fails. *)
Lemma extract_key_raises (decrypted_key : bytes) (ops : list cipher_op)
                         (e : py_exception) :
  extract_key decrypted_key = (ops, inl e) ->
  e = invalid_key_header \/ e = ValueError "Decrypted key is empty".
Proof.
  unfold extract_key. intros H.
  apply bind_raise_inv in H as [H|(ops1 & key & ops2 & _ & H & _)].
  - destruct (negb (startswith (lstrip0 decrypted_key) HEADER)).
    + apply search_header_raises in H as [_ ->]. now left.
    + discriminate.
  - destruct (len (rstrip0 key) =? 0); [|discriminate].
    unfold raise in H. injection H as <- <-. now right.
Qed.

Lemma key_unlock_raises (key_box : bytes) (ops : list cipher_op) (e : py_exception) :
  key_unlock key_box = (ops, inl e) ->
  e = invalid_key_header \/ e = ValueError "Decrypted key is empty".
Proof.
  unfold key_unlock. intros H.
  apply bind_raise_inv in H as [H|(ops1 & k & ops2 & _ & H & _)].
  - destruct (decrypt_key_returns (xor_mask KEY_XOR_KEY key_box)) as (ops' & k & E).
    rewrite E in H. discriminate.
  - now apply extract_key_raises in H.
Qed.

End KeyDecryption.

(** ** XOR masks *)

(** C7: for every byte sequence [x] and for each of the two fixed masks
    (0x64 for the key box, 0x63 for the metadata box), masking [x] twice
    gives [x] back. *)
Theorem xor_mask_self_inverse (x : bytes) :
  (KEY_XOR_KEY = x64 /\ xor_mask KEY_XOR_KEY (xor_mask KEY_XOR_KEY x) = x) /\
  (META_XOR_KEY = x63 /\ xor_mask META_XOR_KEY (xor_mask META_XOR_KEY x) = x).
Proof.
  repeat split; try reflexivity; apply xor_mask_twice.
Qed.

(** ** Magic check *)

Lemma not_magic (data : bytes) :
  len data < 8 \/ take 8 data <> MAGIC_HEADER ->
  startswith data MAGIC_HEADER = false.
Proof.
  intros [Hshort|Hdiff].
  - apply startswith_short. exact Hshort.
  - rewrite startswith_take. change (len MAGIC_HEADER) with 8.
    destruct (bytes_eqb (take 8 data) MAGIC_HEADER) eqn:E; [|reflexivity].
    apply bytes_eqb_eq in E. contradiction.
Qed.

(** C2: a buffer shorter than 8 bytes, or whose first 8 bytes are not the
    magic constant, is rejected with "Not a valid NCM file", and the log of
    cipher operations of that run is empty: no AES and no RC4 call was
    made. *)
Theorem magic_check_before_any_cipher (data : bytes) (debug : bool) :
  len data < 8 \/ take 8 data <> MAGIC_HEADER ->
  decrypt_ncm data debug
  = ([], inl (Failed_to_decrypt_NCM_file (ValueError "Not a valid NCM file"))).
Proof.
  intros H. apply not_magic in H.
  unfold decrypt_ncm, decrypt_ncm_body. rewrite H. reflexivity.
Qed.

Lemma magic_check_before_any_cipher_witness :
  decrypt_ncm (b_ "RIFF") false
  = ([], inl (Failed_to_decrypt_NCM_file (ValueError "Not a valid NCM file"))).
Proof.
  apply (magic_check_before_any_cipher (b_ "RIFF") false).
  left. reflexivity.
Defined.

(** ** Key box: the unconditional fallback *)

(** C10: when the loop over the three padding strategies accepts nothing,
    the key bytes are padded once more as in the first strategy and
    decrypted, and that output is the decrypted key whatever it contains;
    so the AES stage of the key box returns for every input, and key
    recovery can only fail with "Invalid key header" or "Decrypted key is
    empty", raised by the checks that follow it. *)
Theorem key_decryption_never_raises (encrypted_key : bytes) :
  (forall ops,
     try_padding_strategies padding_strategies encrypted_key = (ops, inr None) ->
     exists plain,
       AES.decrypt Sample.the_cipher (pad_pkcs7 encrypted_key) = inr plain /\
       decrypt_key encrypted_key
       = (ops ++ [AES_new AES_KEY; AES_decrypt (pad_pkcs7 encrypted_key)], inr plain)) /\
  (exists ops decrypted_key, decrypt_key encrypted_key = (ops, inr decrypted_key)) /\
  (forall key_box ops e,
     key_unlock key_box = (ops, inl e) ->
     e = invalid_key_header \/ e = ValueError "Decrypted key is empty").
Proof.
  split; [|split].
  - intros ops E. unfold decrypt_key. rewrite E. cbn [bind].
    rewrite fallback_padding.
    destruct (fallback_decrypts encrypted_key) as (plain & Hp & ->).
    exists plain. split; [exact Hp|reflexivity].
  - apply decrypt_key_returns.
  - intros key_box ops e H. now apply key_unlock_raises in H.
Qed.

Lemma key_decryption_never_raises_witness :
  exists plain,
    AES.decrypt Sample.the_cipher (pad_pkcs7 []) = inr plain /\
    decrypt_key []
    = ([AES_new AES_KEY; AES_decrypt []; AES_new AES_KEY; AES_decrypt [];
        AES_new AES_KEY; AES_decrypt []]
       ++ [AES_new AES_KEY; AES_decrypt (pad_pkcs7 [])], inr plain).
Proof.
  apply (proj1 (key_decryption_never_raises [])).
  reflexivity.
Defined.

(** ** Key box: the padding candidates *)

Section PaddingCandidates.

Import KeyUnlockSpec.

Lemma pad_pkcs7_standard (data : bytes) : pad_pkcs7 data = standard_padding data.
Proof.
  unfold pad_pkcs7, standard_padding, pad_length.
  pose proof (N.mod_lt (len data) 16 ltac:(lia)) as L.
  remember (len data mod 16) as r eqn:Hr. clear Hr.
  destruct (N.eqb_spec r 0) as [E|E]; cbn [negb].
  - rewrite E. cbn. now rewrite app_nil_r.
  - now rewrite (N.mod_small (16 - r)) by lia.
Qed.

Lemma pad_null_zero (data : bytes) : pad_null data = zero_padding data.
Proof.
  unfold pad_null, zero_padding, pad_length, ljust. do 2 f_equal.
  pose proof (N.div_mod (len data) 16 ltac:(lia)) as D.
  pose proof (N.mod_lt (len data) 16 ltac:(lia)) as L.
  pose proof (N.div_mod (len data + 15) 16 ltac:(lia)) as D'.
  pose proof (N.mod_lt (len data + 15) 16 ltac:(lia)) as L'.
  remember (len data mod 16) as r eqn:Hr. clear Hr.
  remember (len data / 16) as q eqn:Hq. clear Hq.
  remember ((len data + 15) mod 16) as r' eqn:Hr'. clear Hr'.
  remember ((len data + 15) / 16) as q' eqn:Hq'. clear Hq'.
  remember (len data) as n eqn:Hn. clear Hn.
  destruct (N.eq_dec r 0) as [E|E].
  - subst r. change ((16 - 0) mod 16) with 0. lia.
  - rewrite (N.mod_small (16 - r)) by lia. lia.
Qed.

Lemma ecb_decrypt_aligned (c : bytes) :
  len c mod 16 = 0 ->
  exists plain,
    ecb_decrypt c = Some plain /\ AES.decrypt Sample.the_cipher c = inr plain.
Proof.
  intros H. unfold ecb_decrypt. rewrite (aes_decrypt_aligned _ _ H). eauto.
Qed.

Lemma ecb_decrypt_unaligned (c : bytes) :
  len c mod 16 <> 0 -> ecb_decrypt c = None.
Proof.
  intros H. unfold ecb_decrypt. now rewrite (aes_decrypt_unaligned _ _ H).
Qed.

(** The loop of lines 127-145 in terms of the candidates it builds. *)
Lemma try_padding_strategies_spec (strategies : list (bytes -> bytes))
                                  (encrypted_key : bytes) :
  let cands := map (fun pad_func => pad_func encrypted_key) strategies in
  try_padding_strategies strategies encrypted_key
  = (flat_map (fun c => [AES_new AES_KEY; AES_decrypt c])
       (attempted accepted_both_ends cands),
     inr (first_accepted accepted_both_ends cands)).
Proof.
  induction strategies as [|pad_func rest IH]; cbn [map try_padding_strategies].
  - reflexivity.
  - cbn zeta in IH. cbn zeta. cbn [attempted first_accepted].
    destruct (N.eqb_spec (len (pad_func encrypted_key) mod 16) 0) as [E|E];
      cbn [negb].
    + destruct (ecb_decrypt_aligned _ E) as (plain & Hs & Hd).
      rewrite aes_new_key. unfold aes_decrypt. cbn [bind try_except].
      rewrite Hd, Hs.
      change (produced_valid_key plain) with (accepted_both_ends plain).
      destruct (accepted_both_ends plain); cbn [ret app bind flat_map].
      * reflexivity.
      * rewrite IH. reflexivity.
    + rewrite (ecb_decrypt_unaligned _ E). cbn [try_except ret bind].
      rewrite IH. reflexivity.
Qed.

End PaddingCandidates.

(** C3, as stated, fails: for these 15 key bytes the first candidate
    decrypts to 15 letters and a zero byte, which has length 16 once
    leading zero bytes are stripped, yet the loop goes on and accepts the
    second candidate. *)
Lemma leading_strip_acceptance_refuted :
  snd (try_padding_strategies padding_strategies Inputs.unaligned_key)
  <> inr (KeyUnlockSpec.first_accepted KeyUnlockSpec.accepted_leading
            (KeyUnlockSpec.candidates Inputs.unaligned_key)).
Proof.
  vm_compute. intros H. discriminate H.
Qed.

(** C3, amended: the candidates are tried in the order (a) pad length as
    pad byte, (b) zero padding, (c) no padding, a candidate that is not
    block aligned is skipped, and the loop leaves with the decryption of
    the first candidate whose decryption contains the marker or has length
    at least 16 after zero bytes are stripped at both ends. *)
Theorem padding_candidates_in_order (encrypted_key : bytes) :
  let cands := KeyUnlockSpec.candidates encrypted_key in
  try_padding_strategies padding_strategies encrypted_key
  = (flat_map (fun c => [AES_new AES_KEY; AES_decrypt c])
       (KeyUnlockSpec.attempted KeyUnlockSpec.accepted_both_ends cands),
     inr (KeyUnlockSpec.first_accepted KeyUnlockSpec.accepted_both_ends cands)).
Proof.
  cbn zeta. rewrite try_padding_strategies_spec.
  unfold padding_strategies, KeyUnlockSpec.candidates. cbn [map].
  rewrite pad_pkcs7_standard, pad_null_zero. reflexivity.
Qed.

(** ** Key box: the search for the marker *)

Section MarkerSearch.

Import KeyUnlockSpec.

Lemma bind_ret_l {A B : Type} (a : A) (f : A -> M B) : bind (ret a) f = f a.
Proof. unfold bind, ret. now destruct (f a). Qed.

Lemma find_from_unfold (i : N) (b sub : bytes) :
  find_from i b sub
  = if startswith b sub then Some i
    else match b with
         | [] => None
         | _ :: t => find_from (N.succ i) t sub
         end.
Proof. destruct b; reflexivity. Qed.

Lemma find_from_short (i : N) (b sub : bytes) :
  len b < len sub -> find_from i b sub = None.
Proof.
  revert i. induction b as [|x b IH]; intros i H; rewrite find_from_unfold;
    rewrite (startswith_short _ _ H); [reflexivity|].
  apply IH. rewrite len_cons in H. lia.
Qed.

Lemma slice_eqb_startswith (key p : bytes) (i : N) :
  bytes_eqb (slice key i (i + len p)) p = startswith (drop i key) p.
Proof.
  unfold slice. replace (i + len p - i) with (len p) by lia.
  symmetry. apply startswith_take.
Qed.

Lemma drop_next (i : N) (key : bytes) (x : byte) (t : bytes) :
  drop i key = x :: t -> drop (N.succ i) key = t.
Proof.
  intros H. rewrite <- N.add_1_r, <- drop_drop, H.
  change 1 with (N.succ 0). now rewrite drop_succ, drop_0.
Qed.

(** The loop of lines 165-170 finds what [find] finds. *)
Lemma search_offsets_find (n s : nat) (key : bytes) :
  N.of_nat n = len (drop (N.of_nat s) key) + 1 - len HEADER ->
  search_offsets (map N.of_nat (seq s n)) key
  = match find_from (N.of_nat s) (drop (N.of_nat s) key) HEADER with
    | Some i => (drop (i + len HEADER) key, true)
    | None => (key, false)
    end.
Proof.
  revert s. induction n as [|n IH]; intros s Hn; cbn [seq map search_offsets].
  - rewrite find_from_short; [reflexivity|]. lia.
  - rewrite slice_eqb_startswith, find_from_unfold.
    destruct (startswith (drop (N.of_nat s) key) HEADER); [reflexivity|].
    destruct (drop (N.of_nat s) key) as [|x t] eqn:E.
    + rewrite len_nil in Hn. change (len HEADER) with 17 in Hn. lia.
    + apply drop_next in E. rewrite <- Nat2N.inj_succ in *.
      rewrite IH; rewrite E; [reflexivity|].
      rewrite len_cons in Hn. lia.
Qed.

Lemma search_offsets_range (key : bytes) :
  search_offsets (range (Z.of_N (len key) - Z.of_N (len HEADER) + 1)) key
  = match find key HEADER with
    | Some i => (drop (i + len HEADER) key, true)
    | None => (key, false)
    end.
Proof.
  unfold range, find.
  rewrite (search_offsets_find _ 0 key); cbn [N.of_nat]; rewrite drop_0;
    [reflexivity|].
  change (len HEADER) with 17. lia.
Qed.

Lemma search_padded_spec (ks : list N) (key : bytes) :
  search_padded ks key
  = match marker_zero_padded ks key with
    | Some k => (k, true)
    | None => (key, false)
    end.
Proof.
  induction ks as [|k ks IH]; cbn [search_padded marker_zero_padded];
    [reflexivity|].
  unfold contains.
  destruct (find key (replicate k x00 ++ HEADER)); [reflexivity|exact IH].
Qed.

Lemma lstrip0_idem (b : bytes) : lstrip0 (lstrip0 b) = lstrip0 b.
Proof.
  induction b as [|x b IH]; [reflexivity|].
  destruct x; try reflexivity. exact IH.
Qed.

(** The body of [if not key.startswith(HEADER)] as an ordered choice. *)
Lemma search_header_spec (key : bytes) :
  lstrip0 key = key ->
  search_header key
  = match first_success fallback_searches key with
    | Some k => ret k
    | None => raise invalid_key_header
    end.
Proof.
  intros Hkey. unfold search_header. rewrite search_offsets_range.
  unfold fallback_searches. cbn [first_success].
  unfold marker_at_any_offset.
  destruct (find key HEADER) as [i|]; [reflexivity|].
  cbn [search_string negb]. unfold marker_in_text.
  destruct (PyStr.find (PyStr.decode_latin1 key) HEADER_text) as [pos|];
    [reflexivity|].
  cbn [search_alternative negb]. unfold marker_zero_terminated, contains.
  destruct (find key (HEADER ++ [x00])) as [pos|]; [reflexivity|].
  rewrite search_padded_spec.
  destruct (marker_zero_padded [0; 1; 2; 3; 4; 5; 6; 7] key) as [k|];
    [reflexivity|].
  cbn [search_last_resort negb]. rewrite Hkey. unfold verbatim.
  destruct (16 <=? len key); reflexivity.
Qed.

End MarkerSearch.



(** ** Key box: the searches after the first *)

Section DeadSearches.
Import KeyUnlockSpec.

Lemma find_from_occurs (i k : N) (b sub : bytes) :
  startswith (drop k b) sub = true -> find_from i b sub <> None.
Proof.
  revert i k. induction b as [|x t IH]; intros i k H; rewrite find_from_unfold.
  - cbn [drop] in H. rewrite H. discriminate.
  - destruct (startswith (x :: t) sub) eqn:E; [discriminate|].
    cbn [drop] in H. destruct (k =? 0).
    + rewrite E in H. discriminate.
    + eapply IH. exact H.
Qed.

Lemma find_from_found (i j : N) (b sub : bytes) :
  find_from i b sub = Some j -> exists k, startswith (drop k b) sub = true.
Proof.
  revert i. induction b as [|x t IH]; intros i; rewrite find_from_unfold.
  - destruct (startswith [] sub) eqn:E; [|discriminate].
    intros _. exists 0. exact E.
  - destruct (startswith (x :: t) sub) eqn:E.
    + intros _. exists 0. exact E.
    + intros H. apply IH in H as [k H]. exists (N.succ k).
      now rewrite drop_succ.
Qed.

Lemma startswith_app_r (b p q : bytes) :
  startswith b (p ++ q) = true -> startswith (drop (len p) b) q = true.
Proof.
  revert b. induction p as [|y p IH]; intros b H; cbn [app] in H.
  - now rewrite len_nil, drop_0.
  - destruct b as [|x b]; [discriminate|]. cbn [startswith] in H.
    apply andb_true_iff in H as [_ H]. rewrite len_cons, drop_succ. now apply IH.
Qed.

Lemma startswith_app_l (b p q : bytes) :
  startswith b (p ++ q) = true -> startswith b p = true.
Proof.
  revert b. induction p as [|y p IH]; intros b H; cbn [app] in H.
  - destruct b; reflexivity.
  - destruct b as [|x b]; [discriminate|]. cbn [startswith] in *.
    apply andb_true_iff in H as [Hxy H]. rewrite Hxy. now apply IH.
Qed.

(** Where the marker with something around it occurs, the marker occurs. *)
Lemma find_framed (b pre post : bytes) :
  find b HEADER = None -> find b (pre ++ HEADER ++ post) = None.
Proof.
  intros Hnone. destruct (find b (pre ++ HEADER ++ post)) as [j|] eqn:E;
    [|reflexivity].
  apply find_from_found in E as [k E].
  apply startswith_app_r in E. rewrite drop_drop in E.
  apply startswith_app_l in E.
  now apply (find_from_occurs 0) in E.
Qed.

Lemma byte_eqb_to_N (x y : byte) : Byte.eqb x y = (Byte.to_N x =? Byte.to_N y).
Proof.
  destruct (N.eqb_spec (Byte.to_N x) (Byte.to_N y)) as [E|E].
  - apply Byte.byte_dec_lb.
    rewrite <- (byte_of_N_to_N x), <- (byte_of_N_to_N y). now rewrite E.
  - destruct (Byte.eqb x y) eqn:B; [|reflexivity].
    apply Byte.byte_dec_bl in B. now subst.
Qed.

Lemma latin1_startswith (b p : bytes) :
  PyStr.startswith (PyStr.decode_latin1 b) (PyStr.decode_latin1 p) = startswith b p.
Proof.
  unfold PyStr.decode_latin1. revert b.
  induction p as [|y p IH]; intros b; [destruct b; reflexivity|].
  destruct b as [|x b]; [reflexivity|].
  cbn [map PyStr.startswith startswith]. now rewrite IH, byte_eqb_to_N.
Qed.

Lemma latin1_find_from (i : N) (b p : bytes) :
  PyStr.find_from i (PyStr.decode_latin1 b) (PyStr.decode_latin1 p) = find_from i b p.
Proof.
  revert i. induction b as [|x b IH]; intros i.
  - cbn [PyStr.decode_latin1 map PyStr.find_from find_from].
    now rewrite <- (latin1_startswith [] p).
  - rewrite find_from_unfold. cbn [PyStr.decode_latin1 map PyStr.find_from].
    change (Byte.to_N x :: map Byte.to_N b) with (PyStr.decode_latin1 (x :: b)).
    rewrite latin1_startswith.
    destruct (startswith (x :: b) p); [reflexivity|]. apply IH.
Qed.

(** When the marker occurs nowhere in the plaintext, the searches (ii),
    (iii) and (iv) find nothing either: only (v) is left. *)
Lemma later_searches_find_nothing (plain : bytes) (ks : list N) :
  marker_at_any_offset plain = None ->
  marker_in_text plain = None /\
  marker_zero_terminated plain = None /\
  marker_zero_padded ks plain = None.
Proof.
  unfold marker_at_any_offset. destruct (find plain HEADER) eqn:E; [discriminate|].
  intros _. repeat split.
  - unfold marker_in_text, PyStr.find.
    change HEADER_text with (PyStr.decode_latin1 HEADER).
    rewrite latin1_find_from. fold (find plain HEADER). now rewrite E.
  - unfold marker_zero_terminated.
    pose proof (find_framed plain [] [x00] E) as F.
    change ([] ++ HEADER ++ [x00]) with (HEADER ++ [x00]) in F. now rewrite F.
  - induction ks as [|k ks IH]; cbn [marker_zero_padded]; [reflexivity|].
    pose proof (find_framed plain (replicate k x00) [] E) as F.
    rewrite app_nil_r in F. now rewrite F.
Qed.

End DeadSearches.

(** ** The stream cipher *)

Section StreamCipher.

(** The RC4 transform from one generator state, applied twice, is the
    identity: the keystream does not depend on the data. *)
Lemma crypt_twice (S : list N) (i j : N) (x : bytes) :
  ARC4.crypt S i j (ARC4.crypt S i j x) = x.
Proof.
  revert S i j. induction x as [|b x IH]; intros S i j; cbn [ARC4.crypt].
  - reflexivity.
  - now rewrite xor_byte_twice, IH.
Qed.

Lemma arc4_self_inverse (key : bytes) (cipher : ARC4.cipher) (x : bytes) :
  ARC4.new key = inr cipher ->
  ARC4.decrypt cipher (ARC4.encrypt cipher x) = x.
Proof. intros _. apply crypt_twice. Qed.

Lemma debug_inspect_nil : debug_inspect [] = [].
Proof. reflexivity. Qed.

(** What a successful audio stage did. *)
Lemma decrypt_audio_ok (key region : bytes) (debug : bool)
                       (ops : list cipher_op) (audio : bytes) :
  decrypt_audio key region debug = (ops, inr audio) ->
  exists cipher,
    ARC4.new key = inr cipher /\
    ops = [ARC4_new key; ARC4_decrypt region] /\
    audio = (if debug then debug_inspect (ARC4.decrypt cipher region)
             else ARC4.decrypt cipher region).
Proof.
  unfold decrypt_audio, arc4_new, arc4_decrypt.
  destruct (ARC4.new key) as [e|cipher]; cbn [bind ret app].
  - discriminate.
  - intros H. injection H as <- <-. now exists cipher.
Qed.

(** The audio stage fails only when the key length is refused. *)
Lemma decrypt_audio_raises (key region : bytes) (debug : bool)
                           (ops : list cipher_op) (e : py_exception) :
  decrypt_audio key region debug = (ops, inl e) ->
  e = ValueError "Incorrect ARC4 key length".
Proof.
  unfold decrypt_audio, arc4_new, arc4_decrypt, ARC4.new.
  destruct (ARC4.key_size_ok (len key)); cbn [bind ret app].
  - discriminate.
  - intros H. now injection H as <- <-.
Qed.

End StreamCipher.

(** ** The whole decoder, stage by stage *)

Section Stages.

Lemma read_u32_inv (data : bytes) (lo hi : N) (ops : list cipher_op)
                   (r : result N) :
  read_u32 data lo hi = (ops, r) ->
  ops = [] /\ Struct.unpack_u32_le (slice data lo hi) = r.
Proof. unfold read_u32, lift. intros H. now injection H as <- <-. Qed.

Lemma unpack_raises (buf : bytes) (e : py_exception) :
  Struct.unpack_u32_le buf = inl e ->
  e = struct_error "unpack requires a buffer of 4 bytes".
Proof.
  destruct buf as [|b0 [|b1 [|b2 [|b3 [|b4 buf]]]]]; cbn [Struct.unpack_u32_le];
    intros H; try discriminate; now injection H as <-.
Qed.

(** A run that returns went through every stage, at the offsets of the
    container layout. *)
Lemma decrypt_ncm_body_ok (data : bytes) (debug : bool) (ops : list cipher_op)
                          (audio : bytes) (meta : Json.value) :
  decrypt_ncm_body data debug = (ops, inr (audio, meta)) ->
  exists N1 N2 N3 key ops_k ops_m ops_a,
    startswith data MAGIC_HEADER = true /\
    Struct.unpack_u32_le (slice data 8 12) = inr N1 /\
    key_unlock (slice data 12 (12 + N1)) = (ops_k, inr key) /\
    Struct.unpack_u32_le (slice data (12 + N1) (16 + N1)) = inr N2 /\
    decrypt_meta (slice data (16 + N1) (16 + N1 + N2)) = (ops_m, inr meta) /\
    Struct.unpack_u32_le (slice data (25 + N1 + N2) (29 + N1 + N2)) = inr N3 /\
    decrypt_audio key (drop (29 + N1 + N2 + N3) data) debug = (ops_a, inr audio) /\
    ops = ops_k ++ ops_m ++ ops_a.
Proof.
  unfold decrypt_ncm_body.
  destruct (startswith data MAGIC_HEADER) eqn:Hmagic; cbn [negb]; [|discriminate].
  change (len MAGIC_HEADER) with 8. intros H.
  apply bind_ok_inv in H as (o1 & N1 & o1' & H1 & H & ->).
  apply read_u32_inv in H1 as [-> H1].
  apply bind_ok_inv in H as (ops_k & key & o2' & Hk & H & ->).
  apply bind_ok_inv in H as (o3 & N2 & o3' & H2 & H & ->).
  apply read_u32_inv in H2 as [-> H2].
  apply bind_ok_inv in H as (ops_m & meta' & o4' & Hm & H & ->).
  apply bind_ok_inv in H as (o5 & N3 & o5' & H3 & H & ->).
  apply read_u32_inv in H3 as [-> H3].
  apply bind_ok_inv in H as (ops_a & audio' & o6' & Ha & H & ->).
  unfold ret in H. injection H as <- <- <-.
  exists N1, N2, N3, key, ops_k, ops_m, ops_a.
  replace (8 + 4 + N1) with (12 + N1) in * by lia.
  replace (12 + N1 + 4) with (16 + N1) in * by lia.
  replace (16 + N1 + N2 + 4 + 5) with (25 + N1 + N2) in * by lia.
  replace (16 + N1 + N2 + 4 + 9) with (29 + N1 + N2) in * by lia.
  replace (16 + N1 + N2 + 4 + 9 + N3) with (29 + N1 + N2 + N3) in * by lia.
  cbn [app]. rewrite app_nil_r.
  repeat split; assumption.
Qed.

End Stages.

(** ** Audio: the round trip *)

(** C6, as stated, fails: run with [debug], the decoder returns this
    container's audio without its first two bytes, and re-encrypting what
    it returned does not give the audio region back. *)
Lemma debug_run_breaks_round_trip :
  ~ TestableProperties.audio_round_trips Inputs.debug_container true.
Proof.
  intros H.
  destruct (decrypt_ncm Inputs.debug_container true) as [ops [e|[audio meta]]] eqn:E.
  - vm_compute in E. discriminate E.
  - destruct (H ops audio meta E)
      as (key & cipher & N1 & N2 & N3 & H1 & H2 & H3 & _ & _ & Henc).
    assert (Hlen : List.length audio = 7%nat).
    { vm_compute in E. now injection E as _ <- _. }
    vm_compute in H1. injection H1 as <-.
    vm_compute in H2. injection H2 as <-.
    vm_compute in H3. injection H3 as <-.
    apply (f_equal (@List.length byte)) in Henc.
    unfold ARC4.encrypt, ARC4.decrypt in Henc.
    assert (Hcrypt : forall S i j x, List.length (ARC4.crypt S i j x) = List.length x).
    { intros S i j x. revert S i j.
      induction x as [|b x IH]; intros S i j; cbn [ARC4.crypt List.length];
        [reflexivity|now rewrite IH]. }
    rewrite Hcrypt, Hlen in Henc.
    vm_compute in Henc. discriminate Henc.
Qed.

(** C6, amended: run without [debug], the decoder round-trips: for every
    container it decodes, re-encrypting the returned audio with a fresh
    RC4 cipher made from the key of that run gives back exactly the bytes
    of the container from offset 29 + N1 + N2 + N3 on; and for every key
    that RC4 accepts and every byte sequence, the RC4 transform applied
    twice from a fresh cipher is the identity. *)
Theorem audio_round_trip (data : bytes) :
  TestableProperties.audio_round_trips data false /\
  (forall key cipher x,
     ARC4.new key = inr cipher ->
     ARC4.decrypt cipher (ARC4.encrypt cipher x) = x).
Proof.
  split; [|intros key cipher x; apply arc4_self_inverse].
  intros ops audio meta H.
  unfold decrypt_ncm in H.
  destruct (decrypt_ncm_body data false) as [ops' [e|r]] eqn:E; [discriminate|].
  injection H as -> ->.
  apply decrypt_ncm_body_ok in E
    as (N1 & N2 & N3 & key & ops_k & ops_m & ops_a
        & _ & H1 & _ & H2 & _ & H3 & Ha & ->).
  apply decrypt_audio_ok in Ha as (cipher & Hnew & -> & ->).
  exists key, cipher, N1, N2, N3.
  repeat split; try assumption.
  - apply in_or_app. right. apply in_or_app. right. now left.
  - apply crypt_twice.
Qed.

Lemma audio_round_trip_witness :
  exists key cipher,
    ARC4.new key = inr cipher /\
    ARC4.encrypt cipher (b_ "xx" ++ [xff; xe3] ++ b_ "frame")
    = drop (29 + 48 + 88 + 0) Inputs.debug_container.
Proof.
  destruct (decrypt_ncm Inputs.debug_container false) as [ops [e|[audio meta]]] eqn:E.
  - vm_compute in E. discriminate E.
  - destruct (proj1 (audio_round_trip Inputs.debug_container) ops audio meta E)
      as (key & cipher & N1 & N2 & N3 & H1 & H2 & H3 & _ & Hnew & Henc).
    vm_compute in H1. injection H1 as <-.
    vm_compute in H2. injection H2 as <-.
    vm_compute in H3. injection H3 as <-.
    assert (Haudio : audio = b_ "xx" ++ [xff; xe3] ++ b_ "frame").
    { vm_compute in E. injection E as _ <- _. reflexivity. }
    rewrite Haudio in Henc.
    exists key, cipher. split; [exact Hnew|exact Henc].
Defined.

(** ** Declared lengths that exceed the buffer *)

(** C1, as stated, fails.  For the cover image: this container declares
    40 cover bytes and has 3 left, and the decoder returns, with empty
    audio.  For the key box: a container that ends after a key length of
    100 fails in the key check, with "Invalid key header". *)
Lemma declared_lengths_are_not_checked :
  (exists meta,
     Struct.unpack_u32_le (slice Inputs.short_cover_container 161 165) = inr 40 /\
     len Inputs.short_cover_container - 165 = 3 /\
     snd (decrypt_ncm Inputs.short_cover_container false) = inr ([], meta)) /\
  snd (decrypt_ncm (MAGIC_HEADER ++ Struct.pack_u32_le 100) false)
  = inl (Failed_to_decrypt_NCM_file invalid_key_header).
Proof.
  split.
  - eexists.
    split; [vm_compute; reflexivity|].
    split; [vm_compute; reflexivity|].
    vm_compute. reflexivity.
  - vm_compute. reflexivity.
Qed.

(** C1, amended: slices are clipped, never refused.  A key box whose
    declared length N1 exceeds the bytes left after the length field makes
    the decoder fail, with "Invalid key header", with "Decrypted key is
    empty", or with the struct error of the metadata length that can then
    not be read.  A cover length N3 that exceeds the bytes left does not:
    the audio region is then empty, and a run that returns, returns empty
    audio. *)
Theorem overlong_declared_lengths (data : bytes) (debug : bool) :
  (forall N1,
     startswith data MAGIC_HEADER = true ->
     Struct.unpack_u32_le (slice data 8 12) = inr N1 ->
     len data - 12 < N1 ->
     exists ops e,
       decrypt_ncm data debug = (ops, inl (Failed_to_decrypt_NCM_file e)) /\
       (e = invalid_key_header \/
        e = ValueError "Decrypted key is empty" \/
        e = struct_error "unpack requires a buffer of 4 bytes")) /\
  (forall N1 N2 N3 ops audio meta,
     Struct.unpack_u32_le (slice data 8 12) = inr N1 ->
     Struct.unpack_u32_le (slice data (12 + N1) (16 + N1)) = inr N2 ->
     Struct.unpack_u32_le (slice data (25 + N1 + N2) (29 + N1 + N2)) = inr N3 ->
     len data - (29 + N1 + N2) < N3 ->
     decrypt_ncm data debug = (ops, inr (audio, meta)) ->
     audio = []).
Proof.
  split.
  - intros N1 Hmagic H1 Hlong.
    unfold decrypt_ncm, decrypt_ncm_body. rewrite Hmagic. cbn [negb].
    change (len MAGIC_HEADER) with 8. change (8 + 4) with 12.
    unfold read_u32 at 1. rewrite H1. unfold lift at 1. cbn [bind].
    destruct (key_unlock (slice data 12 (12 + N1))) as [ops_k [e|key]] eqn:Ek;
      cbn [bind app].
    + apply key_unlock_raises in Ek. exists ops_k, e. split; [reflexivity|tauto].
    + unfold read_u32 at 1. rewrite slice_beyond by lia.
      cbn [Struct.unpack_u32_le lift bind app]. rewrite app_nil_r.
      eexists _, _. split; [reflexivity|tauto].
  - intros N1 N2 N3 ops audio meta H1 H2 H3 Hlong H.
    unfold decrypt_ncm in H.
    destruct (decrypt_ncm_body data debug) as [ops' [e|r]] eqn:E; [discriminate|].
    injection H as -> ->.
    apply decrypt_ncm_body_ok in E
      as (N1' & N2' & N3' & key & ops_k & ops_m & ops_a
          & _ & H1' & _ & H2' & _ & H3' & Ha & _).
    rewrite H1 in H1'. injection H1' as <-.
    rewrite H2 in H2'. injection H2' as <-.
    rewrite H3 in H3'. injection H3' as <-.
    apply decrypt_audio_ok in Ha as (cipher & _ & _ & ->).
    rewrite drop_beyond by lia.
    destruct debug; reflexivity.
Qed.

Lemma overlong_declared_lengths_witness :
  (exists ops e,
     decrypt_ncm (MAGIC_HEADER ++ Struct.pack_u32_le 16 ++ b_ "short") false
     = (ops, inl (Failed_to_decrypt_NCM_file e)) /\
     (e = invalid_key_header \/
      e = ValueError "Decrypted key is empty" \/
      e = struct_error "unpack requires a buffer of 4 bytes")) /\
  (exists meta,
     snd (decrypt_ncm Inputs.short_cover_container false) = inr ([], meta)).
Proof.
  split.
  - apply (proj1 (overlong_declared_lengths
                    (MAGIC_HEADER ++ Struct.pack_u32_le 16 ++ b_ "short") false) 16).
    + reflexivity.
    + reflexivity.
    + reflexivity.
  - destruct (decrypt_ncm Inputs.short_cover_container false)
      as [ops [e|[audio meta]]] eqn:E.
    + vm_compute in E. discriminate E.
    + exists meta. cbn [snd].
      rewrite (proj2 (overlong_declared_lengths Inputs.short_cover_container false)
                 48 88 40 ops audio meta); [reflexivity| | | | |exact E];
        vm_compute; reflexivity.
Defined.

(** ** Key box: the synthetic key box of the specification *)

(** A marker that is not at offset 0 is cut off together with what
    precedes it: from the shifted key box the key is exactly the 16
    letters. *)
Example shifted_key_box_recovered :
  snd (key_unlock Inputs.shifted_key_box) = inr (b_ "ABCDEFGHIJKLMNOP").
Proof. vm_compute. reflexivity. Qed.

(** C5 does not hold of the code: a marker at offset 0 is left in place
    (lines 162-216 only run when the plaintext does not start with it) and
    the padding is not removed, so the key recovered from the synthetic key
    box is the marker, the 16 letters and the 15 pad bytes; with zero
    padding it is the marker and the 16 letters.  That 48-byte key is the
    one the decoder hands to RC4. *)
Theorem synthetic_key_box_keeps_marker :
  snd (key_unlock Inputs.synthetic_key_box)
  = inr (HEADER ++ b_ "ABCDEFGHIJKLMNOP" ++ replicate 15 x0f) /\
  snd (key_unlock Inputs.synthetic_key_box_zero_padded)
  = inr (HEADER ++ b_ "ABCDEFGHIJKLMNOP") /\
  rc4_keys (fst (decrypt_ncm Inputs.synthetic_container false))
  = [HEADER ++ b_ "ABCDEFGHIJKLMNOP" ++ replicate 15 x0f].
Proof.
  split; [vm_compute; reflexivity|].
  split; [vm_compute; reflexivity|].
  vm_compute. reflexivity.
Qed.

(** ** Metadata: what is parsed is returned *)




(** ** Text codecs *)

Section Utf8Facts.

Import PyStr.

Lemma bytes_length_ind (P : bytes -> Prop) :
  (forall b, (forall b', (List.length b' < List.length b)%nat -> P b') -> P b) ->
  forall b, P b.
Proof.
  intros step b.
  assert (H : forall n b', (List.length b' < n)%nat -> P b').
  { induction n as [|n IH]; intros b' Hb; [lia|].
    apply step. intros b'' Hb''. apply IH. lia. }
  apply (H (S (List.length b))). lia.
Qed.

Lemma emit_inl (cp : N) (c : result str) (e : py_exception) :
  emit cp c = inl e -> c = inl e.
Proof. destruct c; cbn [emit]; [trivial|discriminate]. Qed.

Lemma on_error_inl (ignore : bool) (c : result str) (e : py_exception) :
  on_error ignore c = inl e ->
  (ignore = false /\ e = UnicodeDecodeError) \/ c = inl e.
Proof.
  destruct ignore; cbn [on_error]; intros H; [now right|].
  injection H as <-. now left.
Qed.

(** Decoding raises only in strict mode, and only [UnicodeDecodeError]. *)
Lemma decode_utf8_raises (ignore : bool) (b : bytes) (e : py_exception) :
  decode_utf8 ignore b = inl e -> ignore = false /\ e = UnicodeDecodeError.
Proof.
  revert e. induction b as [b IH] using bytes_length_ind. intros e.
  destruct b as [|b0 r0]; cbn [decode_utf8]; [discriminate|].
  assert (IH0 := IH r0 ltac:(cbn; lia)).
  destruct (Byte.to_N b0 <? 128).
  { intros H. apply emit_inl in H. eauto. }
  destruct (lead_byte (Byte.to_N b0)) as [[[[k lo] hi] bits]|].
  2:{ intros H. apply on_error_inl in H as [H|H]; eauto. }
  destruct r0 as [|b1 r1].
  { intros H. apply on_error_inl in H as [H|H]; [easy|discriminate]. }
  assert (IH1 := IH r1 ltac:(cbn; lia)).
  destruct (negb _).
  { intros H. apply on_error_inl in H as [H|H]; eauto. }
  destruct (k =? 1).
  { intros H. apply emit_inl in H. eauto. }
  destruct r1 as [|b2 r2].
  { intros H. apply on_error_inl in H as [H|H]; [easy|discriminate]. }
  assert (IH2 := IH r2 ltac:(cbn; lia)).
  destruct (negb _).
  { intros H. apply on_error_inl in H as [H|H]; eauto. }
  destruct (k =? 2).
  { intros H. apply emit_inl in H. eauto. }
  destruct r2 as [|b3 r3].
  { intros H. apply on_error_inl in H as [H|H]; [easy|discriminate]. }
  assert (IH3 := IH r3 ltac:(cbn; lia)).
  destruct (negb _).
  { intros H. apply on_error_inl in H as [H|H]; eauto. }
  intros H. apply emit_inl in H. eauto.
Qed.

Lemma emit_inr (cp : N) (c : result str) (s : str) :
  emit cp c = inr s -> exists s', c = inr s' /\ s = cp :: s'.
Proof.
  destruct c as [e|s']; cbn [emit]; [discriminate|].
  intros H. injection H as <-. eauto.
Qed.

Lemma on_error_inr (ignore : bool) (c : result str) (s : str) :
  on_error ignore c = inr s -> c = inr s.
Proof. destruct ignore; cbn [on_error]; [trivial|discriminate]. Qed.

Lemma lead_byte_bounds (n k lo hi bits : N) :
  lead_byte n = Some (k, lo, hi, bits) ->
  128 <= lo /\ hi <= 191 /\
  ((k = 1 /\ bits < 32) \/
   (k = 2 /\ (bits <= 12 \/ (bits = 13 /\ hi = 159) \/ 14 <= bits)) \/
   (k = 3 /\ (lo = 144 \/ 1 <= bits))).
Proof.
  unfold lead_byte.
  repeat match goal with
         | |- context [?a <=? ?b] => destruct (N.leb_spec a b)
         | |- context [?a =? ?b] => destruct (N.eqb_spec a b)
         end; cbn [andb]; intros Hsome; try discriminate;
    injection Hsome as <- <- <- <-; lia.
Qed.

Lemma not_surrogate (cp : N) : cp < 55296 \/ 57343 < cp -> is_surrogate cp = false.
Proof.
  unfold is_surrogate. intros H.
  destruct (N.leb_spec 55296 cp), (N.leb_spec cp 57343); cbn [andb]; trivial; lia.
Qed.

Lemma in_range (lo hi n : N) : negb ((lo <=? n) && (n <=? hi)) = false -> lo <= n <= hi.
Proof.
  destruct (N.leb_spec lo n), (N.leb_spec n hi); cbn; try discriminate. lia.
Qed.

(** No surrogate comes out of the decoder. *)
Lemma decode_utf8_no_surrogate (ignore : bool) (b : bytes) (s : str) :
  decode_utf8 ignore b = inr s -> Forall (fun cp => is_surrogate cp = false) s.
Proof.
  revert s. induction b as [b IH] using bytes_length_ind. intros s.
  destruct b as [|b0 r0]; cbn [decode_utf8].
  { intros H. injection H as <-. constructor. }
  assert (IH0 := IH r0 ltac:(cbn; lia)).
  destruct (N.ltb_spec (Byte.to_N b0) 128) as [Hlt|Hge].
  { intros H. apply emit_inr in H as (s' & H & ->).
    constructor; [apply not_surrogate; lia|eauto]. }
  destruct (lead_byte (Byte.to_N b0)) as [[[[k lo] hi] bits]|] eqn:Hlead.
  2:{ intros H. apply on_error_inr in H. eauto. }
  apply lead_byte_bounds in Hlead as (Hlo & Hhi & Hk).
  destruct r0 as [|b1 r1].
  { intros H. apply on_error_inr in H. injection H as <-. constructor. }
  assert (IH1 := IH r1 ltac:(cbn; lia)).
  destruct (negb _) eqn:R1.
  { intros H. apply on_error_inr in H. eauto. }
  apply in_range in R1.
  destruct (N.eqb_spec k 1) as [Hk1|Hk1].
  { intros H. apply emit_inr in H as (s' & H & ->).
    constructor; [apply not_surrogate; lia|eauto]. }
  destruct r1 as [|b2 r2].
  { intros H. apply on_error_inr in H. injection H as <-. constructor. }
  assert (IH2 := IH r2 ltac:(cbn; lia)).
  destruct (negb _) eqn:R2.
  { intros H. apply on_error_inr in H. eauto. }
  apply negb_false_iff in R2.
  destruct (N.eqb_spec k 2) as [Hk2|Hk2].
  { intros H. apply emit_inr in H as (s' & H & ->).
    constructor; [|eauto].
    unfold is_cont in R2. apply andb_true_iff in R2 as [Ra Rb].
    apply N.leb_le in Ra, Rb. apply not_surrogate. lia. }
  destruct r2 as [|b3 r3].
  { intros H. apply on_error_inr in H. injection H as <-. constructor. }
  assert (IH3 := IH r3 ltac:(cbn; lia)).
  destruct (negb _) eqn:R3.
  { intros H. apply on_error_inr in H. eauto. }
  intros H. apply emit_inr in H as (s' & H & ->).
  constructor; [|eauto].
  unfold is_cont in R2. apply andb_true_iff in R2 as [Ra Rb].
  apply N.leb_le in Ra, Rb. apply not_surrogate. lia.
Qed.
End Utf8Facts.

(** ** Padding and base64 *)

Section MoreFacts.
Import PyStr.

Lemma take_no_surrogate (n : N) (s : str) :
  Forall (fun cp => is_surrogate cp = false) s ->
  Forall (fun cp => is_surrogate cp = false) (PyStr.take n s).
Proof.
  intros H. revert n. induction H as [|cp s Hcp _ IH]; intros n; cbn [PyStr.take].
  - constructor.
  - destruct (n =? 0); constructor; auto.
Qed.

Lemma encode_utf8_returns (s : str) :
  Forall (fun cp => is_surrogate cp = false) s -> exists b, encode_utf8 s = inr b.
Proof.
  induction 1 as [|cp s Hcp _ [b IH]]; cbn [encode_utf8].
  - now exists [].
  - rewrite Hcp, IH. eauto.
Qed.

Lemma unpad_raises (padded_data : bytes) (block_size : N) (e : py_exception) :
  Padding.unpad padded_data block_size = inl e ->
  exists msg, e = ValueError msg /\
              ErrorTaxonomy.kind_of e = Some ErrorTaxonomy.MetadataDecodeError.
Proof.
  unfold Padding.unpad.
  repeat match goal with
         | |- context [if ?c then _ else _] => destruct c
         end; intros H; try discriminate; injection H as <-; eauto.
Qed.

Lemma b64decode_raises (quad_pos leftchar pads : N) (out_rev data : bytes)
                       (e : py_exception) :
  Base64.decode_loop quad_pos leftchar pads out_rev data = inl e ->
  exists msg, e = binascii_Error msg.
Proof.
  revert quad_pos leftchar pads out_rev.
  induction data as [|c rest IH]; intros quad_pos leftchar pads out_rev;
    cbn [Base64.decode_loop].
  - repeat match goal with
           | |- context [if ?c then _ else _] => destruct c
           end; intros H; try discriminate; injection H as <-; eauto.
  - repeat match goal with
           | |- context [if ?c then _ else _] => destruct c
           | |- context [match Base64.a2b ?c with _ => _ end] => destruct (Base64.a2b c)
           end; try discriminate; apply IH.
Qed.

End MoreFacts.

(** ** The JSON scanner *)

Section JsonFacts.

Import PyStr Json ErrorTaxonomy.

Lemma str_length_ind (P : str -> Prop) :
  (forall s, (forall s', (List.length s' < List.length s)%nat -> P s') -> P s) ->
  forall s, P s.
Proof.
  intros step s.
  assert (H : forall n s', (List.length s' < n)%nat -> P s').
  { induction n as [|n IH]; intros s' Hs; [lia|].
    apply step. intros s'' Hs''. apply IH. lia. }
  apply (H (S (List.length s))). lia.
Qed.

Ltac split_matches :=
  repeat match goal with
         | |- context [if ?c then _ else _] => destruct c
         | |- context [match ?x with _ => _ end] => destruct x eqn:?
         end.

Lemma scanstring_raises (s acc_rev : str) (e : py_exception) :
  scanstring s acc_rev = inl e -> parse_failure e.
Proof.
  revert acc_rev e. induction s as [s IH] using str_length_ind. intros acc_rev e.
  destruct s as [|c t]; cbn [scanstring]; unfold error.
  - intros H. now injection H as <-.
  - split_matches; intros H; try discriminate;
      try (now injection H as <-);
      (eapply IH; [|exact H]); cbn [List.length]; lia.
Qed.

Lemma scanner_raises (depth : nat) :
  (forall s e, scan_once depth s = inl e -> parse_failure e) /\
  (forall s pairs_rev e, object_members depth s pairs_rev = inl e -> parse_failure e) /\
  (forall s items_rev e, array_items depth s items_rev = inl e -> parse_failure e).
Proof.
  induction depth as [|d (IHs & IHo & IHa)].
  - repeat split; intros; cbn in *;
      match goal with H : inl _ = inl _ |- _ => now injection H as <- end.
  - repeat split.
    + intros s e. cbn [scan_once]. unfold error.
      split_matches; intros H; try discriminate;
        try (now injection H as <-);
        try (injection H as <-);
        eauto using scanstring_raises.
    + intros s pairs_rev e. cbn [object_members]. unfold error.
      split_matches; intros H; try discriminate;
        try (now injection H as <-);
        try (injection H as <-);
        eauto using scanstring_raises.
    + intros s items_rev e. cbn [array_items]. unfold error.
      split_matches; intros H; try discriminate;
        try (now injection H as <-);
        try (injection H as <-);
        eauto using scanstring_raises.
Qed.

Lemma loads_raises (s : str) (e : py_exception) :
  loads s = inl e -> parse_failure e.
Proof.
  unfold loads, error.
  destruct (scan_once (S (2 * List.length s)) (skip_ws s)) as [e'|[v rest]] eqn:E.
  - apply (proj1 (scanner_raises _)) in E.
    split_matches; intros H; injection H as <-; solve [reflexivity|exact E].
  - split_matches; intros H; try discriminate; now injection H as <-.
Qed.
(** *** The depth given to the scanner is enough *)

Lemma skip_ws_length (s : str) : (List.length (skip_ws s) <= List.length s)%nat.
Proof.
  induction s as [|c t IH]; cbn [skip_ws List.length]; [lia|].
  destruct (is_ws c); cbn [List.length]; lia.
Qed.

Lemma scanstring_length (s acc_rev key rest : str) :
  scanstring s acc_rev = inr (key, rest) -> (List.length rest < List.length s)%nat.
Proof.
  revert acc_rev key rest. induction s as [s IH] using str_length_ind.
  intros acc_rev key rest.
  destruct s as [|c t]; cbn [scanstring]; unfold error; [discriminate|].
  split_matches; intros H; try discriminate;
    try (injection H as _ <-; cbn [List.length]; lia);
    (eapply IH in H; [|cbn [List.length]; lia]); cbn [List.length] in *; lia.
Qed.

Lemma literal_length (lit s rest : str) :
  literal lit s = Some rest -> (List.length rest + List.length lit = List.length s)%nat.
Proof.
  revert s. induction lit as [|y lit IH]; intros s; cbn [literal].
  - intros H. injection H as <-. cbn. lia.
  - destruct s as [|x s]; [discriminate|]. destruct (x =? y); [|discriminate].
    intros H. apply IH in H. cbn [List.length]. lia.
Qed.

Lemma span_digits_length (s d r : str) :
  span_digits s = (d, r) -> (List.length r <= List.length s)%nat.
Proof.
  revert d r. induction s as [|c t IH]; intros d r; cbn [span_digits].
  - intros H. injection H as _ <-. cbn. lia.
  - destruct (is_digit c).
    + destruct (span_digits t) as [d' r'] eqn:E. intros H. injection H as _ <-.
      specialize (IH _ _ eq_refl). cbn [List.length]. lia.
    + intros H. injection H as _ <-. lia.
Qed.

Lemma match_frac_length (s f r : str) :
  match_frac s = (f, r) -> (List.length r <= List.length s)%nat.
Proof.
  unfold match_frac. split_matches; intros H; injection H as _ <-;
    repeat match goal with
           | E : span_digits _ = _ |- _ => apply span_digits_length in E
           end; cbn [List.length] in *; lia.
Qed.

Lemma match_exp_length (s x r : str) :
  match_exp s = (x, r) -> (List.length r <= List.length s)%nat.
Proof.
  unfold match_exp. destruct s as [|e t]; [intros H; injection H as _ <-; lia|].
  destruct ((e =? 101) || (e =? 69)); [|intros H; injection H as _ <-; lia].
  destruct t as [|c t'']; [cbn; intros H; injection H as _ <-; cbn; lia|].
  destruct ((c =? 43) || (c =? 45));
    match goal with
    | |- context [span_digits ?u] => destruct (span_digits u) as [d r'] eqn:E
    end;
    apply span_digits_length in E; destruct d; intros H; injection H as _ <-;
    cbn [List.length] in *; lia.
Qed.

Lemma match_integer_length (s i r : str) :
  match_integer s = Some (i, r) -> (List.length r < List.length s)%nat.
Proof.
  unfold match_integer. destruct s as [|c t]; [discriminate|].
  destruct (c =? 48); [intros H; injection H as _ <-; cbn; lia|].
  destruct (is_digit c); [|discriminate].
  destruct (span_digits t) as [d r'] eqn:E. apply span_digits_length in E.
  intros H. injection H as _ <-. cbn [List.length]. lia.
Qed.

Lemma match_number_length (s rest : str) (v : value) :
  match_number s = Some (v, rest) -> (List.length rest < List.length s)%nat.
Proof.
  unfold match_number.
  assert (Hs1 : forall neg s1,
             (neg, s1) = match s with
                         | 45 :: t => (true, t)
                         | _ => (false, s)
                         end -> (List.length s1 <= List.length s)%nat).
  { intros neg s1 H. destruct s as [|c t]; [injection H as _ ->; lia|].
    destruct (N.eq_dec c 45) as [->|Hc].
    - injection H as _ ->. cbn [List.length]. lia.
    - assert (H' : (neg, s1) = (false, c :: t)).
      { rewrite H. destruct c as [|p]; [reflexivity|].
        do 7 (try destruct p as [p|p|]; try reflexivity). contradiction. }
      injection H' as _ ->. lia. }
  destruct (match s with
            | 45 :: t => (true, t)
            | _ => (false, s)
            end) as [neg s1] eqn:E1.
  specialize (Hs1 neg s1 eq_refl).
  destruct (match_integer s1) as [[i s2]|] eqn:E2; [|discriminate].
  apply match_integer_length in E2.
  destruct (match_frac s2) as [f s3] eqn:E3. apply match_frac_length in E3.
  destruct (match_exp s3) as [x s4] eqn:E4. apply match_exp_length in E4.
  destruct (f ++ x); intros H; injection H as _ <-; lia.
Qed.
Lemma scanstring_error (s acc_rev : str) (e : py_exception) :
  scanstring s acc_rev = inl e -> exists msg, e = JSONDecodeError msg.
Proof.
  revert acc_rev e. induction s as [s IH] using str_length_ind. intros acc_rev e.
  destruct s as [|c t]; cbn [scanstring]; unfold error.
  - intros H. injection H as <-. eauto.
  - split_matches; intros H; try discriminate;
      try (injection H as <-; eauto; fail);
      (eapply IH; [|exact H]); cbn [List.length]; lia.
Qed.

Ltac note_skip_ws :=
  repeat match goal with
         | E : skip_ws ?t = _ |- _ =>
             let L := fresh "L" in
             pose proof (skip_ws_length t) as L; rewrite E in L; clear E
         end;
  repeat match goal with
         | H : context [List.length (skip_ws ?t)] |- _ =>
             lazymatch goal with
             | _ : (List.length (skip_ws t) <= List.length t)%nat |- _ => fail
             | _ => pose proof (skip_ws_length t)
             end
         | |- context [List.length (skip_ws ?t)] =>
             lazymatch goal with
             | _ : (List.length (skip_ws t) <= List.length t)%nat |- _ => fail
             | _ => pose proof (skip_ws_length t)
             end
         end.

Ltac note_lengths IHs IHo IHa :=
  repeat match goal with
         | E : scanstring _ _ = inr _ |- _ => apply scanstring_length in E
         | E : literal _ _ = Some _ |- _ => apply literal_length in E
         | E : match_number _ = Some _ |- _ => apply match_number_length in E
         | E : scan_once _ _ = inr _ |- _ => apply IHs in E
         | E : object_members _ _ _ = inr _ |- _ => apply IHo in E
         | E : array_items _ _ _ = inr _ |- _ => apply IHa in E
         end;
  repeat match goal with
         | H : context [List.length (of_string ?x)] |- _ =>
             let n := eval vm_compute in (List.length (of_string x)) in
             change (List.length (of_string x)) with n in H
         end;
  note_skip_ws; cbn [List.length] in *.

(** Every value the scanner returns has consumed some text. *)
Lemma scanner_consumes (depth : nat) :
  (forall s v r, scan_once depth s = inr (v, r) ->
                 (List.length r < List.length s)%nat) /\
  (forall s pairs_rev v r, object_members depth s pairs_rev = inr (v, r) ->
                           (List.length r < List.length s)%nat) /\
  (forall s items_rev v r, array_items depth s items_rev = inr (v, r) ->
                           (List.length r < List.length s)%nat).
Proof.
  induction depth as [|d (IHs & IHo & IHa)].
  - repeat split; intros; cbn in *; discriminate.
  - repeat split.
    + intros s v r. cbn [scan_once]. unfold error.
      split_matches; intros H; try discriminate;
        try (injection H as ? ?); try (injection H as ?); subst;
        note_lengths IHs IHo IHa; lia.
    + intros s pairs_rev v r. cbn [object_members]. unfold error.
      split_matches; intros H; try discriminate;
        try (injection H as ? ?); try (injection H as ?); subst;
        note_lengths IHs IHo IHa; lia.
    + intros s items_rev v r. cbn [array_items]. unfold error.
      split_matches; intros H; try discriminate;
        try (injection H as ? ?); try (injection H as ?); subst;
        note_lengths IHs IHo IHa; lia.
Qed.
Ltac not_recursion Fs Fo Fa Cs Co Ca :=
  let H := fresh "H" in
  intros H; try discriminate H;
  try (injection H as ->);
  first
    [ match goal with
      | E : scanstring _ _ = inl _ |- _ =>
          apply scanstring_error in E as [? E]; discriminate E
      end
    | match goal with
      | E : scan_once _ _ = inl RecursionError |- _ => revert E; apply Fs
      | E : object_members _ _ _ = inl RecursionError |- _ => revert E; apply Fo
      | E : array_items _ _ _ = inl RecursionError |- _ => revert E; apply Fa
      end; note_lengths Cs Co Ca; lia ].

(** With a depth of twice the length of the text and one more, the
    scanner never runs out of depth. *)
Lemma scanner_depth_suffices (depth : nat) :
  (forall s, (2 * List.length s + 1 <= depth)%nat ->
             scan_once depth s <> inl RecursionError) /\
  (forall s pairs_rev, (2 * List.length s + 2 <= depth)%nat ->
                       object_members depth s pairs_rev <> inl RecursionError) /\
  (forall s items_rev, (2 * List.length s + 2 <= depth)%nat ->
                       array_items depth s items_rev <> inl RecursionError).
Proof.
  induction depth as [|d (Fs & Fo & Fa)].
  - repeat split; intros; lia.
  - destruct (scanner_consumes d) as (Cs & Co & Ca).
    repeat split.
    + intros s Hd. cbn [scan_once]. unfold error.
      split_matches; cbn [List.length] in Hd;
        not_recursion Fs Fo Fa Cs Co Ca.
    + intros s pairs_rev Hd. cbn [object_members]. unfold error.
      split_matches; cbn [List.length] in Hd;
        not_recursion Fs Fo Fa Cs Co Ca.
    + intros s items_rev Hd. cbn [array_items]. unfold error.
      split_matches; cbn [List.length] in Hd;
        not_recursion Fs Fo Fa Cs Co Ca.
Qed.

(** [loads] never reports a recursion error of its own making. *)
Lemma loads_depth_suffices (s : str) : loads s <> inl RecursionError.
Proof.
  unfold loads, error.
  pose proof (proj1 (scanner_depth_suffices (S (2 * List.length s))) (skip_ws s)) as F.
  pose proof (skip_ws_length s) as L.
  destruct (scan_once (S (2 * List.length s)) (skip_ws s)) as [e|[v rest]].
  - assert (Hne : e <> RecursionError) by (intros Heq; apply F; [lia|now rewrite Heq]).
    split_matches; intros Heq; try discriminate Heq; injection Heq as Heq;
      contradiction.
  - split_matches; discriminate.
Qed.

End JsonFacts.

(** ** Where the decoder can fail *)

Section StageFailures.

Import ErrorTaxonomy.


Lemma aes_decrypt_meta_returns (encrypted_meta : bytes) :
  exists ops meta, aes_decrypt_meta encrypted_meta = (ops, inr meta).
Proof.
  unfold aes_decrypt_meta. rewrite fallback_padding.
  destruct (fallback_decrypts encrypted_meta) as (plain & _ & ->). eauto.
Qed.






End StageFailures.

(** ** Totality *)


(** ** Key box: block-aligned key bytes *)

Section AlignedKeyBox.

Import KeyUnlockSpec.

Lemma pad_pkcs7_aligned (data : bytes) : len data mod 16 = 0 -> pad_pkcs7 data = data.
Proof. intros H. unfold pad_pkcs7. now rewrite H. Qed.

Lemma pad_null_aligned (data : bytes) : len data mod 16 = 0 -> pad_null data = data.
Proof.
  intros H. rewrite pad_null_zero. unfold zero_padding, pad_length. rewrite H.
  change ((16 - 0) mod 16) with 0. apply app_nil_r.
Qed.

End AlignedKeyBox.

(** X1: a key box whose length is a multiple of 16 is decrypted as it is: whichever
    padding candidate the loop accepts, and also when it accepts none and the
    fallback runs, the result is the ECB decryption of the unmasked bytes
    themselves, it is never an error, and every AES call of the stage is the
    creation of the cipher with the fixed key or the decryption of just these
    bytes. *)
Theorem aligned_key_box_plain_decryption (encrypted_key : bytes) :
  len encrypted_key mod 16 = 0 ->
  exists ops plain,
    AES.decrypt Sample.the_cipher encrypted_key = inr plain /\
    decrypt_key encrypted_key = (ops, inr plain) /\
    (forall op, In op ops -> op = AES_new AES_KEY \/ op = AES_decrypt encrypted_key).
Proof.
  intros H. unfold decrypt_key.
  pose proof (try_padding_strategies_spec padding_strategies encrypted_key) as L.
  cbn zeta in L. unfold padding_strategies in L. cbn [map] in L.
  rewrite (pad_pkcs7_aligned _ H), (pad_null_aligned _ H) in L.
  change (pad_none encrypted_key) with encrypted_key in L.
  unfold padding_strategies. rewrite L. clear L.
  destruct (ecb_decrypt_aligned _ H) as (plain & Hs & Hd).
  cbn [KeyUnlockSpec.attempted KeyUnlockSpec.first_accepted]. rewrite Hs.
  destruct (KeyUnlockSpec.accepted_both_ends plain); cbn [flat_map app bind ret].
  - exists [AES_new AES_KEY; AES_decrypt encrypted_key], plain.
    repeat split; [exact Hd|]. intros op [<-|[<-|[]]]; auto.
  - rewrite fallback_padding, (pad_pkcs7_aligned _ H).
    rewrite aes_new_key. unfold aes_decrypt. cbn [bind]. rewrite Hd.
    eexists _, plain. split; [reflexivity|]. split; [reflexivity|].
    intros op Hin. cbn [app In] in Hin.
    repeat (destruct Hin as [<-|Hin]; [auto|]). destruct Hin.
Qed.

Lemma aligned_key_box_plain_decryption_witness :
  exists ops plain,
    AES.decrypt Sample.the_cipher (xor_mask KEY_XOR_KEY Inputs.synthetic_key_box) = inr plain /\
    decrypt_key (xor_mask KEY_XOR_KEY Inputs.synthetic_key_box) = (ops, inr plain) /\
    (forall op, In op ops ->
       op = AES_new AES_KEY \/
       op = AES_decrypt (xor_mask KEY_XOR_KEY Inputs.synthetic_key_box)).
Proof.
  apply (aligned_key_box_plain_decryption (xor_mask KEY_XOR_KEY Inputs.synthetic_key_box)).
  vm_compute. reflexivity.
Defined.

(** ** Key box: the extracted key in closed form *)

Section KeyExtraction.

Lemma lstrip0_app (x y : bytes) :
  lstrip0 (x ++ y) = match lstrip0 x with
                     | [] => lstrip0 y
                     | _ :: _ => lstrip0 x ++ y
                     end.
Proof.
  induction x as [|b x IH]; [reflexivity|].
  cbn [app]. destruct b; try reflexivity. exact IH.
Qed.

Lemma rstrip0_app (a b : bytes) :
  rstrip0 a = a -> rstrip0 (a ++ b) = a ++ rstrip0 b.
Proof.
  unfold rstrip0. intros Ha. rewrite rev_app_distr, lstrip0_app.
  destruct (lstrip0 (rev b)) as [|c r] eqn:E.
  - cbn [rev]. now rewrite Ha, app_nil_r.
  - rewrite rev_app_distr, rev_involutive. reflexivity.
Qed.

Lemma rstrip0_nonzero (x : byte) : x <> x00 -> rstrip0 [x] = [x].
Proof. intros H. destruct x; try reflexivity. contradiction. Qed.

Lemma rstrip0_header : rstrip0 HEADER = HEADER.
Proof. reflexivity. Qed.

Lemma lstrip0_head (b : bytes) (x : byte) (t : bytes) :
  lstrip0 b = x :: t -> x <> x00.
Proof.
  induction b as [|c b IH]; [discriminate|].
  destruct c; cbn [lstrip0]; try (intros H; injection H as <- _; discriminate).
  exact IH.
Qed.

(** Stripping trailing zero bytes keeps a first byte that is not zero. *)
Lemma rstrip0_keeps_head (x : byte) (t : bytes) :
  x <> x00 -> rstrip0 (x :: t) = x :: rstrip0 t.
Proof.
  intros H. change (x :: t) with ([x] ++ t).
  now rewrite rstrip0_app by now apply rstrip0_nonzero.
Qed.

Lemma find_from_ge (i j : N) (b sub : bytes) :
  find_from i b sub = Some j -> i <= j.
Proof.
  revert i. induction b as [|x t IH]; intros i; rewrite find_from_unfold.
  - destruct (startswith [] sub); [|discriminate]. intros H. injection H as <-. lia.
  - destruct (startswith (x :: t) sub).
    + intros H. injection H as <-. lia.
    + intros H. apply IH in H. lia.
Qed.

Lemma find_zero_startswith (b sub : bytes) :
  find b sub = Some 0 <-> startswith b sub = true.
Proof.
  unfold find. rewrite find_from_unfold. destruct (startswith b sub).
  - tauto.
  - split; [|discriminate]. destruct b as [|x t]; [discriminate|].
    intros H. apply find_from_ge in H. lia.
Qed.

Lemma find_nonzero_startswith (b sub : bytes) (i : N) :
  find b sub = Some i -> i <> 0 -> startswith b sub = false.
Proof.
  intros H Hi. destruct (startswith b sub) eqn:E; [|reflexivity].
  apply find_zero_startswith in E. rewrite E in H. injection H as <-. contradiction.
Qed.

End KeyExtraction.

(** The three cases of the key extraction of lines 156-223. *)
Lemma extract_key_cases (decrypted_key : bytes) :
  let plain := lstrip0 decrypted_key in
  extract_key decrypted_key
  = match find plain HEADER with
    | Some i =>
        if i =? 0 then ret (rstrip0 plain)
        else
          let key := rstrip0 (drop (i + 17) plain) in
          if len key =? 0 then raise (ValueError "Decrypted key is empty")
          else ret key
    | None =>
        if 16 <=? len plain then ret (rstrip0 plain)
        else raise invalid_key_header
    end.
Proof.
  cbn zeta. set (plain := lstrip0 decrypted_key).
  assert (Hne : forall x t, plain = x :: t -> (len (rstrip0 plain) =? 0) = false).
  { intros x t E. pose proof (lstrip0_head _ _ _ E) as Hx.
    rewrite E, (rstrip0_keeps_head _ _ Hx), len_cons.
    apply N.eqb_neq. lia. }
  unfold extract_key. fold plain.
  destruct (find plain HEADER) as [i|] eqn:F.
  - destruct (N.eqb_spec i 0) as [->|Hi].
    + apply find_zero_startswith in F. rewrite F. cbn [negb].
      rewrite bind_ret_l.
      destruct plain as [|x t] eqn:E; [discriminate F|].
      now rewrite (Hne x t eq_refl).
    + rewrite (find_nonzero_startswith _ _ _ F Hi). cbn [negb].
      rewrite search_header_spec by apply lstrip0_idem.
      unfold KeyUnlockSpec.fallback_searches. cbn [KeyUnlockSpec.first_success].
      unfold KeyUnlockSpec.marker_at_any_offset. fold plain. rewrite F.
      rewrite bind_ret_l. reflexivity.
  - assert (S : startswith plain HEADER = false).
    { destruct (startswith plain HEADER) eqn:E; [|reflexivity].
      apply find_zero_startswith in E. rewrite E in F. discriminate F. }
    rewrite S. cbn [negb].
    rewrite search_header_spec by apply lstrip0_idem.
    assert (A : KeyUnlockSpec.marker_at_any_offset plain = None).
    { unfold KeyUnlockSpec.marker_at_any_offset. now rewrite F. }
    destruct (later_searches_find_nothing plain [0; 1; 2; 3; 4; 5; 6; 7] A)
      as (B & C & D).
    unfold KeyUnlockSpec.fallback_searches. cbn [KeyUnlockSpec.first_success].
    fold plain. rewrite A, B, C, D. unfold KeyUnlockSpec.verbatim.
    destruct (N.leb_spec 16 (len plain)) as [L|L]; [|reflexivity].
    rewrite bind_ret_l.
    destruct plain as [|x t] eqn:E; [rewrite len_nil in L; lia|].
    now rewrite (Hne x t eq_refl).
Qed.

(** X2: what lines 156-223 compute from the decrypted key.  With [plain] the
    decrypted key without its leading zero bytes: if the marker occurs in
    [plain] at offset 0, the key is [plain] without trailing zero bytes, marker
    included; if its first occurrence is at a later offset, the key is what
    follows that occurrence, without trailing zero bytes, and "Decrypted key
    is empty" is raised when nothing is left; if the marker does not occur,
    the key is [plain] without trailing zero bytes when [plain] has at least
    16 bytes, and "Invalid key header" is raised otherwise.  The searches by
    string, for a zero-terminated marker and for a zero-prefixed marker never
    decide anything. *)
Theorem key_extraction_closed_form (decrypted_key : bytes) :
  let plain := lstrip0 decrypted_key in
  extract_key decrypted_key
  = match find plain HEADER with
    | Some i =>
        if i =? 0 then ret (rstrip0 plain)
        else
          let key := rstrip0 (drop (i + 17) plain) in
          if len key =? 0 then raise (ValueError "Decrypted key is empty")
          else ret key
    | None =>
        if 16 <=? len plain then ret (rstrip0 plain)
        else raise invalid_key_header
    end.
Proof. exact (extract_key_cases decrypted_key). Qed.

(** X3: when the decrypted key, after its leading zero bytes, starts with the
    marker, the key that is extracted still starts with the marker: it is the
    marker followed by the rest without trailing zero bytes.  The 17 bytes of
    the marker are removed only when the marker is found at a later offset. *)
Theorem marker_at_offset_zero_is_kept (decrypted_key : bytes) :
  startswith (lstrip0 decrypted_key) HEADER = true ->
  extract_key decrypted_key
  = ret (HEADER ++ rstrip0 (drop 17 (lstrip0 decrypted_key))).
Proof.
  intros H. pose proof (extract_key_cases decrypted_key) as C. cbn zeta in C.
  rewrite C. rewrite (proj2 (find_zero_startswith _ _) H). cbn [N.eqb].
  apply startswith_prefix in H. change (len HEADER) with 17 in H.
  rewrite H at 1. now rewrite rstrip0_app by apply rstrip0_header.
Qed.

Lemma marker_at_offset_zero_is_kept_witness :
  extract_key (b_ "neteasecloudmusicABCDEFGHIJKLMNOP")
  = ret (HEADER ++ rstrip0 (drop 17 (lstrip0 (b_ "neteasecloudmusicABCDEFGHIJKLMNOP")))).
Proof.
  apply (marker_at_offset_zero_is_kept (b_ "neteasecloudmusicABCDEFGHIJKLMNOP")).
  reflexivity.
Defined.

(** ** The log of cipher calls *)

Section CipherLog.

Import KeyUnlockSpec.

Lemma log_bind {A B : Type} (P : cipher_op -> Prop) (m : M A) (f : A -> M B) :
  Forall P (fst m) ->
  (forall ops a, m = (ops, inr a) -> Forall P (fst (f a))) ->
  Forall P (fst (bind m f)).
Proof.
  destruct m as [ops [e|a]]; cbn [bind fst]; intros Hm Hf; [exact Hm|].
  specialize (Hf ops a eq_refl). destruct (f a) as [ops' r]. cbn [fst] in *.
  apply Forall_app. now split.
Qed.

Lemma attempted_aligned (accepted : bytes -> bool) (cands : list bytes) :
  Forall (fun c => len c mod 16 = 0) (attempted accepted cands).
Proof.
  induction cands as [|c rest IH]; cbn [attempted]; [constructor|].
  destruct (N.eq_dec (len c mod 16) 0) as [E|E].
  - destruct (ecb_decrypt c) as [plain|]; [|exact IH].
    constructor; [exact E|]. destruct (accepted plain); [constructor|exact IH].
  - now rewrite (ecb_decrypt_unaligned _ E).
Qed.

Lemma try_padding_strategies_log (strategies : list (bytes -> bytes))
                                 (encrypted_key : bytes) :
  Forall expected_call (fst (try_padding_strategies strategies encrypted_key)).
Proof.
  rewrite try_padding_strategies_spec. cbn [fst].
  apply Forall_flat_map. eapply Forall_impl; [|apply attempted_aligned].
  intros c Hc. repeat constructor. exact Hc.
Qed.

Lemma decrypt_key_log (encrypted_key : bytes) :
  Forall expected_call (fst (decrypt_key encrypted_key)).
Proof.
  unfold decrypt_key. apply log_bind; [apply try_padding_strategies_log|].
  intros ops [k|] _; [constructor|].
  rewrite fallback_padding.
  destruct (fallback_decrypts encrypted_key) as (plain & _ & ->). cbn [fst].
  repeat constructor. apply len_pad_pkcs7.
Qed.

Lemma search_last_resort_log (st : search_state) : fst (search_last_resort st) = [].
Proof.
  destruct st as [key [|]]; cbn [search_last_resort negb]; [reflexivity|].
  destruct (16 <=? len (lstrip0 key)); reflexivity.
Qed.

(** The key extraction makes no cipher call. *)
Lemma extract_key_log (decrypted_key : bytes) : fst (extract_key decrypted_key) = [].
Proof.
  rewrite extract_key_cases. cbn zeta.
  repeat match goal with
         | |- context [match ?x with _ => _ end] => destruct x
         | |- context [if ?c then _ else _] => destruct c
         end; reflexivity.
Qed.

Lemma rstrip0_idem (b : bytes) : rstrip0 (rstrip0 b) = rstrip0 b.
Proof. unfold rstrip0. now rewrite rev_involutive, lstrip0_idem. Qed.

(** A key that was extracted is not empty and has no trailing zero byte. *)
Lemma extract_key_ok (decrypted_key : bytes) (ops : list cipher_op) (key : bytes) :
  extract_key decrypted_key = (ops, inr key) -> key <> [] /\ rstrip0 key = key.
Proof.
  unfold extract_key. intros H.
  apply bind_ok_inv in H as (o1 & k & o2 & _ & H & _).
  destruct (N.eqb_spec (len (rstrip0 k)) 0) as [E|E]; [discriminate|].
  injection H as _ <-. split; [|apply rstrip0_idem].
  intros Hnil. rewrite Hnil in E. now apply E.
Qed.

Lemma key_unlock_ok (key_box : bytes) (ops : list cipher_op) (key : bytes) :
  key_unlock key_box = (ops, inr key) -> key <> [] /\ rstrip0 key = key.
Proof.
  unfold key_unlock. intros H.
  apply bind_ok_inv in H as (o1 & k & o2 & _ & H & _).
  now apply extract_key_ok in H.
Qed.

Lemma key_unlock_log (key_box : bytes) : Forall expected_call (fst (key_unlock key_box)).
Proof.
  unfold key_unlock. apply log_bind; [apply decrypt_key_log|].
  intros ops k _. rewrite extract_key_log. constructor.
Qed.

Lemma lift_log {A : Type} (r : result A) : fst (lift r) = [].
Proof. reflexivity. Qed.

Lemma b64decode_meta_log (m : bytes) : fst (b64decode_meta m) = [].
Proof.
  unfold b64decode_meta, try_except, lift.
  destruct (Base64.b64decode m); [|reflexivity].
  match goal with |- context [Base64.b64decode ?d] => destruct (Base64.b64decode d) end;
    reflexivity.
Qed.

Lemma remove_padding_log (meta : bytes) : fst (remove_padding meta) = [].
Proof.
  unfold remove_padding.
  destruct (Padding.unpad meta AES.block_size) as [[]|]; try reflexivity.
  unfold lift, bind. destruct (PyStr.decode_utf8 true meta); [reflexivity|].
  destruct (PyStr.rfind _ _); [|reflexivity].
  now destruct (PyStr.encode_utf8 _).
Qed.

Lemma parse_meta_log (meta : bytes) : fst (parse_meta meta) = [].
Proof.
  unfold parse_meta, lift, bind.
  destruct (PyStr.decode_utf8 false meta); [reflexivity|].
  now destruct (Json.loads _).
Qed.

Lemma nil_log (P : cipher_op -> Prop) {A : Type} (m : M A) :
  fst m = [] -> Forall P (fst m).
Proof. intros ->. constructor. Qed.

Lemma decrypt_meta_log (encrypted_meta : bytes) :
  Forall expected_call (fst (decrypt_meta encrypted_meta)).
Proof.
  unfold decrypt_meta, meta_plaintext.
  apply log_bind; [|intros; apply nil_log, parse_meta_log].
  apply log_bind; [apply nil_log, b64decode_meta_log|]. intros ops m _.
  apply log_bind; [|intros; apply nil_log, remove_padding_log].
  unfold aes_decrypt_meta. rewrite fallback_padding.
  destruct (fallback_decrypts m) as (plain & _ & ->). cbn [fst].
  repeat constructor. apply len_pad_pkcs7.
Qed.

Lemma decrypt_audio_log (key region : bytes) (debug : bool) :
  key <> [] /\ rstrip0 key = key ->
  Forall expected_call (fst (decrypt_audio key region debug)).
Proof.
  intros Hkey. unfold decrypt_audio, arc4_new, arc4_decrypt.
  destruct (ARC4.new key); cbn [bind fst ret app]; repeat constructor; apply Hkey.
Qed.

Lemma decrypt_ncm_body_log (data : bytes) (debug : bool) :
  Forall expected_call (fst (decrypt_ncm_body data debug)).
Proof.
  unfold decrypt_ncm_body.
  destruct (negb (startswith data MAGIC_HEADER)); [constructor|].
  apply log_bind; [constructor|]. intros _ N1 _.
  apply log_bind; [apply key_unlock_log|]. intros ops_k key Hk.
  apply key_unlock_ok in Hk.
  apply log_bind; [constructor|]. intros _ N2 _.
  apply log_bind; [apply decrypt_meta_log|]. intros _ meta _.
  apply log_bind; [constructor|]. intros _ N3 _.
  apply log_bind; [now apply decrypt_audio_log|]. intros _ audio _.
  constructor.
Qed.

End CipherLog.

(** X4: in every run of the decoder, on any input and with or without [debug],
    each AES cipher is created with the fixed key, each AES decryption is of
    data whose length is a multiple of 16, and each RC4 cipher is created with
    a key that is not empty and does not end in a zero byte. *)
Theorem every_cipher_call_is_as_expected (data : bytes) (debug : bool) :
  Forall expected_call (fst (decrypt_ncm data debug)).
Proof.
  unfold decrypt_ncm.
  pose proof (decrypt_ncm_body_log data debug) as H.
  destruct (decrypt_ncm_body data debug) as [ops [e|r]]; exact H.
Qed.

(** ** Where a failure comes from *)

Section FailureStages.

Import ErrorTaxonomy.

Lemma b64decode_meta_kind (encrypted_meta : bytes) (ops : list cipher_op)
                          (e : py_exception) :
  b64decode_meta encrypted_meta = (ops, inl e) ->
  kind_of e = Some MetadataDecodeError.
Proof.
  unfold b64decode_meta, try_except, lift, Base64.b64decode.
  destruct (Base64.decode_loop 0 0 0 [] encrypted_meta); [|discriminate].
  match goal with
  | |- context [Base64.decode_loop 0 0 0 [] ?d] =>
      destruct (Base64.decode_loop 0 0 0 [] d) as [e'|] eqn:E
  end; intros H; [|discriminate].
  injection H as _ <-. now apply b64decode_raises in E as [msg ->].
Qed.

Lemma remove_padding_kind (meta : bytes) (ops : list cipher_op) (e : py_exception) :
  remove_padding meta = (ops, inl e) -> kind_of e = Some MetadataDecodeError.
Proof.
  unfold remove_padding.
  destruct (Padding.unpad meta AES.block_size) as [e'|m] eqn:U; [|discriminate].
  apply unpad_raises in U as (msg & -> & K).
  destruct (PyStr.decode_utf8 true meta) as [e'|meta_str] eqn:D.
  - apply decode_utf8_raises in D as [D _]. discriminate D.
  - unfold lift at 1. cbn [bind].
    destruct (PyStr.rfind meta_str 125) as [json_end|].
    + apply decode_utf8_no_surrogate in D.
      destruct (encode_utf8_returns _ (take_no_surrogate (json_end + 1) _ D)) as [b ->].
      discriminate.
    + unfold raise. intros H. now injection H as _ <-.
Qed.

Lemma parse_meta_kind (meta : bytes) (ops : list cipher_op) (e : py_exception) :
  parse_meta meta = (ops, inl e) -> kind_of e = Some MetadataParseError.
Proof.
  unfold parse_meta.
  destruct (PyStr.decode_utf8 false meta) as [e'|text] eqn:D; unfold lift; cbn [bind].
  - intros H. injection H as _ <-. now apply decode_utf8_raises in D as [_ ->].
  - destruct (Json.loads text) as [e'|v] eqn:L; intros H; [|discriminate].
    injection H as _ <-. now apply loads_raises in L.
Qed.

(** The metadata stage fails with a metadata kind. *)
Lemma decrypt_meta_kind (encrypted_meta : bytes) (ops : list cipher_op)
                        (e : py_exception) :
  decrypt_meta encrypted_meta = (ops, inl e) ->
  kind_of e = Some MetadataDecodeError \/ kind_of e = Some MetadataParseError.
Proof.
  unfold decrypt_meta, meta_plaintext. intros H.
  apply bind_raise_inv in H as [H|(o1 & plain & o2 & _ & H & _)];
    [|right; now apply parse_meta_kind in H].
  left.
  apply bind_raise_inv in H as [H|(o1 & m1 & o2 & _ & H & _)];
    [now apply b64decode_meta_kind in H|].
  apply bind_raise_inv in H as [H|(o3 & m2 & o4 & _ & H & _)];
    [|now apply remove_padding_kind in H].
  destruct (aes_decrypt_meta_returns m1) as (o5 & m3 & E). rewrite E in H.
  discriminate H.
Qed.

(** A run that raises stopped in one of seven places. *)
Lemma decrypt_ncm_body_fails (data : bytes) (debug : bool) (ops : list cipher_op)
                             (e : py_exception) :
  decrypt_ncm_body data debug = (ops, inl e) ->
  (startswith data MAGIC_HEADER = false /\
   e = ValueError "Not a valid NCM file" /\ ops = []) \/
  (startswith data MAGIC_HEADER = true /\
   ((Struct.unpack_u32_le (slice data 8 12) = inl e /\ ops = []) \/
    exists N1,
      Struct.unpack_u32_le (slice data 8 12) = inr N1 /\
      (key_unlock (slice data 12 (12 + N1)) = (ops, inl e) \/
       exists ops_k key,
         key_unlock (slice data 12 (12 + N1)) = (ops_k, inr key) /\
         ((Struct.unpack_u32_le (slice data (12 + N1) (16 + N1)) = inl e /\
           ops = ops_k) \/
          exists N2,
            Struct.unpack_u32_le (slice data (12 + N1) (16 + N1)) = inr N2 /\
            ((exists ops_m,
                decrypt_meta (slice data (16 + N1) (16 + N1 + N2)) = (ops_m, inl e) /\
                ops = ops_k ++ ops_m) \/
             exists ops_m meta,
               decrypt_meta (slice data (16 + N1) (16 + N1 + N2)) = (ops_m, inr meta) /\
               ((Struct.unpack_u32_le (slice data (25 + N1 + N2) (29 + N1 + N2)) = inl e /\
                 ops = ops_k ++ ops_m) \/
                exists N3 ops_a,
                  Struct.unpack_u32_le (slice data (25 + N1 + N2) (29 + N1 + N2)) = inr N3 /\
                  decrypt_audio key (drop (29 + N1 + N2 + N3) data) debug = (ops_a, inl e) /\
                  ops = ops_k ++ ops_m ++ ops_a)))))).
Proof.
  unfold decrypt_ncm_body.
  destruct (startswith data MAGIC_HEADER) eqn:Hmagic; cbn [negb].
  2:{ unfold raise. intros H. injection H as <- <-. left. auto. }
  change (len MAGIC_HEADER) with 8. change (8 + 4) with 12. intros H. right.
  split; [reflexivity|].
  apply bind_raise_inv in H as [H|(o1 & N1 & o1' & H1 & H & ->)].
  { apply read_u32_inv in H as [-> H]. now left. }
  apply read_u32_inv in H1 as [-> H1]. right. exists N1. split; [exact H1|].
  cbn [app].
  apply bind_raise_inv in H as [H|(ops_k & key & o2' & Hk & H & ->)]; [now left|].
  right. exists ops_k, key. split; [exact Hk|].
  replace (12 + N1 + 4) with (16 + N1) in H by lia.
  apply bind_raise_inv in H as [H|(o3 & N2 & o3' & H2 & H & ->)].
  { apply read_u32_inv in H as [-> H]. left. now rewrite app_nil_r. }
  apply read_u32_inv in H2 as [-> H2]. right. exists N2. split; [exact H2|].
  cbn [app].
  apply bind_raise_inv in H as [H|(ops_m & meta & o4' & Hm & H & ->)].
  { left. now exists o3'. }
  right. exists ops_m, meta. split; [exact Hm|].
  replace (16 + N1 + N2 + 4 + 5) with (25 + N1 + N2) in H by lia.
  replace (16 + N1 + N2 + 4 + 9) with (29 + N1 + N2) in H by lia.
  apply bind_raise_inv in H as [H|(o5 & N3 & o5' & H3 & H & ->)].
  { apply read_u32_inv in H as [-> H]. left. now rewrite app_nil_r. }
  apply read_u32_inv in H3 as [-> H3]. right. cbn [app].
  apply bind_raise_inv in H as [H|(o6 & audio & o6' & _ & H & _)]; [|discriminate H].
  now exists N3, o5'.
Qed.

(** A length field is read exactly when its four bytes are there. *)
Lemma unpack_fails_iff (data : bytes) (lo : N) :
  (exists e, Struct.unpack_u32_le (slice data lo (lo + 4)) = inl e) <->
  len data < lo + 4.
Proof.
  unfold slice. replace (lo + 4 - lo) with 4 by lia.
  pose proof (len_drop lo data) as L.
  destruct (drop lo data) as [|b0 [|b1 [|b2 [|b3 r]]]]; cbn;
    rewrite ?len_cons, ?len_nil in L; split; intros H;
    try lia; try (eexists; reflexivity).
  destruct H as [e H]. destruct r; discriminate H.
Qed.

End FailureStages.

Section FailureFacts.

Import ErrorTaxonomy.

Lemma decrypt_ncm_fails (data : bytes) (debug : bool) (ops : list cipher_op)
                        (e : py_exception) :
  decrypt_ncm data debug = (ops, inl (Failed_to_decrypt_NCM_file e)) ->
  decrypt_ncm_body data debug = (ops, inl e).
Proof.
  unfold decrypt_ncm. destruct (decrypt_ncm_body data debug) as [ops' [e'|r]];
    intros H; [|discriminate]. now injection H as -> ->.
Qed.

(** No stage after the check of the magic raises its message. *)
Lemma magic_message_is_of_the_magic_check (data : bytes) (debug : bool)
    (ops : list cipher_op) :
  decrypt_ncm data debug
  = (ops, inl (Failed_to_decrypt_NCM_file (ValueError "Not a valid NCM file"))) ->
  startswith data MAGIC_HEADER = false.
Proof.
  intros H. apply decrypt_ncm_fails, decrypt_ncm_body_fails in H.
  destruct H as [(Hm & _)|(_ & H)]; [exact Hm|]. exfalso.
  destruct H as [[H _]|(N1 & _ & H)]; [apply unpack_raises in H; discriminate H|].
  destruct H as [H|(ops_k & key & _ & H)].
  { apply key_unlock_raises in H as [H|H]; discriminate H. }
  destruct H as [[H _]|(N2 & _ & H)]; [apply unpack_raises in H; discriminate H|].
  destruct H as [(ops_m & H & _)|(ops_m & meta & _ & H)].
  { apply decrypt_meta_kind in H as [H|H]; discriminate H. }
  destruct H as [[H _]|(N3 & ops_a & _ & H & _)];
    [apply unpack_raises in H; discriminate H|].
  apply decrypt_audio_raises in H. discriminate H.
Qed.

End FailureFacts.

(** X5: the decoder fails with "Not a valid NCM file" if and only if the data
    does not start with the magic constant: no later stage raises an error
    with this message. *)
Theorem not_a_valid_file_iff_magic (data : bytes) (debug : bool) :
  (exists ops,
     decrypt_ncm data debug
     = (ops, inl (Failed_to_decrypt_NCM_file (ValueError "Not a valid NCM file")))) <->
  startswith data MAGIC_HEADER = false.
Proof.
  split.
  - intros [ops H]. now apply magic_message_is_of_the_magic_check in H.
  - intros H. exists []. unfold decrypt_ncm, decrypt_ncm_body. now rewrite H.
Qed.

(** X6: when the decoder fails with a struct.error, one of the three length
    fields is cut short by the end of the data: the data has fewer than 12
    bytes, or fewer than 16 + N1, or fewer than 29 + N1 + N2, with N1 and N2
    the key and metadata lengths that were read. *)
Theorem struct_error_means_cut_length_field (data : bytes) (debug : bool)
    (ops : list cipher_op) (msg : string) :
  decrypt_ncm data debug = (ops, inl (Failed_to_decrypt_NCM_file (struct_error msg))) ->
  len data < 12 \/
  exists N1,
    Struct.unpack_u32_le (slice data 8 12) = inr N1 /\
    (len data < 16 + N1 \/
     exists N2,
       Struct.unpack_u32_le (slice data (12 + N1) (16 + N1)) = inr N2 /\
       len data < 29 + N1 + N2).
Proof.
  intros H. apply decrypt_ncm_fails, decrypt_ncm_body_fails in H.
  destruct H as [(_ & H & _)|(_ & H)]; [discriminate H|].
  destruct H as [[H _]|(N1 & H1 & H)].
  { left. apply (unpack_fails_iff data 8). eauto. }
  right. exists N1. split; [exact H1|].
  destruct H as [H|(ops_k & key & _ & H)].
  { apply key_unlock_raises in H as [H|H]; discriminate H. }
  destruct H as [[H _]|(N2 & H2 & H)].
  { left. replace (16 + N1) with (12 + N1 + 4) in * by lia.
    apply (unpack_fails_iff data (12 + N1)). eauto. }
  right. exists N2. split; [exact H2|].
  destruct H as [(ops_m & H & _)|(ops_m & meta & _ & H)].
  { apply decrypt_meta_kind in H as [H|H]; discriminate H. }
  destruct H as [[H _]|(N3 & ops_a & _ & H & _)].
  { replace (29 + N1 + N2) with (25 + N1 + N2 + 4) in * by lia.
    apply (unpack_fails_iff data (25 + N1 + N2)). eauto. }
  apply decrypt_audio_raises in H. discriminate H.
Qed.

Lemma struct_error_means_cut_length_field_witness :
  len (MAGIC_HEADER ++ Struct.pack_u32_le 16 ++ b_ "short") < 12 \/
  exists N1,
    Struct.unpack_u32_le (slice (MAGIC_HEADER ++ Struct.pack_u32_le 16 ++ b_ "short") 8 12)
    = inr N1 /\
    (len (MAGIC_HEADER ++ Struct.pack_u32_le 16 ++ b_ "short") < 16 + N1 \/
     exists N2,
       Struct.unpack_u32_le
         (slice (MAGIC_HEADER ++ Struct.pack_u32_le 16 ++ b_ "short") (12 + N1) (16 + N1))
       = inr N2 /\
       len (MAGIC_HEADER ++ Struct.pack_u32_le 16 ++ b_ "short") < 29 + N1 + N2).
Proof.
  destruct (decrypt_ncm (MAGIC_HEADER ++ Struct.pack_u32_le 16 ++ b_ "short") false)
    as [ops r] eqn:E.
  assert (Hr : r = inl (Failed_to_decrypt_NCM_file
                          (struct_error "unpack requires a buffer of 4 bytes"))).
  { vm_compute in E. now injection E as _ <-. }
  rewrite Hr in E.
  exact (struct_error_means_cut_length_field _ _ _ _ E).
Defined.

(** X7: when the decoder fails with "Incorrect ARC4 key length", an RC4
    cipher was asked for with a key of more than 256 bytes: the other way to
    get this error, an empty key, is excluded by the check of line 222. *)
Theorem stream_cipher_error_means_long_key (data : bytes) (debug : bool)
    (ops : list cipher_op) :
  decrypt_ncm data debug
  = (ops, inl (Failed_to_decrypt_NCM_file (ValueError "Incorrect ARC4 key length"))) ->
  exists key, In (ARC4_new key) ops /\ 256 < len key.
Proof.
  intros H. apply decrypt_ncm_fails, decrypt_ncm_body_fails in H.
  destruct H as [(_ & H & _)|(_ & H)]; [discriminate H|].
  destruct H as [[H _]|(N1 & _ & H)]; [apply unpack_raises in H; discriminate H|].
  destruct H as [H|(ops_k & key & Hk & H)].
  { apply key_unlock_raises in H as [H|H]; discriminate H. }
  destruct H as [[H _]|(N2 & _ & H)]; [apply unpack_raises in H; discriminate H|].
  destruct H as [(ops_m & H & _)|(ops_m & meta & _ & H)].
  { apply decrypt_meta_kind in H as [H|H]; discriminate H. }
  destruct H as [[H _]|(N3 & ops_a & _ & H & ->)];
    [apply unpack_raises in H; discriminate H|].
  exists key. apply key_unlock_ok in Hk as [Hne _].
  unfold decrypt_audio, arc4_new, ARC4.new, ARC4.key_size_ok in H.
  destruct (N.leb_spec 1 (len key)) as [L1|L1].
  - destruct (N.leb_spec (len key) 256) as [L2|L2]; cbn [andb bind] in H.
    + discriminate H.
    + injection H as <-. split; [|exact L2].
      apply in_or_app. right. apply in_or_app. right. now left.
  - exfalso. apply Hne, len_0_nil. lia.
Qed.

(** ** Audio: what debug does to it, and its length *)

Section AudioFacts.

Lemma len_crypt (S : list N) (i j : N) (x : bytes) : len (ARC4.crypt S i j x) = len x.
Proof.
  revert S i j. induction x as [|b x IH]; intros S i j; cbn [ARC4.crypt];
    [reflexivity|]. now rewrite !len_cons, IH.
Qed.

(** [find] gives an index at which the pattern does occur. *)
Lemma find_from_index (i j : N) (b sub : bytes) :
  find_from i b sub = Some j ->
  exists k, j = i + k /\ startswith (drop k b) sub = true.
Proof.
  revert i. induction b as [|x t IH]; intros i; rewrite find_from_unfold.
  - destruct (startswith [] sub) eqn:E; [|discriminate].
    intros H. injection H as <-. exists 0. split; [lia|exact E].
  - destruct (startswith (x :: t) sub) eqn:E.
    + intros H. injection H as <-. exists 0. split; [lia|exact E].
    + intros H. apply IH in H as (k & -> & H). exists (N.succ k).
      split; [lia|]. now rewrite drop_succ.
Qed.

Lemma bytes_eqb_len (a b : bytes) : bytes_eqb a b = true -> len a = len b.
Proof. intros H. apply bytes_eqb_eq in H. now subst. Qed.

Lemma len_take (n : N) (b : bytes) : len (take n b) = N.min n (len b).
Proof.
  revert n. induction b as [|x b IH]; intros n; cbn [take].
  - rewrite len_nil. lia.
  - destruct (N.eqb_spec n 0) as [->|Hn]; [rewrite len_nil; lia|].
    rewrite !len_cons, IH. lia.
Qed.

(** The three tests of line 316 compare slices of four and three bytes
    with two bytes: for audio of more than two bytes they all fail. *)
Lemma mp3_tests_fail (a : bytes) :
  2 < len a ->
  bytes_eqb (take 4 a) [xff; xfb] || bytes_eqb (take 3 a) [xff; xf3]
  || bytes_eqb (take 3 a) [xff; xf2] = false.
Proof.
  intros H.
  assert (F : forall n p, 3 <= n -> len p = 2 -> bytes_eqb (take n a) p = false).
  { intros n p Hn Hp. destruct (bytes_eqb (take n a) p) eqn:E; [|reflexivity].
    apply bytes_eqb_len in E. rewrite len_take in E. lia. }
  rewrite !F by (reflexivity || lia). reflexivity.
Qed.

Lemma debug_inspect_cases (a : bytes) :
  exists n,
    debug_inspect a = drop n a /\ n < 1024 /\
    (n = 0 \/ startswith (drop n a) [xff; xe3] = true).
Proof.
  unfold debug_inspect.
  assert (Z : exists n, a = drop n a /\ n < 1024 /\
                        (n = 0 \/ startswith (drop n a) [xff; xe3] = true)).
  { exists 0. rewrite drop_0. split; [reflexivity|split; [lia|now left]]. }
  destruct (startswith a (b_ "ID3")); [exact Z|].
  destruct (startswith a (b_ "fLaC")); [exact Z|].
  destruct (_ || _ || _); [exact Z|].
  destruct (find a [xff; xe3]) as [p|] eqn:F; [|exact Z].
  destruct (N.ltb_spec p 1024) as [L|L]; [|exact Z].
  apply find_from_index in F as (k & -> & F). cbn [N.add] in *.
  exists k. split; [reflexivity|split; [exact L|now right]].
Qed.

End AudioFacts.

(** X8: what the debug code returns is the decrypted audio without its first
    [n] bytes, for some [n] below 1024; and when [n] is not 0, what is
    returned starts with the bytes ff e3. *)
Theorem debug_returns_a_tail (decrypted_audio : bytes) :
  exists n,
    debug_inspect decrypted_audio = drop n decrypted_audio /\ n < 1024 /\
    (n = 0 \/ startswith (debug_inspect decrypted_audio) [xff; xe3] = true).
Proof.
  destruct (debug_inspect_cases decrypted_audio) as (n & E & L & H).
  exists n. rewrite E. auto.
Qed.

(** X9: the third test of the debug code, for audio that starts with ff fb,
    ff f3 or ff f2, never holds for audio of more than 2 bytes: it compares a
    slice of 4 or 3 bytes with 2 bytes.  So for audio of more than 2 bytes
    that starts neither with ID3 nor with fLaC, what the debug code returns
    is decided by the search for ff e3 alone. *)
Theorem debug_never_recognises_mp3_frames (decrypted_audio : bytes) :
  2 < len decrypted_audio ->
  startswith decrypted_audio (b_ "ID3") = false ->
  startswith decrypted_audio (b_ "fLaC") = false ->
  debug_inspect decrypted_audio
  = match find decrypted_audio [xff; xe3] with
    | Some pos => if pos <? 1024 then drop pos decrypted_audio else decrypted_audio
    | None => decrypted_audio
    end.
Proof.
  intros L H1 H2. unfold debug_inspect. rewrite H1, H2.
  now rewrite (mp3_tests_fail _ L).
Qed.

Lemma debug_never_recognises_mp3_frames_witness :
  debug_inspect ([xff; xfb; x90; x00] ++ [xff; xe3; x01])
  = match find ([xff; xfb; x90; x00] ++ [xff; xe3; x01]) [xff; xe3] with
    | Some pos =>
        if pos <? 1024 then drop pos ([xff; xfb; x90; x00] ++ [xff; xe3; x01])
        else [xff; xfb; x90; x00] ++ [xff; xe3; x01]
    | None => [xff; xfb; x90; x00] ++ [xff; xe3; x01]
    end.
Proof.
  apply (debug_never_recognises_mp3_frames ([xff; xfb; x90; x00] ++ [xff; xe3; x01]));
    reflexivity.
Defined.

(** X10: in a run that succeeds, the three length fields were read, and the
    audio returned is at most as long as the data after the cover image,
    that is after offset 29 + N1 + N2 + N3; it is shorter by less than 1024
    bytes, and it has exactly that length when [debug] is off. *)
Theorem audio_length (data : bytes) (debug : bool) (ops : list cipher_op)
    (audio : bytes) (meta : Json.value) :
  decrypt_ncm data debug = (ops, inr (audio, meta)) ->
  exists N1 N2 N3,
    Struct.unpack_u32_le (slice data 8 12) = inr N1 /\
    Struct.unpack_u32_le (slice data (12 + N1) (16 + N1)) = inr N2 /\
    Struct.unpack_u32_le (slice data (25 + N1 + N2) (29 + N1 + N2)) = inr N3 /\
    len audio <= len data - (29 + N1 + N2 + N3) /\
    len data - (29 + N1 + N2 + N3) < len audio + 1024 /\
    (debug = false -> len audio = len data - (29 + N1 + N2 + N3)).
Proof.
  intros H. unfold decrypt_ncm in H.
  destruct (decrypt_ncm_body data debug) as [ops' [e|r]] eqn:E; [discriminate|].
  injection H as -> ->.
  apply decrypt_ncm_body_ok in E
    as (N1 & N2 & N3 & key & ops_k & ops_m & ops_a
        & _ & H1 & _ & H2 & _ & H3 & Ha & _).
  apply decrypt_audio_ok in Ha as (cipher & _ & _ & ->).
  exists N1, N2, N3. repeat split; try assumption.
  - destruct debug.
    + destruct (debug_inspect_cases (ARC4.decrypt cipher (drop (29 + N1 + N2 + N3) data)))
        as (n & -> & _ & _).
      rewrite len_drop. unfold ARC4.decrypt. rewrite len_crypt, len_drop. lia.
    + unfold ARC4.decrypt. rewrite len_crypt, len_drop. lia.
  - destruct debug.
    + destruct (debug_inspect_cases (ARC4.decrypt cipher (drop (29 + N1 + N2 + N3) data)))
        as (n & -> & L & _).
      rewrite len_drop. unfold ARC4.decrypt. rewrite len_crypt, len_drop. lia.
    + unfold ARC4.decrypt. rewrite len_crypt, len_drop. lia.
  - intros ->. unfold ARC4.decrypt. now rewrite len_crypt, len_drop.
Qed.

(** ** The bytes that are skipped *)

Section SkippedBytes.

Lemma take_0 (b : bytes) : take 0 b = [].
Proof. destruct b; reflexivity. Qed.

Lemma take_app_l (n : N) (a b : bytes) : n <= len a -> take n (a ++ b) = take n a.
Proof.
  revert n. induction a as [|x a IH]; intros n H.
  - rewrite len_nil in H. replace n with 0 by lia. now rewrite take_0, take_0.
  - cbn [app take]. destruct (N.eqb_spec n 0); [reflexivity|].
    rewrite len_cons in H. rewrite IH by lia. reflexivity.
Qed.

Lemma take_app_len (a b : bytes) : take (len a) (a ++ b) = a.
Proof.
  induction a as [|x a IH]; [cbn [app]; rewrite len_nil; apply take_0|].
  cbn [app take]. rewrite len_cons.
  destruct (N.eqb_spec (N.succ (len a)) 0); [lia|].
  now rewrite N.pred_succ, IH.
Qed.

Lemma drop_app_l (n : N) (a b : bytes) : n <= len a -> drop n (a ++ b) = drop n a ++ b.
Proof.
  revert n. induction a as [|x a IH]; intros n H.
  - rewrite len_nil in H. replace n with 0 by lia. now rewrite !drop_0.
  - cbn [app drop]. destruct (N.eqb_spec n 0); [reflexivity|].
    rewrite len_cons in H. apply IH. lia.
Qed.

Lemma drop_app_ge (k : N) (a b : bytes) : drop (len a + k) (a ++ b) = drop k b.
Proof. now rewrite <- drop_drop, drop_app_len. Qed.

Lemma slice_app_l (a b : bytes) (lo hi : N) :
  hi <= len a -> slice (a ++ b) lo hi = slice a lo hi.
Proof.
  intros H. unfold slice.
  destruct (N.le_gt_cases lo (len a)) as [L|L].
  - rewrite drop_app_l by exact L. apply take_app_l. rewrite len_drop. lia.
  - replace (hi - lo) with 0 by lia. now rewrite !take_0.
Qed.

Lemma startswith_app_long (a b p : bytes) :
  len p <= len a -> startswith (a ++ b) p = startswith a p.
Proof.
  intros H. rewrite !startswith_take. now rewrite take_app_l.
Qed.

Lemma unpack_len (buf : bytes) (n : N) : Struct.unpack_u32_le buf = inr n -> len buf = 4.
Proof.
  destruct buf as [|b0 [|b1 [|b2 [|b3 [|b4 r]]]]]; cbn [Struct.unpack_u32_le];
    intros H; try discriminate H. reflexivity.
Qed.

(** The decoder on a buffer given by its parts: the nine bytes after the
    metadata box and the cover image take no part in the result. *)
Lemma decrypt_ncm_body_of_parts (head gap n3 image tail : bytes) (N1 N2 N3 : N)
                                (debug : bool) :
  Struct.unpack_u32_le (slice head 8 12) = inr N1 ->
  Struct.unpack_u32_le (slice head (12 + N1) (16 + N1)) = inr N2 ->
  len head = 16 + N1 + N2 ->
  len gap = 9 ->
  Struct.unpack_u32_le n3 = inr N3 ->
  len image = N3 ->
  decrypt_ncm_body (head ++ gap ++ n3 ++ image ++ tail) debug
  = if negb (startswith head MAGIC_HEADER)
    then raise (ValueError "Not a valid NCM file")
    else
      key <- key_unlock (slice head 12 (12 + N1)) ;;
      meta <- decrypt_meta (slice head (16 + N1) (16 + N1 + N2)) ;;
      decrypted_audio <- decrypt_audio key tail debug ;;
      ret (decrypted_audio, meta).
Proof.
  intros H1 H2 Hhead Hgap H3 Himage.
  pose proof (unpack_len _ _ H3) as Hn3.
  unfold decrypt_ncm_body.
  rewrite startswith_app_long by (change (len MAGIC_HEADER) with 8; lia).
  destruct (negb (startswith head MAGIC_HEADER)); [reflexivity|].
  change (len MAGIC_HEADER) with 8. change (8 + 4) with 12.
  unfold read_u32 at 1. rewrite slice_app_l by lia. rewrite H1.
  unfold lift at 1. cbn [bind].
  rewrite (slice_app_l head _ 12 (12 + N1)) by lia.
  destruct (key_unlock (slice head 12 (12 + N1))) as [ops_k [e|key]];
    cbn [bind app]; [reflexivity|].
  unfold read_u32 at 1. replace (12 + N1 + 4) with (16 + N1) by lia.
  rewrite slice_app_l by lia. rewrite H2. unfold lift at 1. cbn [bind app].
  rewrite (slice_app_l head _ (16 + N1) (16 + N1 + N2)) by lia.
  destruct (decrypt_meta (slice head (16 + N1) (16 + N1 + N2))) as [ops_m [e|meta]];
    cbn [bind app]; [reflexivity|].
  unfold read_u32 at 1.
  assert (S3 : slice (head ++ gap ++ n3 ++ image ++ tail)
                 (16 + N1 + N2 + 4 + 5) (16 + N1 + N2 + 4 + 9) = n3).
  { unfold slice.
    replace (16 + N1 + N2 + 4 + 9 - (16 + N1 + N2 + 4 + 5)) with (len n3) by lia.
    replace (16 + N1 + N2 + 4 + 5) with (len head + len gap) by lia.
    rewrite <- drop_drop, drop_app_len, drop_app_len. apply take_app_len. }
  rewrite S3, H3. unfold lift at 1. cbn [bind app].
  assert (D : drop (16 + N1 + N2 + 4 + 9 + N3) (head ++ gap ++ n3 ++ image ++ tail)
              = tail).
  { replace (16 + N1 + N2 + 4 + 9 + N3)
      with (len head + (len gap + (len n3 + len image))) by lia.
    rewrite <- !drop_drop. now rewrite !drop_app_len. }
  rewrite D.
  destruct (bind (decrypt_audio key tail debug) _) as [ops_a r]. reflexivity.
Qed.

End SkippedBytes.

(** X11: the decoder never looks at the 4 bytes of the checksum, at the 5 bytes
    after it, or at the bytes of the cover image: two containers that differ
    only there, with a cover of the same length, give the same result, the
    same error or the same audio and metadata, with the same cipher calls. *)
Theorem skipped_bytes_do_not_matter
    (head gap1 gap2 n3 image1 image2 tail : bytes) (N1 N2 N3 : N) (debug : bool) :
  Struct.unpack_u32_le (slice head 8 12) = inr N1 ->
  Struct.unpack_u32_le (slice head (12 + N1) (16 + N1)) = inr N2 ->
  len head = 16 + N1 + N2 ->
  len gap1 = 9 -> len gap2 = 9 ->
  Struct.unpack_u32_le n3 = inr N3 ->
  len image1 = N3 -> len image2 = N3 ->
  decrypt_ncm (head ++ gap1 ++ n3 ++ image1 ++ tail) debug
  = decrypt_ncm (head ++ gap2 ++ n3 ++ image2 ++ tail) debug.
Proof.
  intros H1 H2 Hh Hg1 Hg2 H3 Hi1 Hi2. unfold decrypt_ncm.
  rewrite (decrypt_ncm_body_of_parts head gap1 n3 image1 tail N1 N2 N3 debug)
    by assumption.
  rewrite (decrypt_ncm_body_of_parts head gap2 n3 image2 tail N1 N2 N3 debug)
    by assumption.
  reflexivity.
Qed.

(** ** Metadata: the cut at the last closing brace *)

Section Recovery.

Import PyStr.

Lemma str_take_0 (s : str) : PyStr.take 0 s = [].
Proof. destruct s; reflexivity. Qed.

Lemma rfind_from_take (i : N) (s : str) (c : N) (found : option N) (j : N) :
  rfind_from i s c found = Some j ->
  found = Some j \/ (i <= j /\ exists a, PyStr.take (j + 1 - i) s = a ++ [c]).
Proof.
  revert i found. induction s as [|x t IH]; intros i found; cbn [rfind_from].
  - now left.
  - intros H. apply IH in H as [H|(L & a & H)].
    + destruct (N.eqb_spec x c) as [->|Hx]; [|now left].
      injection H as <-. right. split; [lia|]. exists [].
      replace (i + 1 - i) with 1 by lia. cbn [PyStr.take N.eqb N.pred Pos.pred_N app].
      now rewrite str_take_0.
    + right. split; [lia|]. exists (x :: a). cbn [PyStr.take].
      destruct (N.eqb_spec (j + 1 - i) 0); [lia|].
      replace (N.pred (j + 1 - i)) with (j + 1 - N.succ i) by lia.
      now rewrite H.
Qed.

Lemma encode_utf8_app (a b : str) :
  encode_utf8 (a ++ b)
  = match encode_utf8 a, encode_utf8 b with
    | inr x, inr y => inr (x ++ y)
    | inl e, _ => inl e
    | inr _, inl e => inl e
    end.
Proof.
  induction a as [|cp a IH]; cbn [app encode_utf8].
  - now destruct (encode_utf8 b).
  - destruct (is_surrogate cp); [reflexivity|]. rewrite IH.
    destruct (encode_utf8 a); [reflexivity|].
    destruct (encode_utf8 b); [reflexivity|]. now rewrite app_assoc.
Qed.

(** What the cut at the last brace gives ends with the brace. *)
Lemma remove_padding_cases (meta : bytes) (ops : list cipher_op) (plain : bytes) :
  remove_padding meta = (ops, inr plain) ->
  Padding.unpad meta AES.block_size = inr plain \/
  ((exists msg, Padding.unpad meta AES.block_size = inl (ValueError msg)) /\
   exists before, plain = before ++ ["}"%byte]).
Proof.
  unfold remove_padding.
  destruct (Padding.unpad meta AES.block_size) as [e|m] eqn:U.
  2:{ intros H. injection H as _ <-. now left. }
  destruct e; try discriminate. intros H. right. split; [eauto|].
  apply bind_ok_inv in H as (o1 & meta_str & o2 & _ & H & _).
  destruct (rfind meta_str 125) as [json_end|] eqn:R; [|discriminate H].
  unfold rfind in R. apply rfind_from_take in R as [R|(_ & a & R)]; [discriminate R|].
  rewrite N.sub_0_r in R. rewrite R, encode_utf8_app in H. unfold lift in H.
  destruct (encode_utf8 a) as [e|x]; [discriminate H|].
  cbn in H. injection H as _ <-. now exists x.
Qed.

End Recovery.

(** X12: when [unpad] refuses the decrypted metadata and the removal of the
    padding still succeeds, what it returns ends with a closing brace: it is
    the text cut after its last closing brace. *)
Theorem recovered_metadata_ends_with_brace (meta : bytes) (ops : list cipher_op)
    (plain : bytes) (e : py_exception) :
  Padding.unpad meta AES.block_size = inl e ->
  remove_padding meta = (ops, inr plain) ->
  exists before, plain = before ++ ["}"%byte].
Proof.
  intros U H. apply remove_padding_cases in H as [H|[_ H]]; [|exact H].
  rewrite U in H. discriminate H.
Qed.

(** ** Empty boxes *)

Section EmptyBoxes.

Lemma slice_empty (data : bytes) (lo : N) : slice data lo (lo + 0) = [].
Proof. unfold slice. replace (lo + 0 - lo) with 0 by lia. apply take_0. Qed.

Lemma key_unlock_empty :
  exists ops, key_unlock [] = (ops, inl invalid_key_header).
Proof. eexists. vm_compute. reflexivity. Qed.

Lemma decrypt_meta_nothing (encrypted_meta : bytes) :
  Base64.b64decode (xor_mask META_XOR_KEY encrypted_meta) = inr [] ->
  decrypt_meta encrypted_meta
  = ([AES_new AES_KEY; AES_decrypt []],
     inl (ValueError "Zero-length input cannot be unpadded")).
Proof.
  intros H. unfold decrypt_meta, meta_plaintext, b64decode_meta, try_except.
  rewrite H. unfold lift at 1. cbn [bind].
  unfold aes_decrypt_meta. rewrite fallback_padding.
  change (pad_pkcs7 []) with (@nil byte).
  rewrite aes_new_key. unfold aes_decrypt.
  change (AES.decrypt Sample.the_cipher []) with (@inr py_exception bytes []).
  reflexivity.
Qed.

End EmptyBoxes.

(** X13: a container with the magic whose key length field is 0 is always
    refused with "Invalid key header": decrypting no bytes gives no bytes,
    which hold no marker and are fewer than 16. *)
Theorem empty_key_box_is_refused (data : bytes) (debug : bool) :
  startswith data MAGIC_HEADER = true ->
  Struct.unpack_u32_le (slice data 8 12) = inr 0 ->
  snd (decrypt_ncm data debug) = inl (Failed_to_decrypt_NCM_file invalid_key_header).
Proof.
  intros Hm H1. unfold decrypt_ncm, decrypt_ncm_body. rewrite Hm. cbn [negb].
  change (len MAGIC_HEADER) with 8. change (8 + 4) with 12.
  unfold read_u32 at 1. rewrite H1. unfold lift at 1. cbn [bind].
  rewrite slice_empty. destruct key_unlock_empty as [ops ->]. reflexivity.
Qed.

(** X14: a container whose metadata length field is 0 is never decoded: the run
    fails at the magic or at the key, or else with "Zero-length input cannot
    be unpadded", since the manual recovery finds no closing brace in no
    text. *)
Theorem empty_metadata_is_refused (data : bytes) (debug : bool)
    (ops : list cipher_op) (N1 : N) (r : decrypt_error + bytes * Json.value) :
  Struct.unpack_u32_le (slice data 8 12) = inr N1 ->
  Struct.unpack_u32_le (slice data (12 + N1) (16 + N1)) = inr 0 ->
  decrypt_ncm data debug = (ops, r) ->
  exists e,
    r = inl (Failed_to_decrypt_NCM_file e) /\
    (e = ValueError "Not a valid NCM file" \/
     e = invalid_key_header \/
     e = ValueError "Decrypted key is empty" \/
     e = ValueError "Zero-length input cannot be unpadded").
Proof.
  intros H1 H2 H. unfold decrypt_ncm in H.
  destruct (decrypt_ncm_body data debug) as [ops' [e|[audio meta]]] eqn:E.
  - injection H as _ <-. exists e. split; [reflexivity|].
    apply decrypt_ncm_body_fails in E.
    destruct E as [(_ & -> & _)|(_ & E)]; [now left|].
    destruct E as [[E _]|(N1' & H1' & E)]; [rewrite H1 in E; discriminate E|].
    rewrite H1 in H1'. injection H1' as <-.
    destruct E as [E|(ops_k & key & _ & E)].
    { apply key_unlock_raises in E as [->| ->]; auto. }
    destruct E as [[E _]|(N2 & H2' & E)]; [rewrite H2 in E; discriminate E|].
    rewrite H2 in H2'. injection H2' as <-.
    rewrite slice_empty in E. rewrite (decrypt_meta_nothing [] eq_refl) in E.
    destruct E as [(ops_m & E & _)|(ops_m & meta & E & _)]; [|discriminate E].
    injection E as _ <-. auto.
  - exfalso. apply decrypt_ncm_body_ok in E
      as (N1' & N2' & N3 & key & ops_k & ops_m & ops_a
          & _ & H1' & _ & H2' & Hm & _).
    rewrite H1 in H1'. injection H1' as <-.
    rewrite H2 in H2'. injection H2' as <-.
    rewrite slice_empty, (decrypt_meta_nothing [] eq_refl) in Hm. discriminate Hm.
Qed.

(** ** Runs of the decoder on concrete containers *)

Lemma stream_cipher_error_means_long_key_witness :
  exists key,
    In (ARC4_new key) (fst (decrypt_ncm MoreInputs.long_key_container false)) /\
    256 < len key.
Proof.
  destruct (decrypt_ncm MoreInputs.long_key_container false) as [ops r] eqn:E.
  assert (Hr : r = inl (Failed_to_decrypt_NCM_file (ValueError "Incorrect ARC4 key length"))).
  { apply (f_equal snd) in E. vm_compute in E. now rewrite <- E. }
  rewrite Hr in E.
  exact (stream_cipher_error_means_long_key _ _ _ E).
Defined.

Lemma audio_length_witness :
  exists N1 N2 N3,
    Struct.unpack_u32_le (slice Inputs.debug_container 8 12) = inr N1 /\
    Struct.unpack_u32_le (slice Inputs.debug_container (12 + N1) (16 + N1)) = inr N2 /\
    Struct.unpack_u32_le (slice Inputs.debug_container (25 + N1 + N2) (29 + N1 + N2)) = inr N3 /\
    len ([xff; xe3] ++ b_ "frame") <= len Inputs.debug_container - (29 + N1 + N2 + N3) /\
    len Inputs.debug_container - (29 + N1 + N2 + N3) < len ([xff; xe3] ++ b_ "frame") + 1024.
Proof.
  destruct (decrypt_ncm Inputs.debug_container true) as [ops [e|[audio meta]]] eqn:E.
  { apply (f_equal snd) in E. vm_compute in E. discriminate E. }
  assert (Ha : audio = [xff; xe3] ++ b_ "frame").
  { apply (f_equal snd) in E. vm_compute in E. injection E as <- _. reflexivity. }
  rewrite Ha in E.
  destruct (audio_length _ _ _ _ _ E) as (N1 & N2 & N3 & H1 & H2 & H3 & L & U & _).
  exists N1, N2, N3. split; [exact H1|]. split; [exact H2|]. split; [exact H3|].
  split; [exact L|exact U].
Defined.

Lemma skipped_bytes_do_not_matter_witness :
  decrypt_ncm
    (MoreInputs.head Inputs.shifted_key_box Inputs.plain_meta_box
     ++ replicate 9 x00 ++ Struct.pack_u32_le 3 ++ b_ "img"
     ++ Sample.rc4 (b_ "ABCDEFGHIJKLMNOP") (b_ "ID3 audio")) false
  = decrypt_ncm
    (MoreInputs.head Inputs.shifted_key_box Inputs.plain_meta_box
     ++ replicate 9 xff ++ Struct.pack_u32_le 3 ++ b_ "jpg"
     ++ Sample.rc4 (b_ "ABCDEFGHIJKLMNOP") (b_ "ID3 audio")) false.
Proof.
  apply (skipped_bytes_do_not_matter
           (MoreInputs.head Inputs.shifted_key_box Inputs.plain_meta_box)
           (replicate 9 x00) (replicate 9 xff) (Struct.pack_u32_le 3)
           (b_ "img") (b_ "jpg") _ 48 88 3 false);
    vm_compute; reflexivity.
Defined.

Lemma recovered_metadata_ends_with_brace_witness :
  exists before,
    Sample.json_text "{'album':'B'}" = before ++ ["}"%byte].
Proof.
  apply (recovered_metadata_ends_with_brace
           (Sample.json_text "{'album':'B'}" ++ b_ "xyz")
           [] (Sample.json_text "{'album':'B'}")
           (ValueError "Padding is incorrect."));
    vm_compute; reflexivity.
Defined.

Lemma empty_key_box_is_refused_witness :
  snd (decrypt_ncm (MAGIC_HEADER ++ Struct.pack_u32_le 0 ++ b_ "rest") true)
  = inl (Failed_to_decrypt_NCM_file invalid_key_header).
Proof.
  apply (empty_key_box_is_refused (MAGIC_HEADER ++ Struct.pack_u32_le 0 ++ b_ "rest") true);
    vm_compute; reflexivity.
Defined.

Lemma empty_metadata_is_refused_witness :
  exists e,
    snd (decrypt_ncm (MoreInputs.head Inputs.shifted_key_box [] ++ replicate 20 x00) false)
    = inl (Failed_to_decrypt_NCM_file e) /\
    (e = ValueError "Not a valid NCM file" \/
     e = invalid_key_header \/
     e = ValueError "Decrypted key is empty" \/
     e = ValueError "Zero-length input cannot be unpadded").
Proof.
  apply (empty_metadata_is_refused
           (MoreInputs.head Inputs.shifted_key_box [] ++ replicate 20 x00) false
           (fst (decrypt_ncm (MoreInputs.head Inputs.shifted_key_box [] ++ replicate 20 x00) false))
           48).
  - vm_compute; reflexivity.
  - vm_compute; reflexivity.
  - apply surjective_pairing.
Defined.

(* ===================================================================== *)
(** ** Runs of the command-line layer *)
(* ===================================================================== *)

Section Runs.

Import PyStr Text IO.

Lemma runs_bind {A B : Type} (t : prog A) (f : A -> prog B) (tr : list event) (b : B) :
  runs (bind t f) tr b <->
  exists tr1 a tr2, tr = tr1 ++ tr2 /\ runs t tr1 a /\ runs (f a) tr2 b.
Proof.
  revert tr. induction t as [a|c k IH]; intros tr; cbn [bind runs].
  - split.
    + intros H. exists [], a, tr. auto.
    + intros (tr1 & a' & tr2 & -> & [-> ->] & H). exact H.
  - split.
    + intros (x & tr' & -> & H). apply IH in H as (tr1 & a & tr2 & -> & H1 & H2).
      exists (Ev c x :: tr1), a, tr2. split; [reflexivity|]. split; [|exact H2].
      exists x, tr1. auto.
    + intros (tr1 & a & tr2 & -> & (x & tr' & -> & H1) & H2).
      exists x, (tr' ++ tr2). split; [reflexivity|]. apply IH. eauto 6.
Qed.

Lemma runs_run {A : Type} (os : list event -> forall c, answer c) (t : prog A) :
  forall past, runs t (fst (run os past t)) (snd (run os past t)).
Proof.
  induction t as [a|c k IH]; intros past; cbn [run runs].
  - auto.
  - specialize (IH (os past c) (past ++ [Ev c (os past c)])).
    destruct (run os (past ++ [Ev c (os past c)]) (k (os past c))) as [tr a].
    exists (os past c), tr. auto.
Qed.

Lemma returns_runs {A : Type} (P : A -> Prop) (t : prog A) :
  returns P t -> forall tr a, runs t tr a -> P a.
Proof.
  induction t as [a|c k IH]; cbn [returns runs].
  - intros H tr a' [_ ->]. exact H.
  - intros H tr a (x & tr' & _ & R). exact (IH x (H x) tr' a R).
Qed.

Lemma returns_bind {A B : Type} (P : B -> Prop) (t : prog A) (f : A -> prog B) :
  returns (fun a => returns P (f a)) t -> returns P (bind t f).
Proof. induction t as [a|c k IH]; cbn [returns bind]; auto. Qed.

Lemma returns_weaken {A : Type} (P Q : A -> Prop) (t : prog A) :
  (forall a, P a -> Q a) -> returns P t -> returns Q t.
Proof. intros PQ. induction t as [a|c k IH]; cbn [returns]; auto. Qed.

Lemma returns_true {A : Type} (t : prog A) : returns (fun _ => True) t.
Proof. induction t as [a|c k IH]; cbn [returns]; auto. Qed.

Lemma calls_runs {A : Type} (Q : call -> Prop) (t : prog A) :
  calls Q t -> forall tr a, runs t tr a -> Forall (fun e => Q (call_of e)) tr.
Proof.
  induction t as [a|c k IH]; cbn [calls runs].
  - intros _ tr a' [-> _]. constructor.
  - intros [Hc H] tr a (x & tr' & -> & R). constructor; [exact Hc|].
    exact (IH x (H x) tr' a R).
Qed.

Lemma calls_bind {A B : Type} (Q : call -> Prop) (t : prog A) (f : A -> prog B) :
  calls Q t -> (forall a, calls Q (f a)) -> calls Q (bind t f).
Proof.
  intros Ht Hf. induction t as [a|c k IH]; cbn [calls bind] in *; [auto|].
  destruct Ht as [Hc Hk]. auto.
Qed.

End Runs.

Section Conversion.

Import PyStr Text IO.

Variable lower : str -> str.

Lemma not_caught (e : exn) :
  isinstance_Exception e = false ->
  (not_exit e) ->
  exists text, e = External (Raised Not_an_Exception text).
Proof.
  destruct e as [[[] text]| | | | | |code]; try discriminate; intros _ H.
  - now exists text.
  - now destruct (H code).
Qed.

Lemma of_answer_no_exit {A : Type} (c : call) (f : answer c -> external + A) :
  returns no_exit (bind (call_ c) (fun x => of_answer (f x))).
Proof. cbn. intros x. destruct (f x); cbn; [discriminate|exact I]. Qed.

(** Line 452 raises in every run. *)
Lemma clean_up_raises (temp_file_path : str) :
  returns (fun r => exists e, r = inl e /\ not_exit e)
    (clean_up temp_file_path).
Proof.
  cbn. intros [|].
  - intros [x|[]]; cbn; eexists; (split; [reflexivity|discriminate]).
  - cbn. eexists. split; [reflexivity|discriminate].
Qed.

Lemma try_finally_raises {A : Type} (m : IO A) (f : IO unit) (P : exn -> Prop) :
  returns (fun r => exists e, r = inl e /\ P e) f ->
  returns (fun r => exists e, r = inl e /\ P e) (try_finally m f).
Proof.
  intros Hf. unfold try_finally. apply returns_bind.
  apply (returns_weaken (fun _ => True)); [|apply returns_true].
  intros r _. apply returns_bind. revert Hf. apply returns_weaken.
  intros done (e & -> & He). cbn. eauto.
Qed.

Lemma bindE_returns {A B : Type} (P : exn + B -> Prop) (m : IO A) (f : A -> IO B) :
  returns (fun r => match r with inl e => P (inl e) | inr a => returns P (f a) end) m ->
  returns P (bindE m f).
Proof.
  intros H. unfold bindE. apply returns_bind. revert H. apply returns_weaken.
  intros [e|a]; cbn; auto.
Qed.

Lemma unless_print (quiet : bool) (text : message) :
  returns (fun r => r = inr tt) (unless quiet (quiet_call (print text))).
Proof. destruct quiet; cbn; [reflexivity|intros []; reflexivity]. Qed.

(** After a print that may be skipped. *)
Lemma after_print {B : Type} (P : exn + B -> Prop) (quiet : bool) (text : message)
    (k : IO B) :
  returns P k ->
  returns P (bindE (unless quiet (quiet_call (print text))) (fun _ => k)).
Proof.
  intros H. apply bindE_returns.
  generalize (unless_print quiet text). apply returns_weaken. now intros r ->.
Qed.

Lemma with_open_no_exit {A : Type} (p : str) (mode : file_mode) (body : IO A) :
  returns no_exit body -> returns no_exit (with_open p mode body).
Proof.
  intros H. unfold with_open. apply bindE_returns. cbn. intros [x|[]]; cbn.
  - discriminate.
  - unfold try_finally. apply returns_bind. revert H. apply returns_weaken.
    intros r Hr. cbn. intros [x|[]]; cbn; [discriminate|exact Hr].
Qed.

Lemma decrypt_ncm_file_no_exit (ncm_file_path : str) (debug : bool) :
  returns no_exit (decrypt_ncm_file ncm_file_path debug).
Proof.
  unfold decrypt_ncm_file. apply returns_bind.
  assert (H : returns no_exit
                (with_open ncm_file_path rb
                   (bind (call_ (file_read ncm_file_path None)) of_answer))).
  { apply with_open_no_exit. cbn. intros [x|data]; cbn; [discriminate|exact I]. }
  revert H. apply returns_weaken. intros [e|data] He.
  - destruct (isinstance_Exception e) eqn:E; cbn; [discriminate|exact He].
  - destruct (snd (decrypt_ncm data debug)); cbn; [discriminate|exact I].
Qed.

Lemma write_temp_audio_no_exit (audio_data : bytes) :
  returns no_exit (write_temp_audio audio_data).
Proof.
  cbn. intros [x|temp]; cbn; [discriminate|].
  intros [x|[]]; cbn; [discriminate|].
  intros [x|[]]; cbn; [discriminate|exact I].
Qed.

(** Lines 419-452 never end in [return True]. *)
Lemma convert_file_raises (ncm_file_path mp3_file_path : str) (quiet debug : bool) :
  returns (fun r => exists e, r = inl e /\ not_exit e)
    (convert_file ncm_file_path mp3_file_path quiet debug).
Proof.
  unfold convert_file.
  do 2 apply after_print.
  apply bindE_returns.
  generalize (decrypt_ncm_file_no_exit ncm_file_path debug). apply returns_weaken.
  intros [e|[decrypted_audio meta]] He.
  { exists e. split; [reflexivity|exact He]. }
  apply after_print.
  apply bindE_returns.
  generalize (write_temp_audio_no_exit decrypted_audio). apply returns_weaken.
  intros [e|temp_file_path] He'.
  { exists e. split; [reflexivity|exact He']. }
  apply try_finally_raises, clean_up_raises.
Qed.

Lemma try_except_Exception_returns {A : Type} (P Q : exn + A -> Prop)
    (m : IO A) (h : exn -> IO A) :
  returns Q m ->
  (forall e, Q (inl e) -> isinstance_Exception e = true -> returns P (h e)) ->
  (forall e, Q (inl e) -> isinstance_Exception e = false -> P (inl e)) ->
  (forall a, Q (inr a) -> P (inr a)) ->
  returns P (try_except_Exception m h).
Proof.
  intros Hm Hh He Ha. unfold try_except_Exception. apply returns_bind.
  revert Hm. apply returns_weaken. intros [e|a] Hq; cbn [returns]; [|auto].
  destruct (isinstance_Exception e) eqn:E; cbn [returns]; auto.
Qed.

(** What a run of [convert_ncm_to_mp3] ends in. *)
Lemma convert_ncm_to_mp3_returns (ncm_file_path : str) (output_dir : option str)
    (force_overwrite quiet debug : bool) :
  returns (fun r => r = inr false \/
                    exists text, r = inl (External (Raised Not_an_Exception text)))
    (convert_ncm_to_mp3 lower ncm_file_path output_dir force_overwrite quiet debug).
Proof.
  unfold convert_ncm_to_mp3.
  set (mp3_file_path := mp3_path ncm_file_path output_dir).
  assert (Hc : returns
                 (fun r => r = inr false \/ exists e, r = inl e /\ not_exit e)
                 (convert_file ncm_file_path mp3_file_path quiet debug)).
  { generalize (convert_file_raises ncm_file_path mp3_file_path quiet debug).
    apply returns_weaken. auto. }
  apply (try_except_Exception_returns _
           (fun r => r = inr false \/ exists e, r = inl e /\ not_exit e)).
  - apply bindE_returns. cbn [quiet_call call_ bind returns]. intros there.
    cbn [ret returns].
    destruct (there && negb force_overwrite); [|exact Hc].
    apply bindE_returns.
    assert (Hr : forall response : str,
               returns (fun r => r = inr false \/ exists e, r = inl e /\ not_exit e)
                 (if negb (eqb (lower response) (s_ "y"))
                  then bindE (unless quiet (quiet_call (print Skipping_file)))
                         (fun _ => ret false)
                  else convert_file ncm_file_path mp3_file_path quiet debug)).
    { intros response. destruct (negb (eqb (lower response) (s_ "y"))); [|exact Hc].
      apply after_print. cbn. auto. }
    destruct quiet; cbn [negb].
    + cbn [ret returns]. apply Hr.
    + cbn [call_ bind returns]. intros [x|response]; cbn [of_answer raise ret returns].
      * right. eexists. split; [reflexivity|discriminate].
      * apply Hr.
  - intros e _ _. apply after_print. cbn. auto.
  - intros e [H|(e' & H & He)] E; [discriminate H|]. injection H as <-.
    right. destruct (not_caught e E He) as [text ->]. eauto.
  - intros a [H|(e' & H & _)]; [|discriminate H]. injection H as ->. auto.
Qed.


(** The loop of lines 505-510 counts every file as an error. *)
Lemma process_loop (args : arguments) (count : N) (items : list (N * str)) :
  forall success_count error_count,
  returns (fun r => r = inr (success_count, error_count + N.of_nat (List.length items)) \/
                    exists text, r = inl (External (Raised Not_an_Exception text)))
    (forE items
       (fun '(i, ncm_file) '(success_count, error_count) =>
          bindE (unless (args_quiet args) (quiet_call (print (File_of i count))))
            (fun _ =>
             bindE (convert_ncm_to_mp3 lower ncm_file (args_output args) (args_force args)
                      (args_quiet args) (args_debug args))
               (fun converted : bool =>
                if converted
                then ret (success_count + 1, error_count)
                else ret (success_count, error_count + 1))))
       (success_count, error_count)).
Proof.
  induction items as [|[i ncm_file] items IH]; intros success_count error_count;
    cbn [forE List.length].
  - cbn. left. now rewrite N.add_0_r.
  - apply bindE_returns, after_print, bindE_returns.
    generalize (convert_ncm_to_mp3_returns ncm_file (args_output args) (args_force args)
                  (args_quiet args) (args_debug args)).
    apply returns_weaken. intros r [->|[text ->]]; [|eauto].
    cbn [ret returns]. generalize (IH success_count (error_count + 1)).
    apply returns_weaken. intros r [->|H]; [left|now right].
    do 2 f_equal. lia.
Qed.


End Conversion.

(* ===================================================================== *)
(** ** Every call of a run *)
(* ===================================================================== *)

Section Always.

Import PyStr Text IO.

Lemma always_runs {A : Type} (Q : list event -> call -> Prop) (t : prog A) :
  forall past, always Q past t ->
  forall tr a, runs t tr a ->
  forall pre c x post, tr = pre ++ Ev c x :: post -> Q (past ++ pre) c.
Proof.
  induction t as [a|c0 k IH]; intros past Ha tr a' R pre c x post E;
    cbn [always runs] in *.
  - destruct R as [-> _]. now destruct pre.
  - destruct Ha as [H0 Hk]. destruct R as (x0 & tr' & -> & R).
    destruct pre as [|e pre]; cbn [app] in E;
      pose proof (f_equal (fun l => match l with e :: _ => call_of e | [] => c end) E) as E1;
      pose proof (f_equal (@tl _) E) as E2; cbn in E1, E2.
    + subst c0. now rewrite app_nil_r.
    + specialize (IH x0 _ (Hk x0) _ _ R pre c x post E2).
      rewrite <- app_assoc in IH. cbn [app] in IH.
      pose proof (f_equal (@hd_error _) E) as E3. cbn in E3. injection E3 as E3.
      now rewrite <- E3.
Qed.

Lemma always_bind {A B : Type} (Q : list event -> call -> Prop)
    (t : prog A) (f : A -> prog B) :
  forall past, always Q past t ->
  (forall tr a, runs t tr a -> always Q (past ++ tr) (f a)) ->
  always Q past (bind t f).
Proof.
  induction t as [a|c k IH]; intros past Ht Hf; cbn [always bind runs] in *.
  - specialize (Hf [] a (conj eq_refl eq_refl)). now rewrite app_nil_r in Hf.
  - destruct Ht as [H0 Hk]. split; [exact H0|]. intros x. apply IH; [apply Hk|].
    intros tr a R. rewrite <- app_assoc. apply Hf. exists x, tr. auto.
Qed.

Lemma always_bindE {A B : Type} (Q : list event -> call -> Prop)
    (m : IO A) (f : A -> IO B) :
  forall past, always Q past m ->
  (forall tr a, runs m tr (inr a) -> always Q (past ++ tr) (f a)) ->
  always Q past (bindE m f).
Proof.
  intros past Hm Hf. unfold bindE. apply always_bind; [exact Hm|].
  intros tr [e|a] R; [exact I|]. now apply Hf.
Qed.

Lemma calls_always {A : Type} (Q : list event -> call -> Prop) (t : prog A) :
  calls (fun c => forall past, Q past c) t -> forall past, always Q past t.
Proof.
  induction t as [a|c k IH]; cbn [calls always]; [auto|].
  intros [H0 Hk] past. split; [apply H0|]. intros x. apply IH, Hk.
Qed.

Lemma calls_weaken {A : Type} (Q Q' : call -> Prop) (t : prog A) :
  (forall c, Q c -> Q' c) -> calls Q t -> calls Q' t.
Proof.
  intros QQ. induction t as [a|c k IH]; cbn [calls]; [auto|].
  intros [H0 Hk]. split; [auto|]. intros x. apply IH, Hk.
Qed.

Lemma calls_bindE {A B : Type} (Q : call -> Prop) (m : IO A) (f : A -> IO B) :
  calls Q m -> (forall a, calls Q (f a)) -> calls Q (bindE m f).
Proof.
  intros Hm Hf. unfold bindE. apply calls_bind; [exact Hm|].
  intros [e|a]; [exact I|apply Hf].
Qed.

Lemma calls_unless_print (Q : call -> Prop) (quiet : bool) (text : message) :
  Q (print text) -> calls Q (unless quiet (quiet_call (print text))).
Proof. intros H. destruct quiet; cbn; auto. Qed.

Lemma runs_bindE {A B : Type} (m : IO A) (f : A -> IO B) (tr : list event) (r : exn + B) :
  runs (bindE m f) tr r ->
  exists tr1 ra tr2,
    tr = tr1 ++ tr2 /\ runs m tr1 ra /\
    match ra with
    | inl e => tr2 = [] /\ r = inl e
    | inr a => runs (f a) tr2 r
    end.
Proof.
  unfold bindE. intros H. apply runs_bind in H as (tr1 & ra & tr2 & -> & H1 & H2).
  exists tr1, ra, tr2. split; [reflexivity|]. split; [exact H1|].
  destruct ra; [exact H2|exact H2].
Qed.


Lemma with_open_rb_calls {A : Type} (Q : call -> Prop) (p : str) (body : IO A) :
  Q (open_ p rb) -> Q (file_close p) -> calls Q body -> calls Q (with_open p rb body).
Proof.
  intros Ho Hc Hb. unfold with_open. apply calls_bindE.
  - cbn. split; [exact Ho|]. intros [x|[]]; exact I.
  - intros _. unfold try_finally. apply calls_bind; [exact Hb|].
    intros r. cbn. split; [exact Hc|]. intros [x|[]]; cbn; destruct r; exact I.
Qed.

Lemma calls_pure {A B : Type} (Q : call -> Prop) (r : exn + A) (f : A -> IO B) :
  (forall a, calls Q (f a)) -> calls Q (bindE (Ret r) f).
Proof. intros H. destruct r; cbn; auto. Qed.

(** The calls [decrypt_ncm] makes to read the file. *)
Lemma decrypt_ncm_file_calls (Q : call -> Prop) (ncm_file_path : str) (debug : bool) :
  Q (open_ ncm_file_path rb) -> Q (file_read ncm_file_path None) ->
  Q (file_close ncm_file_path) ->
  calls Q (decrypt_ncm_file ncm_file_path debug).
Proof.
  intros Ho Hr Hc. unfold decrypt_ncm_file. apply calls_bind.
  - apply with_open_rb_calls; try assumption. cbn. split; [exact Hr|].
    intros [x|d]; exact I.
  - intros [e|data].
    + destruct (isinstance_Exception e); exact I.
    + destruct (snd (decrypt_ncm data debug)); exact I.
Qed.

Lemma add_text_frame_calls (Q : call -> Prop) (mp3_file_path : str) (meta : Json.value)
    (key : str) (make : Json.value -> frame) :
  (forall f, Q (tags_add mp3_file_path f)) ->
  calls Q (add_text_frame mp3_file_path meta key make).
Proof.
  intros Hf. unfold add_text_frame. apply calls_pure. intros [|]; [|exact I].
  apply calls_pure. intros text. cbn. split; [apply Hf|]. intros [x|[]]; exact I.
Qed.

(** The calls [add_metadata] makes. *)
Lemma add_metadata_calls (Q : call -> Prop) (mp3_file_path : str) (meta : Json.value) :
  Q (MP3 mp3_file_path) -> Q (add_tags mp3_file_path) ->
  (forall f, Q (tags_add mp3_file_path f)) -> Q (save mp3_file_path) ->
  (forall e, Q (print (Warning_failed_to_add_metadata e))) ->
  calls Q (add_metadata mp3_file_path meta).
Proof.
  intros Hm Ht Hf Hs Hw.
  unfold add_metadata, try_except_Exception. apply calls_bind.
  2:{ intros [e|a]; [|exact I]. destruct (isinstance_Exception e); [|exact I].
      cbn. split; [apply Hw|]. intros []. exact I. }
  apply calls_bindE.
  { cbn. split; [exact Hm|]. intros [x|[]]; exact I. }
  intros _. apply calls_bindE.
  { cbn. split; [exact Ht|]. intros [[[] text]|[]]; exact I. }
  intros _. apply calls_bindE; [now apply add_text_frame_calls|].
  intros _. apply calls_bindE.
  { unfold add_artists. apply calls_pure. intros [|]; [|exact I].
    do 4 (apply calls_pure; intros ?). cbn. split; [apply Hf|]. intros [x|[]]; exact I. }
  intros _. apply calls_bindE; [now apply add_text_frame_calls|].
  intros _. apply calls_bindE; [now apply add_text_frame_calls|].
  intros _. apply calls_bindE; [now apply add_text_frame_calls|].
  intros _. apply calls_bindE.
  { unfold add_cover. apply calls_pure. intros [|]; [|exact I].
    unfold lift, try_except_all. apply calls_bind; [|intros; exact I].
    apply calls_bind; [|intros [e|[]]; exact I].
    do 2 (apply calls_pure; intros ?). cbn. split; [apply Hf|]. intros [x|[]]; exact I. }
  intros _. cbn. split; [exact Hs|]. intros [x|[]]; exact I.
Qed.

End Always.

(* ===================================================================== *)
(** ** What a conversion does to the file system *)
(* ===================================================================== *)

Section ConversionCalls.

Import PyStr Text IO.

Variable lower : str -> str.
Variables (ncm_file_path mp3_file_path : str) (debug : bool).

Local Notation "'may'" := (conversion_may ncm_file_path mp3_file_path debug).


Lemma decoded_more (past more : list event) (audio : bytes) :
  decoded ncm_file_path debug past audio ->
  decoded ncm_file_path debug (past ++ more) audio.
Proof.
  intros (content & meta & H & D). exists content, meta. split; [|exact D].
  apply in_or_app. now left.
Qed.

Lemma temporary_more (past more : list event) (p : str) (audio : bytes) :
  temporary past p audio -> temporary (past ++ more) p audio.
Proof.
  intros (H1 & H2 & H3). repeat split; apply in_or_app; now left.
Qed.

Lemma harmless_always {A : Type} (t : prog A) :
  calls harmless t -> forall past, always may past t.
Proof.
  intros H. apply calls_always. revert H. apply calls_weaken.
  intros [| | | |p []| | | | | | | | | | | |]; cbn; intros H past; auto; contradiction.
Qed.

Lemma print_always (quiet : bool) (text : message) (past : list event) :
  always may past (unless quiet (quiet_call (print text))).
Proof. apply harmless_always, calls_unless_print. exact I. Qed.


Lemma decrypt_ncm_file_harmless :
  calls harmless (decrypt_ncm_file ncm_file_path debug).
Proof. apply decrypt_ncm_file_calls; exact I. Qed.

Lemma runs_try_finally {A : Type} (m : IO A) (f : IO unit) (tr : list event) (r : exn + A) :
  runs (try_finally m f) tr r ->
  exists tr1 rm tr2 rf,
    tr = tr1 ++ tr2 /\ runs m tr1 rm /\ runs f tr2 rf /\
    r = match rf with inl e => inl e | inr _ => rm end.
Proof.
  unfold try_finally. intros H.
  apply runs_bind in H as (tr1 & rm & tr2 & -> & H1 & H).
  apply runs_bind in H as (tr2' & rf & tr3 & -> & H2 & H3).
  exists tr1, rm, tr2', rf. destruct rf as [e|u]; cbn in H3; destruct H3 as [-> ->];
    rewrite app_nil_r; auto.
Qed.

(** A run of [decrypt_ncm] that returns has read the file and decoded
    what it read. *)
Lemma decrypt_ncm_file_runs (tr : list event) (audio : bytes) (meta : Json.value) :
  runs (decrypt_ncm_file ncm_file_path debug) tr (inr (audio, meta)) ->
  exists content,
    In (Ev (file_read ncm_file_path None) (inr content)) tr /\
    snd (decrypt_ncm content debug) = inr (audio, meta).
Proof.
  unfold decrypt_ncm_file. intros H.
  apply runs_bind in H as (tr1 & r1 & tr2 & -> & H1 & H2).
  destruct r1 as [e|data].
  { destruct (isinstance_Exception e); cbn in H2; destruct H2 as [_ H2]; discriminate H2. }
  exists data. split.
  - apply in_or_app. left. unfold with_open in H1.
    apply runs_bindE in H1 as (tr0 & r0 & tr3 & -> & H0 & H1).
    destruct r0 as [e|[]]; [destruct H1 as [_ H1]; discriminate H1|].
    apply runs_try_finally in H1 as (tr4 & rm & tr5 & rf & -> & Hm & Hf & Hr).
    apply in_or_app. right. apply in_or_app. left.
    cbn in Hm. destruct Hm as ([x|d] & tr' & -> & Hm); cbn in Hm; destruct Hm as [-> ->].
    + destruct rf; discriminate Hr.
    + destruct rf; [discriminate Hr|]. injection Hr as <-. now left.
  - destruct (snd (decrypt_ncm data debug)) as [e|v]; cbn in H2; destruct H2 as [_ H2].
    + discriminate H2.
    + now injection H2 as <-.
Qed.

Lemma write_temp_audio_runs (audio : bytes) (tr : list event) (temp_file_path : str) :
  runs (write_temp_audio audio) tr (inr temp_file_path) ->
  temporary tr temp_file_path audio.
Proof.
  cbn. intros ([x|temp] & tr1 & -> & H); cbn in H.
  { destruct H as [_ H]; discriminate H. }
  destruct H as ([x|[]] & tr2 & -> & H); cbn in H.
  { destruct H as [_ H]; discriminate H. }
  destruct H as ([x|[]] & tr3 & -> & H); cbn in H; destruct H as [-> H].
  { discriminate H. }
  injection H as <-. unfold temporary. cbn. auto 6.
Qed.

Lemma write_temp_audio_always (audio : bytes) (past : list event) :
  decoded ncm_file_path debug past audio ->
  always may past (write_temp_audio audio).
Proof.
  intros D. cbn. split; [now exists audio|].
  intros [x|temp]; cbn; [exact I|]. split.
  { left. split; [apply in_or_app; right; now left|now apply decoded_more]. }
  intros [x|[]]; cbn; [exact I|]. split; [exact I|].
  intros [x|[]]; cbn; exact I.
Qed.

Lemma clean_up_always (temp_file_path : str) (audio : bytes) (past : list event) :
  temporary past temp_file_path audio ->
  always may past (clean_up temp_file_path).
Proof.
  intros T. cbn. split; [exact I|]. intros [|]; cbn; [|exact I].
  split; [exists audio; now apply temporary_more|].
  intros [x|[]]; cbn; exact I.
Qed.

(** Lines 436-438. *)
Lemma copy_always (temp_file_path : str) (audio : bytes) (past : list event) :
  decoded ncm_file_path debug past audio ->
  temporary past temp_file_path audio ->
  always may past
    (with_open temp_file_path rb
       (with_open mp3_file_path wb
          (bindE (bind (call_ (file_read temp_file_path None)) of_answer)
             (fun data => bind (call_ (file_write mp3_file_path data)) of_answer)))).
Proof.
  intros D T. cbn. split; [exact I|].
  intros [x|[]]; cbn; [exact I|]. split.
  { split; [reflexivity|]. exists audio. now apply decoded_more. }
  intros [x|[]]; cbn.
  { split; [exact I|]. intros [y|[]]; exact I. }
  split; [exact I|]. intros [x|data]; cbn.
  { split; [exact I|]. intros [y|[]]; cbn; (split; [exact I|]); intros [z|[]]; exact I. }
  split.
  { right. split; [reflexivity|]. exists temp_file_path, audio. split.
    - now do 3 apply temporary_more.
    - apply in_or_app. right. now left. }
  intros [x|[]]; cbn; (split; [exact I|]);
    intros [y|[]]; cbn; (split; [exact I|]); intros [z|[]]; exact I.
Qed.

Lemma add_metadata_harmless (meta : Json.value) :
  calls harmless (add_metadata mp3_file_path meta).
Proof. apply add_metadata_calls; intros; exact I. Qed.

Lemma convert_file_always (quiet : bool) (past : list event) :
  always may past (convert_file ncm_file_path mp3_file_path quiet debug).
Proof.
  unfold convert_file.
  apply always_bindE; [apply print_always|]. intros tr1 _ _.
  apply always_bindE; [apply print_always|]. intros tr2 _ _.
  apply always_bindE; [apply harmless_always, decrypt_ncm_file_harmless|].
  intros tr3 [audio meta] R3. apply decrypt_ncm_file_runs in R3.
  assert (D : decoded ncm_file_path debug (((past ++ tr1) ++ tr2) ++ tr3) audio).
  { destruct R3 as (content & H & E). exists content, meta. split; [|exact E].
    apply in_or_app. now right. }
  clear R3. revert D. generalize (((past ++ tr1) ++ tr2) ++ tr3). clear past tr1 tr2 tr3.
  intros past D.
  apply always_bindE; [apply print_always|]. intros tr1 _ _.
  apply always_bindE; [apply write_temp_audio_always; now apply decoded_more|].
  intros tr2 temp_file_path R2. apply write_temp_audio_runs in R2.
  assert (T : temporary ((past ++ tr1) ++ tr2) temp_file_path audio).
  { destruct R2 as (H1 & H2 & H3). repeat split; apply in_or_app; now right. }
  assert (D' : decoded ncm_file_path debug ((past ++ tr1) ++ tr2) audio).
  { now do 2 apply decoded_more. }
  clear R2 D. revert T D'. generalize ((past ++ tr1) ++ tr2). clear past tr1 tr2.
  intros past T D.
  unfold try_finally. apply always_bind.
  - apply always_bindE; [apply print_always|]. intros tr1 _ _.
    apply always_bindE.
    { apply (copy_always _ audio); [now apply decoded_more|now apply temporary_more]. }
    intros tr2 _ _.
    apply always_bindE; [apply harmless_always, add_metadata_harmless|]. intros tr3 _ _.
    apply always_bindE; [apply print_always|]. intros tr4 _ _. exact I.
  - intros tr1 r _. apply always_bind.
    + apply (clean_up_always _ audio). now apply temporary_more.
    + intros tr2 [e|[]] _; exact I.
Qed.

(** Every call of a conversion is one it may make. *)
Lemma convert_ncm_to_mp3_always (output_dir : option str)
    (force_overwrite quiet : bool) :
  mp3_file_path = mp3_path ncm_file_path output_dir ->
  always may []
    (convert_ncm_to_mp3 lower ncm_file_path output_dir force_overwrite quiet debug).
Proof.
  intros E. unfold convert_ncm_to_mp3, try_except_Exception. rewrite <- E.
  apply always_bind.
  2:{ intros tr [e|a] _; [|exact I]. destruct (isinstance_Exception e); [|exact I].
      apply always_bindE; [apply print_always|]. intros; exact I. }
  apply always_bindE; [cbn; auto|].
  intros tr1 there _. destruct (there && negb force_overwrite);
    [|apply convert_file_always].
  apply always_bindE.
  { destruct (negb quiet); cbn; [|exact I]. split; [exact I|]. intros [x|s]; exact I. }
  intros tr2 response _. destruct (negb (eqb (lower response) (s_ "y")));
    [|apply convert_file_always].
  apply always_bindE; [apply print_always|]. intros; exact I.
Qed.

End ConversionCalls.

(* ===================================================================== *)
(** ** The command-line layer: results *)
(* ===================================================================== *)

Section CommandLineResults.

Import PyStr Text IO.

Variable lower : str -> str.



(** X17: a conversion opens no file for writing but its output path, and it does
    so only after it has read the input and decoded what it read: when
    decoding fails, an existing output file is left as it was. *)
Theorem output_is_opened_after_decoding (ncm_file_path : str) (output_dir : option str)
    (force_overwrite quiet debug : bool) (tr : list event) (r : exn + bool)
    (pre post : list event) (p : str) (x : external + unit) :
  runs (convert_ncm_to_mp3 lower ncm_file_path output_dir force_overwrite quiet debug) tr r ->
  tr = pre ++ Ev (open_ p wb) x :: post ->
  p = mp3_path ncm_file_path output_dir /\
  exists content audio meta,
    In (Ev (file_read ncm_file_path None) (inr content)) pre /\
    snd (decrypt_ncm content debug) = inr (audio, meta).
Proof.
  intros R E.
  pose proof (always_runs _ _ _
                (convert_ncm_to_mp3_always lower ncm_file_path _ debug output_dir
                   force_overwrite quiet eq_refl) _ _ R _ _ _ _ E) as H.
  cbn in H. destruct H as (-> & audio & content & meta & H & D). eauto 6.
Qed.

(** X18: whatever a conversion writes is the decoded audio, or a copy of the
    temporary file: every write is either to the temporary file made before,
    of the audio decoded from what was read from the input, or to the output
    path, of what was read back from the temporary file after the audio was
    written to it. *)
Theorem written_data_is_the_decoded_audio (ncm_file_path : str) (output_dir : option str)
    (force_overwrite quiet debug : bool) (tr : list event) (r : exn + bool)
    (pre post : list event) (p : str) (data : bytes) (x : external + unit) :
  runs (convert_ncm_to_mp3 lower ncm_file_path output_dir force_overwrite quiet debug) tr r ->
  tr = pre ++ Ev (file_write p data) x :: post ->
  (In (Ev (NamedTemporaryFile (s_ ".mp3")) (inr p)) pre /\
   exists content meta,
     In (Ev (file_read ncm_file_path None) (inr content)) pre /\
     snd (decrypt_ncm content debug) = inr (data, meta)) \/
  (p = mp3_path ncm_file_path output_dir /\
   exists temp_file_path audio,
     In (Ev (NamedTemporaryFile (s_ ".mp3")) (inr temp_file_path)) pre /\
     In (Ev (file_write temp_file_path audio) (inr tt)) pre /\
     In (Ev (file_read temp_file_path None) (inr data)) pre).
Proof.
  intros R E.
  pose proof (always_runs _ _ _
                (convert_ncm_to_mp3_always lower ncm_file_path _ debug output_dir
                   force_overwrite quiet eq_refl) _ _ R _ _ _ _ E) as H.
  cbn in H. destruct H as [[H D]|(-> & temp & audio & (T1 & T2 & _) & H)].
  - left. split; [exact H|]. exact D.
  - right. split; [reflexivity|]. exists temp, audio. auto.
Qed.

(** X19: a conversion removes no file but its temporary file, and only after
    that file was written and closed: the path given to [os.remove] was
    returned by [NamedTemporaryFile] earlier in the run.  When writing or
    closing the temporary file fails, it is not removed. *)
Theorem only_the_temporary_file_is_removed (ncm_file_path : str) (output_dir : option str)
    (force_overwrite quiet debug : bool) (tr : list event) (r : exn + bool)
    (pre post : list event) (p : str) (x : external + unit) :
  runs (convert_ncm_to_mp3 lower ncm_file_path output_dir force_overwrite quiet debug) tr r ->
  tr = pre ++ Ev (os_remove p) x :: post ->
  exists audio,
    In (Ev (NamedTemporaryFile (s_ ".mp3")) (inr p)) pre /\
    In (Ev (file_write p audio) (inr tt)) pre /\
    In (Ev (file_close p) (inr tt)) pre.
Proof.
  intros R E.
  pose proof (always_runs _ _ _
                (convert_ncm_to_mp3_always lower ncm_file_path _ debug output_dir
                   force_overwrite quiet eq_refl) _ _ R _ _ _ _ E) as H.
  exact H.
Qed.

End CommandLineResults.


(* ===================================================================== *)
(** ** An output file that is already there *)
(* ===================================================================== *)

Section ExistingOutput.

Import PyStr Text IO.

Variable lower : str -> str.

Lemma runs_unless_print (quiet : bool) (text : message) (tr : list event) (r : exn + unit) :
  runs (unless quiet (quiet_call (print text))) tr r ->
  r = inr tt /\ Forall (fun e => talks (call_of e)) tr.
Proof.
  destruct quiet; cbn.
  - intros [-> ->]. auto.
  - intros ([] & tr' & -> & -> & ->). split; [reflexivity|]. repeat constructor.
Qed.

Lemma runs_print_then {A : Type} (quiet : bool) (text : message) (a : A)
    (tr : list event) (r : exn + A) :
  runs (bindE (unless quiet (quiet_call (print text))) (fun _ => ret a)) tr r ->
  r = inr a /\ Forall (fun e => talks (call_of e)) tr /\ (quiet = true -> tr = []).
Proof.
  intros H. apply runs_bindE in H as (tr1 & r1 & tr2 & -> & H1 & H2).
  assert (Hq : quiet = true -> tr1 = []).
  { intros ->. cbn in H1. now destruct H1. }
  apply runs_unless_print in H1 as [-> H1]. cbn in H2. destruct H2 as [-> ->].
  rewrite app_nil_r. auto.
Qed.

(** X20: when the output file exists and [force_overwrite] is off, a conversion
    touches nothing unless the user answers y: after the test of the path the
    run only prompts and prints.  In quiet mode it does nothing at all after
    the test and returns [False], without a prompt; there the answer is taken
    to be n, which [str.lower] is assumed to leave as it is. *)
Theorem existing_output_is_kept (ncm_file_path : str) (output_dir : option str)
    (quiet debug : bool) (tr : list event) (r : exn + bool) :
  lower (s_ "n") = s_ "n" ->
  runs (convert_ncm_to_mp3 lower ncm_file_path output_dir false quiet debug)
    (Ev (os_path_exists (mp3_path ncm_file_path output_dir)) true :: tr) r ->
  (forall response,
     In (Ev (input (Overwrite_prompt (mp3_path ncm_file_path output_dir))) (inr response)) tr ->
     eqb (lower response) (s_ "y") = false) ->
  Forall (fun e => talks (call_of e)) tr /\
  (quiet = true -> tr = [] /\ r = inr false).
Proof.
  intros Hn R Hno. unfold convert_ncm_to_mp3, try_except_Exception in R.
  apply runs_bind in R as (tr1 & ra & tr2 & E & Hb & Hh).
  apply runs_bindE in Hb as (t1 & r1 & t2 & -> & H1 & H2).
  cbn in H1. destruct H1 as (there & t1' & -> & -> & ->).
  cbn [app] in E.
  pose proof (f_equal (fun l => match l with e :: _ => test_answer e | [] => None end) E) as E1.
  pose proof (f_equal (@tl _) E) as E2. cbn in E1, E2. injection E1 as <-. subst tr.
  clear E. cbn [andb negb] in H2.
  apply runs_bindE in H2 as (t3 & r3 & t4 & -> & H3 & H4).
  destruct quiet; cbn [negb] in H3.
  - cbn in H3. destruct H3 as [-> ->]. cbn in Hn. cbn [s_ of_string] in H4.
    change (lower (of_string "n")) with (lower [110]) in H4. rewrite Hn in H4.
    change (negb (eqb [110] (of_string "y"))) with true in H4. cbv iota in H4.
    apply runs_print_then in H4 as (-> & _ & Ht). rewrite (Ht eq_refl) in *.
    cbn in Hh. destruct Hh as [-> ->]. cbn. auto.
  - cbn in H3. destruct H3 as (answer & t3' & -> & H3).
    destruct answer as [x|response]; cbn in H3; destruct H3 as [-> ->].
    + destruct H4 as [-> ->]. split; [|discriminate].
      constructor; [exact I|]. cbn [app].
      destruct (isinstance_Exception (External x)).
      * apply runs_print_then in Hh as (_ & Hh & _). exact Hh.
      * cbn in Hh. destruct Hh as [-> _]. constructor.
    + rewrite (Hno response) in H4 by (now left). cbn [negb] in H4.
      apply runs_print_then in H4 as (-> & H4 & _).
      cbn in Hh. destruct Hh as [-> ->]. rewrite app_nil_r. split; [|discriminate].
      constructor; [exact I|exact H4].
Qed.

End ExistingOutput.

Lemma existing_output_is_kept_witness :
  Forall (fun e => talks (IO.call_of e))
    (tl (fst (World.run_in World.converted_song
                (convert_ncm_to_mp3 World.ascii_lower (Text.s_ "music/song.ncm") None
                   false false false)))).
Proof.
  refine (proj1 (existing_output_is_kept World.ascii_lower (Text.s_ "music/song.ncm") None
                   false false _
                   (snd (World.run_in World.converted_song
                           (convert_ncm_to_mp3 World.ascii_lower (Text.s_ "music/song.ncm")
                              None false false false)))
                   eq_refl _ _)).
  - exact (runs_run (World.answers World.converted_song)
             (convert_ncm_to_mp3 World.ascii_lower (Text.s_ "music/song.ncm") None
                false false false) []).
  - vm_compute. intros response [H|[H|[]]]; [|discriminate H].
    apply (f_equal (fun e => match e with
                             | IO.Ev c x =>
                                 match c return IO.answer c -> option PyStr.str with
                                 | IO.input _ => fun r => match r with inr s => Some s | inl _ => None end
                                 | _ => fun _ => None
                                 end x
                             end)) in H.
    cbn in H. injection H as <-. reflexivity.
Defined.

(* ===================================================================== *)
(** ** The search for containers *)
(* ===================================================================== *)

Section Search.

Import PyStr Text IO.

Variable lower : str -> str.

Lemma is_ncm_file_true (file_path : str) (tr : list event) :
  runs (is_ncm_file lower file_path) tr true ->
  endswith (lower file_path) (s_ ".ncm") = true /\ tr = accepting_run file_path.
Proof.
  unfold is_ncm_file, accepting_run.
  cbn [bind call_ runs]. intros (isfile & tr1 & -> & H).
  destruct isfile; cbn [negb orb] in H; [|cbn in H; destruct H; discriminate].
  destruct (endswith (lower file_path) (s_ ".ncm")); cbn [negb] in H;
    [|cbn in H; destruct H; discriminate].
  split; [reflexivity|]. cbn in H.
  destruct H as ([x|[]] & tr2 & -> & H); cbn in H; [destruct H; discriminate|].
  destruct H as ([x|header] & tr3 & -> & H); cbn in H.
  { destruct H as ([y|[]] & tr4 & -> & H); cbn in H; destruct H; discriminate. }
  destruct H as ([y|[]] & tr4 & -> & H); cbn in H; destruct H as [-> H];
    [discriminate|].
  symmetry in H. apply bytes_eqb_eq in H. now subst header.
Qed.

(** X21: [is_ncm_file] returns [True] in exactly one kind of run: the path,
    in lower case, ends in .ncm; the path is a regular file; it was opened,
    the 8 bytes read from it are the magic constant, and it was closed
    without error. *)
Theorem is_ncm_file_accepts (file_path : str) (tr : list event) :
  runs (is_ncm_file lower file_path) tr true <->
  endswith (lower file_path) (s_ ".ncm") = true /\ tr = accepting_run file_path.
Proof.
  split; [apply is_ncm_file_true|].
  unfold is_ncm_file, accepting_run.
  intros [E ->]. cbn [bind call_ runs]. exists true. eexists. split; [reflexivity|].
  rewrite E. cbn. exists (inr tt). eexists. split; [reflexivity|]. cbn.
  exists (inr MAGIC_HEADER). eexists. split; [reflexivity|]. cbn.
  exists (inr tt). eexists. split; [reflexivity|]. cbn. auto.
Qed.

Lemma accepted_later (tr1 tr2 : list event) (q : str) :
  accepted lower tr2 q -> accepted lower (tr1 ++ tr2) q.
Proof.
  intros (E & pre & post & ->). split; [exact E|].
  exists (tr1 ++ pre), post. now rewrite <- app_assoc.
Qed.

Lemma accepted_earlier (tr1 tr2 : list event) (q : str) :
  accepted lower tr1 q -> accepted lower (tr1 ++ tr2) q.
Proof.
  intros (E & pre & post & ->). split; [exact E|].
  exists pre, (post ++ tr2). now rewrite <- !app_assoc.
Qed.

Lemma collect_ncm_files_runs (root : str) (files : list str) :
  forall ncm_files tr out,
  runs (collect_ncm_files lower root files ncm_files) tr out ->
  exists added,
    out = ncm_files ++ added /\
    Forall (fun q => accepted lower tr q /\
                     exists file, In file files /\ q = Posixpath.join root file) added.
Proof.
  unfold collect_ncm_files.
  induction files as [|file files IH]; intros ncm_files tr out; cbn [for_].
  - cbn. intros [-> ->]. exists []. now rewrite app_nil_r.
  - intros H. apply runs_bind in H as (tr1 & acc & tr2 & -> & H1 & H2).
    apply runs_bind in H1 as (tr0 & ok & tr0' & -> & H0 & H1).
    cbn in H1. destruct H1 as [-> ->]. rewrite app_nil_r.
    apply IH in H2 as (added & -> & Ha).
    assert (Ha' : Forall (fun q => accepted lower (tr0 ++ tr2) q /\
                            exists file', In file' (file :: files) /\
                                          q = Posixpath.join root file') added).
    { revert Ha. apply Forall_impl. intros q (A & file' & I' & ->).
      split; [now apply accepted_later|]. exists file'. split; [now right|reflexivity]. }
    destruct ok.
    + exists (Posixpath.join root file :: added). split; [now rewrite <- app_assoc|].
      constructor; [|exact Ha'].
      apply is_ncm_file_true in H0 as [E ->]. split.
      * apply accepted_earlier. split; [exact E|]. exists [], []. now rewrite app_nil_r.
      * exists file. split; [now left|reflexivity].
    + exists added. auto.
Qed.

Lemma walk_runs (walk : list (str * list str * list str)) :
  forall ncm_files tr out,
  runs (for_ walk
          (fun '(root, _, files) ncm_files => collect_ncm_files lower root files ncm_files)
          ncm_files) tr out ->
  exists added,
    out = ncm_files ++ added /\
    Forall (fun q => accepted lower tr q /\
                     exists root dirs files file,
                       In (root, dirs, files) walk /\ In file files /\
                       q = Posixpath.join root file) added.
Proof.
  induction walk as [|[[root dirs] files] walk IH]; intros ncm_files tr out; cbn [for_].
  - cbn. intros [-> ->]. exists []. now rewrite app_nil_r.
  - intros H. apply runs_bind in H as (tr1 & acc & tr2 & -> & H1 & H2).
    apply collect_ncm_files_runs in H1 as (added1 & -> & Ha1).
    apply IH in H2 as (added2 & -> & Ha2).
    exists (added1 ++ added2). split; [now rewrite <- app_assoc|].
    apply Forall_app. split.
    + revert Ha1. apply Forall_impl. intros q (A & file & I' & ->).
      split; [now apply accepted_earlier|]. exists root, dirs, files, file.
      split; [now left|auto].
    + revert Ha2. apply Forall_impl. intros q (A & r0 & d0 & f0 & file & I1 & I2 & ->).
      split; [now apply accepted_later|]. exists r0, d0, f0, file.
      split; [now right|auto].
Qed.

(** X22: every path [get_ncm_files] returns was accepted by [is_ncm_file] in
    that run, name and magic, and is the input path itself or the join of a
    directory and a file name that [os.walk] yielded for the input path. *)
Theorem found_files_were_accepted (input_path : str) (tr : list event)
    (ncm_files : list str) :
  runs (get_ncm_files lower input_path) tr ncm_files ->
  Forall (fun q =>
            (endswith (lower q) (s_ ".ncm") = true /\
             exists pre post, tr = pre ++ accepting_run q ++ post) /\
            (q = input_path \/
             exists walk root dirs files file,
               In (Ev (os_walk input_path) walk) tr /\
               In (root, dirs, files) walk /\ In file files /\
               q = Posixpath.join root file)) ncm_files.
Proof.
  unfold get_ncm_files. cbn [bind call_ runs]. intros (isfile & tr1 & -> & H).
  destruct isfile.
  - apply runs_bind in H as (tr0 & ok & tr0' & -> & H0 & H1).
    cbn in H1. destruct H1 as [-> ->]. rewrite app_nil_r.
    destruct ok; [|constructor]. cbn [app]. constructor; [|constructor].
    apply is_ncm_file_true in H0 as [E ->]. split; [|now left].
    split; [exact E|]. exists [Ev (os_path_isfile input_path) true], [].
    now rewrite app_nil_r.
  - cbn [bind call_ runs] in H. destruct H as (isdir & tr2 & -> & H).
    destruct isdir; [|cbn in H; destruct H as [_ ->]; constructor].
    cbn [bind call_ runs] in H. destruct H as (walk & tr3 & -> & H).
    apply walk_runs in H as (added & -> & Ha). cbn [app].
    revert Ha. apply Forall_impl. intros q (A & root & dirs & files & file & I1 & I2 & ->).
    split.
    + apply (accepted_later [Ev (os_path_isfile input_path) false;
                             Ev (os_path_isdir input_path) true;
                             Ev (os_walk input_path) walk]) in A.
      exact A.
    + right. exists walk, root, dirs, files, file. split; [|auto].
      right. right. now left.
Qed.

(** X28: a file that [is_ncm_file] accepted is not refused by the decoder for
    its magic, if the decoder reads the content whose first 8 bytes
    [is_ncm_file] read: the two tests of the magic agree. *)
Theorem accepted_file_passes_the_magic_check (file_path : str) (tr : list event)
    (data : bytes) (debug : bool) (ops : list cipher_op) :
  runs (is_ncm_file lower file_path) tr true ->
  In (Ev (file_read file_path (Some (len MAGIC_HEADER)))
        (inr (PyBytes.take (len MAGIC_HEADER) data))) tr ->
  decrypt_ncm data debug
  <> (ops, inl (Failed_to_decrypt_NCM_file (ValueError "Not a valid NCM file"))).
Proof.
  intros R Hin H. apply magic_message_is_of_the_magic_check in H.
  apply is_ncm_file_true in R as [_ ->].
  assert (E : PyBytes.take (len MAGIC_HEADER) data = MAGIC_HEADER).
  { destruct Hin as [Hin|[Hin|[Hin|[Hin|[]]]]];
      apply (f_equal read_answer) in Hin; cbn in Hin; try discriminate Hin.
    injection Hin as Hin. symmetry. exact Hin. }
  rewrite startswith_take, E in H. now vm_compute in H.
Qed.

Lemma calls_for_ {A S : Type} (Q : call -> Prop) (items : list A)
    (body : A -> S -> prog S) :
  (forall x s, calls Q (body x s)) -> forall s, calls Q (for_ items body s).
Proof.
  intros Hb. induction items as [|x items IH]; intros s; cbn [for_]; [exact I|].
  apply calls_bind; [apply Hb|apply IH].
Qed.

Lemma is_ncm_file_calls (file_path : str) :
  calls scanning (is_ncm_file lower file_path).
Proof.
  unfold is_ncm_file. cbn [bind call_ calls]. split; [exact I|]. intros isfile.
  destruct (negb isfile || negb (endswith (lower file_path) (s_ ".ncm"))); [exact I|].
  cbn. split; [exact I|]. intros [x|[]]; cbn; [exact I|].
  split; [reflexivity|]. intros [x|header]; cbn; (split; [exact I|]); intros [y|[]]; exact I.
Qed.

Lemma get_ncm_files_calls (input_path : str) :
  calls scanning (get_ncm_files lower input_path).
Proof.
  unfold get_ncm_files. cbn [bind call_ calls]. split; [exact I|]. intros [|].
  - apply calls_bind; [apply is_ncm_file_calls|]. intros; exact I.
  - cbn [bind call_ calls]. split; [exact I|]. intros [|]; [|exact I].
    cbn [bind call_ calls]. split; [exact I|]. intros walk.
    apply calls_for_. intros [[root dirs] files] s. unfold collect_ncm_files.
    apply calls_for_. intros file s'.
    apply calls_bind; [apply is_ncm_file_calls|]. intros; exact I.
Qed.

(** X23: the search for containers changes nothing: its calls are tests of
    paths, the walk, and for a file the opening for reading, one read of 8
    bytes and the closing. *)
Theorem search_only_reads (input_path : str) (tr : list event) (ncm_files : list str) :
  runs (get_ncm_files lower input_path) tr ncm_files ->
  Forall (fun e => scanning (call_of e)) tr.
Proof. apply calls_runs, get_ncm_files_calls. Qed.

End Search.

(* ===================================================================== *)
(** ** The summary of [main] *)
(* ===================================================================== *)

Section Summary.

Import PyStr Text IO.

Variable lower : str -> str.

Lemma convert_file_calls (ncm_file_path mp3_file_path : str) (quiet debug : bool) :
  calls (conversion_calls mp3_file_path)
    (convert_file ncm_file_path mp3_file_path quiet debug).
Proof.
  unfold convert_file.
  apply calls_bindE; [now apply calls_unless_print|]. intros _.
  apply calls_bindE; [now apply calls_unless_print|]. intros _.
  apply calls_bindE; [apply decrypt_ncm_file_calls; exact I|]. intros [audio meta].
  apply calls_bindE; [now apply calls_unless_print|]. intros _.
  apply calls_bindE.
  { cbn. split; [exact I|]. intros [x|temp]; cbn; [exact I|]. split; [exact I|].
    intros [x|[]]; cbn; [exact I|]. split; [exact I|]. intros [x|[]]; exact I. }
  intros temp. unfold try_finally. apply calls_bind.
  - apply calls_bindE; [now apply calls_unless_print|]. intros _.
    apply calls_bindE.
    { apply with_open_rb_calls; try exact I. unfold with_open. apply calls_bindE.
      - cbn. split; [reflexivity|]. intros [x|[]]; exact I.
      - intros _. unfold try_finally. apply calls_bind.
        + cbn. split; [exact I|]. intros [x|data]; cbn; [exact I|].
          split; [exact I|]. intros [x|[]]; exact I.
        + intros r. cbn. split; [exact I|]. intros [x|[]]; cbn; destruct r; exact I. }
    intros _. apply calls_bindE.
    { apply add_metadata_calls; intros; first [reflexivity|exact I]. }
    intros _. apply calls_bindE; [now apply calls_unless_print|]. intros _. exact I.
  - intros r. apply calls_bind.
    + cbn. split; [exact I|]. intros [|]; cbn; [|exact I]. split; [exact I|].
      intros [x|[]]; exact I.
    + intros [e|[]]; exact I.
Qed.

Lemma convert_ncm_to_mp3_calls (ncm_file_path : str) (output_dir : option str)
    (force_overwrite quiet debug : bool) :
  calls (conversion_calls (mp3_path ncm_file_path output_dir))
    (convert_ncm_to_mp3 lower ncm_file_path output_dir force_overwrite quiet debug).
Proof.
  unfold convert_ncm_to_mp3, try_except_Exception. apply calls_bind.
  2:{ intros [e|a]; [|exact I]. destruct (isinstance_Exception e); [|exact I].
      apply calls_bindE; [now apply calls_unless_print|]. intros; exact I. }
  apply calls_bindE; [cbn; auto|]. intros there.
  destruct (there && negb force_overwrite); [|apply convert_file_calls].
  apply calls_bindE.
  { destruct (negb quiet); cbn; [|exact I]. split; [reflexivity|]. intros [x|s]; exact I. }
  intros response. destruct (negb (eqb (lower response) (s_ "y")));
    [|apply convert_file_calls].
  apply calls_bindE; [now apply calls_unless_print|]. intros; exact I.
Qed.

Lemma calls_bind_returns {A B : Type} (Q : call -> Prop) (P : A -> Prop)
    (t : prog A) (f : A -> prog B) :
  calls Q t -> returns P t -> (forall a, P a -> calls Q (f a)) -> calls Q (bind t f).
Proof.
  intros Ht Hp Hf. induction t as [a|c k IH]; cbn [calls returns bind] in *; [auto|].
  destruct Ht as [Hc Hk]. auto.
Qed.

Lemma calls_forE {A S : Type} (Q : call -> Prop) (items : list A)
    (body : A -> S -> IO S) :
  (forall x s, calls Q (body x s)) -> forall s, calls Q (forE items body s).
Proof.
  intros Hb. induction items as [|x items IH]; intros s; cbn [forE]; [exact I|].
  apply calls_bindE; [apply Hb|apply IH].
Qed.

Lemma main_calls (args : arguments) :
  calls (fun c => ~ reports_success c) (main lower args).
Proof.
  assert (Hp : forall quiet text,
             ~ reports_success (print text) ->
             calls (fun c => ~ reports_success c) (unless quiet (quiet_call (print text)))).
  { intros quiet text H. now apply calls_unless_print. }
  unfold main. apply calls_bindE; [apply Hp; cbn; auto|]. intros _.
  apply calls_bindE.
  { unfold lift. apply calls_bind; [|intros; exact I].
    generalize (get_ncm_files_calls lower (args_input args)). apply calls_weaken.
    intros [| | | |p []|p [size|]| | | | | | | | | | |]; cbn; auto. }
  intros [|ncm_file ncm_files].
  { cbn. split; [auto|]. intros []. exact I. }
  apply calls_bindE.
  { destruct (given (args_output args)) as [output|]; [|exact I].
    cbn. split; [auto|]. intros [|]; cbn; [exact I|]. split; [auto|].
    intros [[[] text]|[]]; cbn; auto. }
  intros _. apply calls_bindE; [apply Hp; cbn; auto|]. intros _.
  unfold bindE at 1.
  apply (calls_bind_returns _
           (fun r => forall s e, r = inr (s, e) -> s = 0)).
  - unfold process_files. apply calls_forE. intros [i f] [s e].
    apply calls_bindE; [apply Hp; cbn; auto|]. intros _. apply calls_bindE.
    + generalize (convert_ncm_to_mp3_calls f (args_output args) (args_force args)
                    (args_quiet args) (args_debug args)).
      apply calls_weaken.
      intros [| | | |p []|p [size|]| | | | | |[]|[]| | | |]; cbn; auto.
    + intros [|]; exact I.
  - generalize (process_loop lower args (N.of_nat (List.length (ncm_file :: ncm_files)))
                  (enumerate (ncm_file :: ncm_files) 1) 0 0).
    apply returns_weaken. intros r [->|[text ->]] s e H; [|discriminate H].
    now injection H as <- _.
  - intros [e|[s e]] H; [exact I|]. rewrite (H s e eq_refl).
    apply calls_bindE; [|intros; exact I].
    destruct (args_quiet args); cbn; [exact I|].
    repeat (split; [cbn; auto|intros []]). exact I.
Qed.

(** X24: whenever [main] prints its summary, the count of successes it prints
    is 0. *)
Theorem summary_reports_no_success (args : arguments) (tr : list event) (r : exn + unit)
    (success_count : N) :
  runs (main lower args) tr r ->
  In (Ev (print (Success success_count)) tt) tr ->
  success_count = 0.
Proof.
  intros R H. pose proof (calls_runs _ _ (main_calls args) _ _ R) as F.
  rewrite Forall_forall in F. specialize (F _ H). cbn in F.
  destruct (N.eq_dec success_count 0) as [E|E]; [exact E|]. now destruct (F E).
Qed.

End Summary.

(* ===================================================================== *)
(** ** Metadata with artist entries that have no name *)
(* ===================================================================== *)

Section Artists.

Import PyStr Text IO.

Lemma getitem_is_Exception (v : Json.value) (key : str) (e : exn) :
  PyValue.getitem v key = inl e -> isinstance_Exception e = true.
Proof.
  destruct v; cbn; try (intros H; injection H as <-; reflexivity).
  destruct (Json.lookup key members); [discriminate|].
  intros H; injection H as <-; reflexivity.
Qed.

Lemma getitem_each_raises (items : list Json.value) (key : str) (item : Json.value)
    (e : exn) :
  In item items -> PyValue.getitem item key = inl e ->
  exists e', PyValue.getitem_each items key = inl e' /\ isinstance_Exception e' = true.
Proof.
  induction items as [|x items IH]; intros Hin He; [contradiction|].
  cbn [PyValue.getitem_each]. destruct (PyValue.getitem x key) as [e0|v] eqn:Ex.
  - exists e0. split; [reflexivity|]. now apply getitem_is_Exception in Ex.
  - destruct Hin as [->|Hin]; [rewrite He in Ex; discriminate Ex|].
    destruct (IH Hin He) as (e' & -> & E). eauto.
Qed.

Lemma add_artists_raises (mp3_file_path : str) (d : list (str * Json.value))
    (artists : list Json.value) (item : Json.value) (e : exn) :
  Json.lookup (s_ "artist") d = Some (Json.Arr artists) ->
  In item artists -> PyValue.getitem item (s_ "name") = inl e ->
  exists e', add_artists mp3_file_path (Json.Obj d) = Ret (inl e') /\
             isinstance_Exception e' = true.
Proof.
  intros L Hin He. destruct (getitem_each_raises _ _ _ _ Hin He) as (e' & G & E).
  exists e'. split; [|exact E].
  unfold add_artists, bindE, PyValue.contains, PyValue.getitem. rewrite L.
  cbn [PyValue.is_some bind PyValue.iterate]. rewrite G. reflexivity.
Qed.

(** Up to the artists, [add_metadata] makes no call of [save] and does
    not return; when the artists raise, the handler returns [False]. *)
Lemma add_metadata_without_names (mp3_file_path : str) (d : list (str * Json.value))
    (artists : list Json.value) (item : Json.value) (e : exn) :
  Json.lookup (s_ "artist") d = Some (Json.Arr artists) ->
  In item artists -> PyValue.getitem item (s_ "name") = inl e ->
  calls (fun c => c <> save mp3_file_path) (add_metadata mp3_file_path (Json.Obj d)) /\
  returns (fun r => r <> inr true) (add_metadata mp3_file_path (Json.Obj d)).
Proof.
  intros L Hin He.
  destruct (add_artists_raises mp3_file_path d artists item e L Hin He) as (e' & A & E).
  unfold add_metadata. rewrite A.
  set (title := add_text_frame mp3_file_path (Json.Obj d) (s_ "musicName") TIT2).
  assert (Ht : calls (fun c => c <> save mp3_file_path) title /\
               returns (fun r => True) title).
  { split; [|apply returns_true]. apply add_text_frame_calls. discriminate. }
  destruct Ht as [Ht _]. revert Ht. generalize title. clear title. intros title Ht.
  unfold try_except_Exception. split.
  - apply calls_bind.
    + apply calls_bindE; [cbn; split; [discriminate|]; intros [x|[]]; exact I|].
      intros _. apply calls_bindE.
      { cbn. split; [discriminate|]. intros [[[] text]|[]]; exact I. }
      intros _. apply calls_bindE; [exact Ht|]. intros _. exact I.
    + intros [e0|a]; [|exact I]. destruct (isinstance_Exception e0); [|exact I].
      cbn. split; [discriminate|]. intros []. exact I.
  - assert (Hr : forall (X Y : Type) (m : IO X) (f : X -> IO Y),
               (forall a, returns (fun r => exists e0, r = inl e0) (f a)) ->
               returns (fun r => exists e0, r = inl e0) (bindE m f)).
    { intros X Y m f Hf. apply bindE_returns.
      apply (returns_weaken (fun _ => True)); [|apply returns_true].
      intros [e0|a] _; [eauto|apply Hf]. }
    apply (try_except_Exception_returns _ (fun r => exists e0, r = inl e0)).
    + do 3 (apply Hr; intros ?). cbn. eauto.
    + intros e0 _ _. cbn. intros []. discriminate.
    + discriminate.
    + intros a [e0 H]. discriminate H.
Qed.

(** X25: when the metadata is an object whose 'artist' is a list with an entry
    that has no 'name', an entry that is no object or an object without that
    key, [add_metadata] never calls [save] and never returns [True]: the
    list comprehension of line 360 raises, and the handler returns [False]. *)
Theorem artist_without_name_prevents_tagging (mp3_file_path : str)
    (d : list (str * Json.value)) (artists : list Json.value) (item : Json.value)
    (e : exn) (tr : list event) (r : exn + bool) :
  Json.lookup (s_ "artist") d = Some (Json.Arr artists) ->
  In item artists ->
  PyValue.getitem item (s_ "name") = inl e ->
  runs (add_metadata mp3_file_path (Json.Obj d)) tr r ->
  r <> inr true /\ Forall (fun ev => call_of ev <> save mp3_file_path) tr.
Proof.
  intros L Hin He R.
  destruct (add_metadata_without_names mp3_file_path d artists item e L Hin He) as [C P].
  split.
  - exact (returns_runs _ _ P _ _ R).
  - exact (calls_runs _ _ C _ _ R).
Qed.

End Artists.

(* ===================================================================== *)
(** ** The path of the output *)
(* ===================================================================== *)

Section OutputPath.

Import PyStr Text.

Lemma rfind_from_notin (s : str) (c : N) :
  ~ In c s -> forall i found, rfind_from i s c found = found.
Proof.
  induction s as [|x t IH]; intros Hn i found; cbn [rfind_from]; [reflexivity|].
  destruct (N.eqb_spec x c) as [->|Hx]; [destruct Hn; now left|].
  apply IH. intros H. apply Hn. now right.
Qed.

Lemma rfind_from_last (a b : str) (c : N) :
  ~ In c b ->
  forall i found,
  rfind_from i (a ++ c :: b) c found = Some (i + N.of_nat (List.length a)).
Proof.
  intros Hn. induction a as [|x a IH]; intros i found; cbn [app rfind_from List.length].
  - rewrite N.eqb_refl, rfind_from_notin by exact Hn. f_equal. lia.
  - rewrite IH. f_equal. lia.
Qed.

Lemma rfind_from_cases (s : str) (c : N) :
  forall i found,
  (rfind_from i s c found = found /\ ~ In c s) \/
  exists a b, s = a ++ c :: b /\ ~ In c b.
Proof.
  induction s as [|x t IH]; intros i found; cbn [rfind_from].
  - left. auto.
  - destruct (IH (N.succ i) (if x =? c then Some i else found)) as [[E Hn]|(a & b & -> & Hn)].
    + destruct (N.eqb_spec x c) as [->|Hx].
      * right. exists [], t. auto.
      * left. split; [exact E|]. intros [H|H]; auto.
    + right. exists (x :: a), b. auto.
Qed.

Lemma str_drop_0 (s : str) : drop 0 s = s.
Proof. now destruct s. Qed.

Lemma drop_app_length (a b : str) (k : N) :
  drop (N.of_nat (List.length a) + k) (a ++ b) = drop k b.
Proof.
  induction a as [|x a IH]; cbn [List.length app drop]; [now rewrite N.add_0_l|].
  destruct (N.eqb_spec (N.of_nat (S (List.length a)) + k) 0) as [E|_]; [lia|].
  replace (N.pred (N.of_nat (S (List.length a)) + k))
    with (N.of_nat (List.length a) + k) by lia.
  exact IH.
Qed.

Lemma take_app_length (a b : str) : take (N.of_nat (List.length a)) (a ++ b) = a.
Proof.
  induction a as [|x a IH]; cbn [List.length app take].
  - now destruct b.
  - destruct (N.eqb_spec (N.of_nat (S (List.length a))) 0) as [E|_]; [lia|].
    replace (N.pred (N.of_nat (S (List.length a)))) with (N.of_nat (List.length a)) by lia.
    now rewrite IH.
Qed.

Lemma take_drop (n : N) (s : str) : take n s ++ drop n s = s.
Proof.
  revert n. induction s as [|x t IH]; intros n; cbn [take drop]; [reflexivity|].
  destruct (n =? 0); [reflexivity|]. cbn [app]. now rewrite IH.
Qed.

(** The last component of a path has no separator. *)
Lemma basename_cases (p : str) :
  ~ In Posixpath.sep (Posixpath.basename p) /\
  exists head, p = head ++ Posixpath.basename p.
Proof.
  unfold Posixpath.basename, Posixpath.rfind_index, rfind.
  destruct (rfind_from_cases p Posixpath.sep 0 None) as [[E Hn]|(a & b & -> & Hn)].
  - rewrite E. cbn. rewrite str_drop_0. split; [exact Hn|]. now exists [].
  - rewrite rfind_from_last by exact Hn.
    replace (Z.to_N (Z.of_N (0 + N.of_nat (List.length a)) + 1))
      with (N.of_nat (List.length a) + 1) by lia.
    rewrite drop_app_length. cbn [drop N.eqb N.pred Pos.pred_N]. rewrite str_drop_0.
    split; [exact Hn|]. now exists (a ++ [Posixpath.sep]); rewrite <- app_assoc.
Qed.

Lemma basename_of (dir name : str) :
  ~ In Posixpath.sep name ->
  Posixpath.basename (dir ++ Posixpath.sep :: name) = name.
Proof.
  intros Hn. unfold Posixpath.basename, Posixpath.rfind_index, rfind.
  rewrite rfind_from_last by exact Hn.
  replace (Z.to_N (Z.of_N (0 + N.of_nat (List.length dir)) + 1))
    with (N.of_nat (List.length dir) + 1) by lia.
  rewrite drop_app_length. cbn [drop N.eqb N.pred Pos.pred_N]. now rewrite str_drop_0.
Qed.

Lemma skip_leading_dots_prefix (p : str) (dotIndex : N) (indices : list N) :
  exists rest, p = fst (Posixpath.skip_leading_dots p dotIndex indices) ++ rest.
Proof.
  induction indices as [|i indices IH]; cbn [Posixpath.skip_leading_dots].
  - exists []. now rewrite app_nil_r.
  - destruct (negb _); [|exact IH]. exists (drop dotIndex p). cbn. now rewrite take_drop.
Qed.

Lemma splitext_prefix (p : str) :
  exists rest, p = fst (Posixpath.splitext p) ++ rest.
Proof.
  unfold Posixpath.splitext. destruct (_ <? _)%Z.
  - apply skip_leading_dots_prefix.
  - exists []. now rewrite app_nil_r.
Qed.

Lemma join_relative (a b : str) :
  startswith b [Posixpath.sep] = false ->
  Posixpath.join a b
  = (if eqb a [] || endswith a [Posixpath.sep] then a else a ++ [Posixpath.sep]) ++ b.
Proof.
  intros H. unfold Posixpath.join. rewrite H.
  destruct (eqb a [] || endswith a [Posixpath.sep]); [reflexivity|].
  now rewrite <- app_assoc.
Qed.

(** X26: the name of the output file holds no separator, so that
    [os.path.join] never drops the directory: the output path is the
    directory, a separator unless the directory is empty or ends with one,
    the base name of the input without its extension, and .mp3. *)
Theorem output_lies_in_the_output_directory (ncm_file_path : str)
    (output_dir : option str) :
  let directory :=
    match output_dir with
    | None => Posixpath.dirname ncm_file_path
    | Some d => d
    end in
  let name := fst (Posixpath.splitext (Posixpath.basename ncm_file_path)) in
  ~ In Posixpath.sep (name ++ s_ ".mp3") /\
  mp3_path ncm_file_path output_dir
  = (if eqb directory [] || endswith directory [Posixpath.sep]
     then directory else directory ++ [Posixpath.sep])
    ++ name ++ s_ ".mp3".
Proof.
  intros directory name.
  assert (Hn : ~ In Posixpath.sep (name ++ s_ ".mp3")).
  { destruct (basename_cases ncm_file_path) as [Hb _].
    destruct (splitext_prefix (Posixpath.basename ncm_file_path)) as [rest E].
    fold name in E. intros H. apply in_app_or in H as [H|H].
    - apply Hb. rewrite E. apply in_or_app. now left.
    - cbn in H. repeat (destruct H as [H|H]; [discriminate H|]). exact H. }
  split; [exact Hn|].
  unfold mp3_path. fold directory. fold name. apply join_relative.
  destruct (name ++ s_ ".mp3") as [|c rest]; [reflexivity|].
  cbn [startswith]. destruct (N.eqb_spec c Posixpath.sep) as [->|]; [|reflexivity].
  destruct Hn. now left.
Qed.

Lemma skip_leading_dots_spec (p : str) (dotIndex : N) (todo : str) :
  forall done rest,
  p = done ++ todo ++ rest ->
  Posixpath.skip_leading_dots p dotIndex
    (map (fun k => N.of_nat (List.length done) + N.of_nat k) (seq 0 (List.length todo)))
  = if forallb (N.eqb Posixpath.extsep) todo
    then (p, []) else (take dotIndex p, drop dotIndex p).
Proof.
  induction todo as [|x todo IH]; intros done rest E;
    cbn [List.length seq map Posixpath.skip_leading_dots forallb]; [reflexivity|].
  rewrite E at 1. rewrite drop_app_length. change (N.of_nat 0) with 0.
  rewrite str_drop_0. cbn [app].
  assert (T : take 1 (x :: todo ++ rest) = [x]).
  { cbn. now destruct (todo ++ rest). }
  rewrite T. cbn [eqb]. rewrite andb_true_r, (N.eqb_sym Posixpath.extsep x).
  destruct (x =? Posixpath.extsep); cbn [negb andb]; [|reflexivity].
  rewrite <- seq_shift, map_map.
  specialize (IH (done ++ [x]) rest). rewrite <- app_assoc in IH. cbn [app] in IH.
  rewrite <- (IH E). f_equal. apply map_ext. intros k.
  rewrite length_app. cbn [List.length]. lia.
Qed.

(** [os.path.splitext] on a name with an extension. *)
Lemma splitext_of (stem ext : str) :
  ~ In Posixpath.sep (stem ++ Posixpath.extsep :: ext) ->
  ~ In Posixpath.extsep ext ->
  Posixpath.splitext (stem ++ Posixpath.extsep :: ext)
  = if forallb (N.eqb Posixpath.extsep) stem
    then (stem ++ Posixpath.extsep :: ext, [])
    else (stem, Posixpath.extsep :: ext).
Proof.
  intros Hs He. unfold Posixpath.splitext, Posixpath.rfind_index, rfind.
  rewrite (rfind_from_notin _ _ Hs), (rfind_from_last _ _ _ He).
  replace (-1 <? Z.of_N (0 + N.of_nat (List.length stem)))%Z with true
    by (symmetry; apply Z.ltb_lt; lia).
  replace (Z.to_N (-1 + 1)) with 0 by reflexivity.
  replace (Z.to_N (Z.of_N (0 + N.of_nat (List.length stem))))
    with (N.of_nat (List.length stem)) by lia.
  replace (N.to_nat (N.of_nat (List.length stem) - 0)) with (List.length stem) by lia.
  rewrite (skip_leading_dots_spec _ _ stem [] (Posixpath.extsep :: ext) eq_refl).
  destruct (forallb _ stem); [reflexivity|]. cbn [app].
  rewrite take_app_length.
  replace (N.of_nat (List.length stem)) with (N.of_nat (List.length stem) + 0) by lia.
  now rewrite drop_app_length, str_drop_0.
Qed.

(** X27: for an input whose last component is a stem, a dot and an extension
    without dot, the output is named after the stem, with .mp3; except when
    the stem consists of dots only or is empty, where the whole name is kept
    and .mp3 is appended, as for '.ncm', which gives '.ncm.mp3'. *)
Theorem extension_is_replaced (dir stem ext output_dir : str) :
  ~ In Posixpath.sep (stem ++ Posixpath.extsep :: ext) ->
  ~ In Posixpath.extsep ext ->
  mp3_path (dir ++ Posixpath.sep :: stem ++ Posixpath.extsep :: ext) (Some output_dir)
  = Posixpath.join output_dir
      ((if forallb (N.eqb Posixpath.extsep) stem
        then stem ++ Posixpath.extsep :: ext
        else stem) ++ s_ ".mp3").
Proof.
  intros Hs He. unfold mp3_path. rewrite (basename_of _ _ Hs), (splitext_of _ _ Hs He).
  now destruct (forallb _ stem).
Qed.

End OutputPath.

Lemma extension_is_replaced_witness :
  mp3_path (Text.s_ "music/song.ncm") (Some (Text.s_ "out"))
  = Posixpath.join (Text.s_ "out") (Text.s_ "song.mp3") /\
  mp3_path (Text.s_ "music/..ncm") (Some (Text.s_ "out"))
  = Posixpath.join (Text.s_ "out") (Text.s_ "..ncm.mp3").
Proof.
  split.
  - apply (extension_is_replaced (Text.s_ "music") (Text.s_ "song") (Text.s_ "ncm")
             (Text.s_ "out")); vm_compute; intuition discriminate.
  - apply (extension_is_replaced (Text.s_ "music") (Text.s_ ".") (Text.s_ "ncm")
             (Text.s_ "out")); vm_compute; intuition discriminate.
Defined.

(* ===================================================================== *)
(** ** Runs in a file system with one container *)
(* ===================================================================== *)


Lemma output_is_opened_after_decoding_witness :
  Text.s_ "music/song.mp3" = mp3_path World.song_path None /\
  exists content audio meta,
    In (IO.Ev (IO.file_read World.song_path None) (inr content))
       (firstn 8 (fst (World.run_in World.one_song World.quiet_conversion))) /\
    snd (decrypt_ncm content false) = inr (audio, meta).
Proof.
  apply (output_is_opened_after_decoding World.ascii_lower World.song_path None false true false
           (fst (World.run_in World.one_song World.quiet_conversion))
           (snd (World.run_in World.one_song World.quiet_conversion))
           (firstn 8 (fst (World.run_in World.one_song World.quiet_conversion)))
           (skipn 9 (fst (World.run_in World.one_song World.quiet_conversion)))
           (Text.s_ "music/song.mp3") (inr tt)).
  - apply runs_run.
  - vm_compute. reflexivity.
Defined.

Lemma written_data_is_the_decoded_audio_witness :
  (In (IO.Ev (IO.NamedTemporaryFile (Text.s_ ".mp3")) (inr (World.temp_name (Text.s_ ".mp3"))))
      (firstn 5 (fst (World.run_in World.one_song World.quiet_conversion))) /\
   exists content meta,
     In (IO.Ev (IO.file_read World.song_path None) (inr content))
        (firstn 5 (fst (World.run_in World.one_song World.quiet_conversion))) /\
     snd (decrypt_ncm content false) = inr (b_ "ID3 audio", meta)) \/
  (World.temp_name (Text.s_ ".mp3") = mp3_path World.song_path None /\
   exists temp_file_path audio,
     In (IO.Ev (IO.NamedTemporaryFile (Text.s_ ".mp3")) (inr temp_file_path))
        (firstn 5 (fst (World.run_in World.one_song World.quiet_conversion))) /\
     In (IO.Ev (IO.file_write temp_file_path audio) (inr tt))
        (firstn 5 (fst (World.run_in World.one_song World.quiet_conversion))) /\
     In (IO.Ev (IO.file_read temp_file_path None) (inr (b_ "ID3 audio")))
        (firstn 5 (fst (World.run_in World.one_song World.quiet_conversion)))).
Proof.
  apply (written_data_is_the_decoded_audio World.ascii_lower World.song_path None false true false
           (fst (World.run_in World.one_song World.quiet_conversion))
           (snd (World.run_in World.one_song World.quiet_conversion))
           (firstn 5 (fst (World.run_in World.one_song World.quiet_conversion)))
           (skipn 6 (fst (World.run_in World.one_song World.quiet_conversion)))
           (World.temp_name (Text.s_ ".mp3")) (b_ "ID3 audio") (inr tt)).
  - apply runs_run.
  - vm_compute. reflexivity.
Defined.

Lemma only_the_temporary_file_is_removed_witness :
  exists audio,
    In (IO.Ev (IO.NamedTemporaryFile (Text.s_ ".mp3")) (inr (World.temp_name (Text.s_ ".mp3"))))
       (firstn 20 (fst (World.run_in World.one_song World.quiet_conversion))) /\
    In (IO.Ev (IO.file_write (World.temp_name (Text.s_ ".mp3")) audio) (inr tt))
       (firstn 20 (fst (World.run_in World.one_song World.quiet_conversion))) /\
    In (IO.Ev (IO.file_close (World.temp_name (Text.s_ ".mp3"))) (inr tt))
       (firstn 20 (fst (World.run_in World.one_song World.quiet_conversion))).
Proof.
  apply (only_the_temporary_file_is_removed World.ascii_lower World.song_path None false true false
           (fst (World.run_in World.one_song World.quiet_conversion))
           (snd (World.run_in World.one_song World.quiet_conversion))
           (firstn 20 (fst (World.run_in World.one_song World.quiet_conversion)))
           (skipn 21 (fst (World.run_in World.one_song World.quiet_conversion)))
           (World.temp_name (Text.s_ ".mp3")) (inr tt)).
  - apply runs_run.
  - vm_compute. reflexivity.
Defined.

Lemma found_files_were_accepted_witness :
  Forall (fun q =>
            (Text.endswith (World.ascii_lower q) (Text.s_ ".ncm") = true /\
             exists pre post,
               fst (World.run_in World.one_song
                      (get_ncm_files World.ascii_lower (Text.s_ "music")))
               = pre ++ accepting_run q ++ post) /\
            (q = Text.s_ "music" \/
             exists walk root dirs files file,
               In (IO.Ev (IO.os_walk (Text.s_ "music")) walk)
                  (fst (World.run_in World.one_song
                          (get_ncm_files World.ascii_lower (Text.s_ "music")))) /\
               In (root, dirs, files) walk /\ In file files /\
               q = Posixpath.join root file))
    [World.song_path].
Proof.
  apply (found_files_were_accepted World.ascii_lower (Text.s_ "music")
           (fst (World.run_in World.one_song (get_ncm_files World.ascii_lower (Text.s_ "music"))))
           [World.song_path]).
  exact (runs_run (World.answers World.one_song)
           (get_ncm_files World.ascii_lower (Text.s_ "music")) []).
Defined.

Lemma search_only_reads_witness :
  Forall (fun e => scanning (IO.call_of e))
    (fst (World.run_in World.one_song (get_ncm_files World.ascii_lower (Text.s_ "music")))).
Proof.
  apply (search_only_reads World.ascii_lower (Text.s_ "music") _
           (snd (World.run_in World.one_song
                   (get_ncm_files World.ascii_lower (Text.s_ "music"))))).
  apply runs_run.
Defined.

Lemma summary_reports_no_success_witness :
  In (IO.Ev (IO.print (IO.Success 0)) tt)
     (fst (World.run_in World.one_song (main World.ascii_lower World.plain_arguments))) /\
  0 = 0.
Proof.
  assert (H : In (IO.Ev (IO.print (IO.Success 0)) tt)
                (fst (World.run_in World.one_song
                        (main World.ascii_lower World.plain_arguments)))).
  { vm_compute. repeat (first [left; reflexivity | right]). }
  split; [exact H|].
  apply (summary_reports_no_success World.ascii_lower World.plain_arguments
           (fst (World.run_in World.one_song (main World.ascii_lower World.plain_arguments)))
           (snd (World.run_in World.one_song (main World.ascii_lower World.plain_arguments)))
           0).
  - apply runs_run.
  - exact H.
Defined.

Lemma artist_without_name_prevents_tagging_witness :
  snd (World.run_in World.one_song
         (add_metadata (Text.s_ "music/song.mp3") (Json.Obj World.paired_artists)))
  <> inr true /\
  Forall (fun ev => IO.call_of ev <> IO.save (Text.s_ "music/song.mp3"))
    (fst (World.run_in World.one_song
            (add_metadata (Text.s_ "music/song.mp3") (Json.Obj World.paired_artists)))).
Proof.
  apply (artist_without_name_prevents_tagging (Text.s_ "music/song.mp3") World.paired_artists
           [Json.Arr [Json.Str (Text.s_ "A"); Json.Int 1]]
           (Json.Arr [Json.Str (Text.s_ "A"); Json.Int 1])
           (IO.TypeError "list indices must be integers or slices, not str")).
  - reflexivity.
  - now left.
  - reflexivity.
  - apply runs_run.
Defined.

Lemma accepted_file_passes_the_magic_check_witness :
  In (IO.Ev (IO.file_read World.song_path (Some (len MAGIC_HEADER)))
        (inr (PyBytes.take (len MAGIC_HEADER) World.song)))
     (fst (World.run_in World.one_song (is_ncm_file World.ascii_lower World.song_path))) /\
  decrypt_ncm World.song false
  <> ([], inl (Failed_to_decrypt_NCM_file (ValueError "Not a valid NCM file"))).
Proof.
  assert (H : In (IO.Ev (IO.file_read World.song_path (Some (len MAGIC_HEADER)))
                    (inr (PyBytes.take (len MAGIC_HEADER) World.song)))
                (fst (World.run_in World.one_song
                        (is_ncm_file World.ascii_lower World.song_path)))).
  { vm_compute. repeat (first [left; reflexivity | right]). }
  split; [exact H|].
  apply (accepted_file_passes_the_magic_check World.ascii_lower World.song_path
           (fst (World.run_in World.one_song (is_ncm_file World.ascii_lower World.song_path)))
           World.song false []).
  - exact (runs_run (World.answers World.one_song)
             (is_ncm_file World.ascii_lower World.song_path) []).
  - exact H.
Defined.

(* ===================================================================== *)
(** ** A conversion that writes its output *)
(* ===================================================================== *)

Section CompleteConversion.

Import PyStr Text IO.

Variable lower : str -> str.

Ltac answer x := exists x; eexists; split; [reflexivity|]; cbn.

(** X29: a conversion that did all its work is reported as failed.  For
    every input whose content decodes, there is a run of
    [convert_ncm_to_mp3] in which the input is read, the decoded audio is
    written to the output path, the output is closed, the temporary file is
    removed, and which returns [False]. *)
Theorem written_output_is_reported_as_failure (ncm_file_path : str)
    (output_dir : option str) (force_overwrite quiet debug : bool)
    (content audio : bytes) (meta : Json.value) (temp_file_path : str) :
  snd (decrypt_ncm content debug) = inr (audio, meta) ->
  exists tr,
    runs (convert_ncm_to_mp3 lower ncm_file_path output_dir force_overwrite quiet debug)
      tr (inr false) /\
    In (Ev (file_read ncm_file_path None) (inr content)) tr /\
    In (Ev (file_write (mp3_path ncm_file_path output_dir) audio) (inr tt)) tr /\
    In (Ev (file_close (mp3_path ncm_file_path output_dir)) (inr tt)) tr /\
    In (Ev (os_remove temp_file_path) (inr tt)) tr.
Proof.
  intros D.
  unfold convert_ncm_to_mp3, convert_file, decrypt_ncm_file, write_temp_audio, clean_up,
    with_open, try_except_Exception, try_finally, add_metadata.
  destruct quiet; eexists; (split; [cbn|]).
  - answer false. answer (@inr external unit tt). answer (@inr external bytes content).
    answer (@inr external unit tt). rewrite D. cbn.
    answer (@inr external str temp_file_path). answer (@inr external unit tt).
    answer (@inr external unit tt).
    answer (@inr external unit tt). answer (@inr external unit tt).
    answer (@inr external bytes audio). answer (@inr external unit tt).
    answer (@inr external unit tt). answer (@inr external unit tt).
    answer (@inl external unit (Raised Other_Exception [])). answer tt.
    answer true. answer (@inr external unit tt).
    split; reflexivity.
  - cbn. repeat split; repeat (first [left; reflexivity | right]).
  - answer false. answer tt. answer tt.
    answer (@inr external unit tt). answer (@inr external bytes content).
    answer (@inr external unit tt). rewrite D. cbn. answer tt.
    answer (@inr external str temp_file_path). answer (@inr external unit tt).
    answer (@inr external unit tt). answer tt.
    answer (@inr external unit tt). answer (@inr external unit tt).
    answer (@inr external bytes audio). answer (@inr external unit tt).
    answer (@inr external unit tt). answer (@inr external unit tt).
    answer (@inl external unit (Raised Other_Exception [])). answer tt. answer tt.
    answer true. answer (@inr external unit tt). answer tt.
    split; reflexivity.
  - cbn. repeat split; repeat (first [left; reflexivity | right]).
Qed.

End CompleteConversion.

(* ===================================================================== *)
(** ** What the search returns *)
(* ===================================================================== *)

Section SearchResult.

Import PyStr Text IO.

Variable lower : str -> str.

(** One run of [is_ncm_file] within a longer run. *)
Lemma is_ncm_file_block (file_path : str) (tr : list event) (ok : bool) :
  runs (is_ncm_file lower file_path) tr ok ->
  forall later,
  accepted_paths (tr ++ later)
  = (if ok then [file_path] else []) ++ accepted_paths later.
Proof.
  unfold is_ncm_file. cbn [bind call_ runs]. intros (isfile & tr1 & -> & H) later.
  destruct (negb isfile || negb (endswith (lower file_path) (s_ ".ncm"))).
  { cbn in H. destruct H as [-> ->]. reflexivity. }
  cbn in H. destruct H as ([x|[]] & tr2 & -> & H); cbn in H.
  { destruct H as [-> ->]. reflexivity. }
  destruct H as ([x|header] & tr3 & -> & H); cbn in H.
  { destruct H as ([y|[]] & tr4 & -> & H); cbn in H; destruct H as [-> ->];
      reflexivity. }
  destruct H as ([y|[]] & tr4 & -> & H); cbn in H; destruct H as [-> ->].
  - cbn. now destruct (bytes_eqb header _).
  - cbn. now destruct (bytes_eqb header _).
Qed.

Lemma collect_ncm_files_block (root : str) (files : list str) :
  forall ncm_files tr out,
  runs (collect_ncm_files lower root files ncm_files) tr out ->
  exists added,
    out = ncm_files ++ added /\
    forall later, accepted_paths (tr ++ later) = added ++ accepted_paths later.
Proof.
  unfold collect_ncm_files.
  induction files as [|file files IH]; intros ncm_files tr out; cbn [for_].
  - cbn. intros [-> ->]. exists []. split; [now rewrite app_nil_r|reflexivity].
  - intros H. apply runs_bind in H as (tr1 & acc & tr2 & -> & H1 & H2).
    apply runs_bind in H1 as (tr0 & ok & tr0' & -> & H0 & H1).
    cbn in H1. destruct H1 as [-> ->]. rewrite app_nil_r.
    apply IH in H2 as (added & -> & Ha).
    exists ((if ok then [Posixpath.join root file] else []) ++ added). split.
    + destruct ok; [now rewrite <- app_assoc|reflexivity].
    + intros later. rewrite <- !app_assoc, (is_ncm_file_block _ _ _ H0), Ha.
      reflexivity.
Qed.

Lemma walk_block (walk : list (str * list str * list str)) :
  forall ncm_files tr out,
  runs (for_ walk
          (fun '(root, _, files) ncm_files => collect_ncm_files lower root files ncm_files)
          ncm_files) tr out ->
  exists added,
    out = ncm_files ++ added /\
    forall later, accepted_paths (tr ++ later) = added ++ accepted_paths later.
Proof.
  induction walk as [|[[root dirs] files] walk IH]; intros ncm_files tr out; cbn [for_].
  - cbn. intros [-> ->]. exists []. split; [now rewrite app_nil_r|reflexivity].
  - intros H. apply runs_bind in H as (tr1 & acc & tr2 & -> & H1 & H2).
    apply collect_ncm_files_block in H1 as (added1 & -> & Ha1).
    apply IH in H2 as (added2 & -> & Ha2).
    exists (added1 ++ added2). split; [now rewrite <- app_assoc|].
    intros later. now rewrite <- !app_assoc, Ha1, Ha2.
Qed.

(** X30: the list [get_ncm_files] returns is read off its run: it holds, in the
    order of the run and as often as this happened, the paths of the files
    from which the magic constant was read and which were closed without
    error right after; nothing else is in it, and nothing of these is
    missing. *)
Theorem search_returns_the_accepted_paths (input_path : str) (tr : list event)
    (ncm_files : list str) :
  runs (get_ncm_files lower input_path) tr ncm_files ->
  ncm_files = accepted_paths tr.
Proof.
  unfold get_ncm_files. cbn [bind call_ runs]. intros (isfile & tr1 & -> & H).
  destruct isfile.
  - apply runs_bind in H as (tr0 & ok & tr0' & -> & H0 & H1).
    cbn in H1. destruct H1 as [-> ->].
    cbn [accepted_paths read_magic]. rewrite (is_ncm_file_block _ _ _ H0).
    cbn. rewrite app_nil_r. now destruct ok.
  - cbn [bind call_ runs] in H. destruct H as (isdir & tr2 & -> & H).
    destruct isdir; [|cbn in H; destruct H as [-> ->]; reflexivity].
    cbn [bind call_ runs] in H. destruct H as (walk & tr3 & -> & H).
    apply walk_block in H as (added & -> & Ha).
    cbn [accepted_paths read_magic app]. specialize (Ha []).
    rewrite app_nil_r in Ha. rewrite Ha. cbn. now rewrite app_nil_r.
Qed.

End SearchResult.

Lemma search_returns_the_accepted_paths_witness :
  [World.song_path]
  = accepted_paths
      (fst (World.run_in World.one_song (get_ncm_files World.ascii_lower (Text.s_ "music")))).
Proof.
  apply (search_returns_the_accepted_paths World.ascii_lower (Text.s_ "music")
           (fst (World.run_in World.one_song
                   (get_ncm_files World.ascii_lower (Text.s_ "music"))))
           [World.song_path]).
  exact (runs_run (World.answers World.one_song)
           (get_ncm_files World.ascii_lower (Text.s_ "music")) []).
Defined.

Lemma written_output_is_reported_as_failure_witness :
  exists tr,
    IO.runs World.quiet_conversion tr (inr false) /\
    In (IO.Ev (IO.file_read World.song_path None) (inr World.song)) tr /\
    In (IO.Ev (IO.file_write (mp3_path World.song_path None) (b_ "ID3 audio")) (inr tt)) tr /\
    In (IO.Ev (IO.file_close (mp3_path World.song_path None)) (inr tt)) tr /\
    In (IO.Ev (IO.os_remove (World.temp_name (Text.s_ ".mp3"))) (inr tt)) tr.
Proof.
  apply (written_output_is_reported_as_failure World.ascii_lower World.song_path None
           false true false World.song (b_ "ID3 audio")
           (Json.Obj [(Text.s_ "musicName", Json.Str (Text.s_ "T"));
                      (Text.s_ "artist",
                       Json.Arr [Json.Obj [(Text.s_ "name", Json.Str (Text.s_ "A"))]]);
                      (Text.s_ "album", Json.Str (Text.s_ "B"))])
           (World.temp_name (Text.s_ ".mp3"))).
  vm_compute. reflexivity.
Defined.
